(** * TarkovTracker: progress handlers, hideout graph and store migration

    A shallow embedding of the progress API handlers, of the hideout data
    composable ([useHideoutData]) and of the store's [migrateDataIfNeeded],
    with the properties the written specification states about them. *)

From Stdlib Require Import ZArith String Ascii List Bool Lia.
From stdpp Require Import base option list strings gmap pretty.

Set Warnings "-register-all".

Local Open Scope string_scope.
Local Open Scope list_scope.

(** ** JavaScript values as the handlers see them *)

Module Js.

(** A JSON request body value.  The properties of an object are kept in
    the order in which [for ... in] enumerates them. *)
Inductive value : Type :=
| Undefined
| Null
| Bool (b : bool)
| Num (n : Z)
| Str (s : string)
| Obj (props : list (string * value)).

(** [!!v] of JavaScript. *)
Definition truthy (v : value) : bool :=
  match v with
  | Undefined | Null => false
  | Bool b => b
  | Num n => negb (n =? 0)%Z
  | Str s => negb (String.eqb s EmptyString)
  | Obj _ => true
  end.

(** Truthiness of a string that may be missing. *)
Definition truthy_str (s : option string) : bool :=
  match s with
  | Some s => negb (String.eqb s EmptyString)
  | None => false
  end.

(** [v == null] *)
Definition loosely_null (v : value) : bool :=
  match v with
  | Undefined | Null => true
  | _ => false
  end.

Definition is_number (v : value) : bool :=
  match v with Num _ => true | _ => false end.

(** [v === 'literal'] *)
Definition is_str (v : value) (lit : string) : bool :=
  match v with
  | Str s => String.eqb s lit
  | _ => false
  end.

(** Property read [o.k]; a missing property reads as [undefined]. *)
Fixpoint assoc {A : Type} (k : string) (l : list (string * A)) : option A :=
  match l with
  | [] => None
  | (k', a) :: l' => if String.eqb k k' then Some a else assoc k l'
  end.

Definition prop (v : value) (k : string) : value :=
  match v with
  | Obj props => default Undefined (assoc k props)
  | _ => Undefined
  end.

(** Assignment [o[k] = a] on an object used as a dictionary: an existing
    key keeps its place, a new key goes last. *)
Fixpoint assign {A : Type} (k : string) (a : A) (l : list (string * A))
  : list (string * A) :=
  match l with
  | [] => [(k, a)]
  | (k', a') :: l' =>
      if String.eqb k k' then (k, a) :: l' else (k', a') :: assign k a l'
  end.

Fixpoint remove {A : Type} (k : string) (l : list (string * A))
  : list (string * A) :=
  match l with
  | [] => []
  | (k', a') :: l' =>
      if String.eqb k k' then remove k l' else (k', a') :: remove k l'
  end.

(** [[...new Set(l)]]: the first occurrence of every element, in order. *)
Fixpoint uniq (seen l : list string) : list string :=
  match l with
  | [] => []
  | x :: l' =>
      if bool_decide (x ∈ seen) then uniq seen l' else x :: uniq (x :: seen) l'
  end.

(** *** [parseInt(s, 10)] *)

Definition is_space (c : ascii) : bool :=
  match nat_of_ascii c with
  | 9 | 10 | 11 | 12 | 13 | 32 => true
  | _ => false
  end.

Definition digit (c : ascii) : option Z :=
  let n := nat_of_ascii c in
  if (48 <=? n)%nat && (n <=? 57)%nat then Some (Z.of_nat (n - 48)) else None.

Fixpoint skip_space (s : string) : string :=
  match s with
  | String c s' => if is_space c then skip_space s' else s
  | EmptyString => s
  end.

(** Reads the longest prefix of decimal digits; [acc] is [None] until a
    digit has been seen. *)
Fixpoint digits (acc : option Z) (s : string) : option Z :=
  match s with
  | String c s' =>
      match digit c with
      | Some d => digits (Some (10 * default 0%Z acc + d)%Z) s'
      | None => acc
      end
  | EmptyString => acc
  end.

(** [None] stands for [NaN].  The result is the integer the digits spell,
    which is what JavaScript returns up to 2^53; beyond, JavaScript returns
    the nearest number it can hold.  The white space skipped is that of
    ASCII. *)
Definition parseInt (s : string) : option Z :=
  match skip_space s with
  | String "-" s' => Z.opp <$> digits None s'
  | String "+" s' => digits None s'
  | s' => digits None s'
  end.

End Js.

(** ** The document store *)

Module Firestore.

(** A stored field value. *)
Inductive Value : Type :=
| VNull
| VBool (b : bool)
| VNum (n : Z)
| VStr (s : string)
| VMap (fields : list (string * Value)).

(** A document is the map of its top-level fields. *)
Definition Fields : Type := list (string * Value).

(** What the handlers put in an update: a boolean, a number, or the
    [FieldValue.delete()] sentinel. *)
Inductive FieldValue : Type :=
| FvBool (b : bool)
| FvNum (n : Z)
| FvDelete.

(** The JavaScript object handed to [update], keyed by dotted field path. *)
Definition UpdateData : Type := list (string * FieldValue).

(** A dotted field path addresses nested keys: the path string is cut at
    every dot. *)
Fixpoint segments (s : string) : list string :=
  match s with
  | EmptyString => [EmptyString]
  | String c s' =>
      if Ascii.eqb c "." then EmptyString :: segments s'
      else match segments s' with
           | seg :: rest => String c seg :: rest
           | [] => [String c EmptyString]
           end
  end.

Fixpoint get (p : list string) (v : Value) : option Value :=
  match p with
  | [] => Some v
  | k :: p' =>
      match v with
      | VMap fs =>
          match Js.assoc k fs with
          | Some v' => get p' v'
          | None => None
          end
      | _ => None
      end
  end.

Definition sub (o : option Value) : Fields :=
  match o with
  | Some (VMap fs) => fs
  | _ => []
  end.

(** Writing at a path keeps the siblings at every level and creates the
    maps that are missing on the way. *)
Fixpoint set (p : list string) (v : Value) (fs : Fields) : Fields :=
  match p with
  | [] => fs
  | k :: p' =>
      match p' with
      | [] => Js.assign k v fs
      | _ :: _ => Js.assign k (VMap (set p' v (sub (Js.assoc k fs)))) fs
      end
  end.

Fixpoint delete (p : list string) (fs : Fields) : Fields :=
  match p with
  | [] => fs
  | k :: p' =>
      match p' with
      | [] => Js.remove k fs
      | _ :: _ =>
          match Js.assoc k fs with
          | Some (VMap fs') => Js.assign k (VMap (delete p' fs')) fs
          | _ => fs
          end
      end
  end.

Definition apply (doc : Fields) (e : string * FieldValue) : Fields :=
  match e.2 with
  | FvBool b => set (segments e.1) (VBool b) doc
  | FvNum n => set (segments e.1) (VNum n) doc
  | FvDelete => delete (segments e.1) doc
  end.

(** [ref.update(data)]: fails on a document that does not exist, else
    applies every field path.  This is what becomes of an update the
    client takes: the client checks the field paths first and refuses the
    whole update, with nothing sent, when they are not as [takes] says. *)
Definition update (data : UpdateData) (doc : option Fields) : option Fields :=
  match doc with
  | Some fs => Some (fold_left apply data fs)
  | None => None
  end.

(** [ref.set(data, { merge: true })] with top-level scalar fields: creates
    the document when it is missing and overwrites only the given fields. *)
Definition set_merge (data : list (string * Value)) (doc : option Fields)
  : Fields :=
  fold_left (fun fs e => Js.assign e.1 e.2 fs) data (default [] doc).

(** Reading a field of a document by its dotted path. *)
Definition field (doc : Fields) (path : string) : option Value :=
  get (segments path) (VMap doc).

(** The characters the client refuses in a field path. *)
Definition refused_char (c : ascii) : bool :=
  match c with
  | "*" | "~" | "/" | "[" | "]" => true
  | _ => false
  end%char.

(** The field paths the client takes: no empty segment, which rules out
    the empty path, a dot at either end and two dots in a row, and no
    refused character. *)
Definition accepted_path (path : string) : bool :=
  forallb (fun seg => negb (String.eqb seg EmptyString)) (segments path)
  && forallb (fun c => negb (refused_char c)) (list_ascii_of_string path).

(** The updates the client takes: at least one field, every path accepted,
    and no path a prefix of another. *)
Definition takes (data : UpdateData) : Prop :=
  data ≠ []
  ∧ (∀ k, k ∈ data.*1 → accepted_path k = true)
  ∧ ∀ i j k k',
      data.*1 !! i = Some k → data.*1 !! j = Some k' → i ≠ j →
      ¬ segments k `prefix_of` segments k'.

End Firestore.

(** ** The progress handlers *)

Module Handler.

Record ApiToken : Type := {
  owner : string;
  permissions : list string
}.

(** The authenticated request: the token attached by the auth layer, the
    route parameters and the parsed JSON body. *)
Record Request : Type := {
  apiToken : option ApiToken;
  params : list (string * string);
  body : Js.value
}.

Record SystemDocData : Type := { team : option string }.
Record UserDocData : Type := { teamHide : option (gmap string bool) }.
Record TeamDocData : Type := { members : option (list string) }.

(** The collections the handlers touch, each keyed by document id. *)
Record Db : Type := {
  systemDocs : gmap string SystemDocData;
  userDocs : gmap string UserDocData;
  teamDocs : gmap string TeamDocData;
  progressDocs : gmap string Firestore.Fields
}.

Definition with_progress (db : Db) (id : string) (doc : Firestore.Fields) : Db :=
  {| systemDocs := systemDocs db;
     userDocs := userDocs db;
     teamDocs := teamDocs db;
     progressDocs := <[id := doc]> (progressDocs db) |}.

Inductive Level : Type := Warn | Err.

Record LogEntry : Type := {
  level : Level;
  message : string;
  context : list (string * Js.value)
}.

Inductive Payload (A : Type) : Type :=
| Error (msg : string)
| Message (msg : string)
| Json (a : A).
Arguments Error {A} msg.
Arguments Message {A} msg.
Arguments Json {A} a.

(** What a handler leaves behind: the response sent, the store once every
    write it started has landed, and the log. *)
Record Result (A : Type) : Type := {
  status : Z;
  payload : Payload A;
  db_after : Db;
  logs : list LogEntry
}.
Arguments status {A} r.
Arguments payload {A} r.
Arguments db_after {A} r.
Arguments logs {A} r.

Definition respond {A : Type} (code : Z) (p : Payload A) (db : Db)
    (l : list LogEntry) : Result A :=
  {| status := code; payload := p; db_after := db; logs := l |}.

(** [ownerId && req.apiToken?.permissions?.includes(perm)] *)
Definition authorized (req : Request) (perm : string) : option string :=
  match apiToken req with
  | Some t =>
      if negb (String.eqb (owner t) EmptyString)
         && bool_decide (perm ∈ permissions t)
      then Some (owner t)
      else None
  | None => None
  end.

Definition param (req : Request) (name : string) : string :=
  default EmptyString (Js.assoc name (params req)).

Definition unauthorized {A : Type} (db : Db) : Result A :=
  respond 401 (Error "Unauthorized or insufficient permissions.") db [].

Definition isValidTaskStatus (status : Js.value) : bool :=
  match status with
  | Js.Str s =>
      String.eqb s "uncompleted" || String.eqb s "completed"
      || String.eqb s "failed"
  | _ => false
  end.

(** The legacy-format fields of one task, as [updateSingleTask] and the loop
    of [updateMultipleTasks] both assign them. *)
Definition taskFields (state taskId : string) (updateTime : Z)
    (updateData : Firestore.UpdateData) : Firestore.UpdateData :=
  let complete := "taskCompletions." +:+ taskId +:+ ".complete" in
  let failed := "taskCompletions." +:+ taskId +:+ ".failed" in
  let timestamp := "taskCompletions." +:+ taskId +:+ ".timestamp" in
  if String.eqb state "completed" then
    let updateData := Js.assign complete (Firestore.FvBool true) updateData in
    let updateData := Js.assign failed (Firestore.FvBool false) updateData in
    Js.assign timestamp (Firestore.FvNum updateTime) updateData
  else if String.eqb state "failed" then
    let updateData := Js.assign complete (Firestore.FvBool true) updateData in
    let updateData := Js.assign failed (Firestore.FvBool true) updateData in
    Js.assign timestamp (Firestore.FvNum updateTime) updateData
  else if String.eqb state "uncompleted" then
    let updateData := Js.assign complete (Firestore.FvBool false) updateData in
    let updateData := Js.assign failed (Firestore.FvBool false) updateData in
    Js.assign timestamp Firestore.FvDelete updateData
  else updateData.

Definition str_of (v : Js.value) : string :=
  match v with
  | Js.Str s => s
  | _ => EmptyString
  end.

Section Handlers.

(** The catalog types and the helpers of [progressUtils] and [dataLoaders]
    are defined outside the handlers' file: the handlers take them as
    parameters. *)
Context {TaskData HideoutData FormattedProgress : Type}.

(** [Date.now()] at the time of the request. *)
Variable now : Z.

(** The outcome of [await getTaskData()] and [await getHideoutData()]: a
    rejection with its message, or the catalog, which may be null. *)
Variable getTaskData : string + option TaskData.
Variable getHideoutData : string + option HideoutData.

(** [updateTaskState taskId state userId taskData]: the store it leaves and
    the message of the error it threw, if any. *)
Variable updateTaskState :
  string -> string -> string -> option TaskData -> Db -> Db * option string.

Variable formatProgress :
  Firestore.Fields -> string -> HideoutData -> TaskData -> FormattedProgress.

(** The message of the rejection raised by a failed [update]. *)
Variable storeError : string.

(** The dependency update of one task, with its own [try]/[catch]: an
    error is logged under [what] and goes no further. *)
Definition dependencyUpdate (what stateKey taskId state ownerId : string)
    (db : Db) : Db * list LogEntry :=
  let failure (e : string) :=
    {| level := Err; message := what;
       context := [("error", Js.Str e); ("userId", Js.Str ownerId);
                   ("taskId", Js.Str taskId); (stateKey, Js.Str state)] |} in
  match getTaskData with
  | inl e => (db, [failure e])
  | inr taskData =>
      match updateTaskState taskId state ownerId taskData db with
      | (db', Some e) => (db', [failure e])
      | (db', None) => (db', [])
      end
  end.

(** The write of the task's own fields: [await progressRef.update(updateData)]
    and the store once it has resolved, [None] when it rejects. *)
Definition primaryWrite (state taskId ownerId : string) (db : Db) : option Db :=
  let updateTime := now in
  let updateData := taskFields state taskId updateTime [] in
  with_progress db ownerId
    <$> Firestore.update updateData (progressDocs db !! ownerId).

Definition updateSingleTask (req : Request) (db : Db) : Result unit :=
  match authorized req "WP" with
  | Some ownerId =>
      let taskId := param req "taskId" in
      let state := Js.prop (body req) "state" in
      if String.eqb taskId EmptyString then
        respond 400 (Error "Task ID is required.") db []
      else if negb (isValidTaskStatus state) then
        respond 400
          (Error "Invalid state provided. Should be 'completed', 'failed', or 'uncompleted'.")
          db []
      else
        match primaryWrite (str_of state) taskId ownerId db with
        | Some committed =>
            let '(db', l) :=
              dependencyUpdate "Error updating task dependencies:" "state"
                taskId (str_of state) ownerId committed in
            respond 200 (Message "Task updated successfully.") db' l
        | None =>
            respond 500 (Error "Failed to update task.") db
              [{| level := Err; message := "Error updating single task:";
                  context := [("error", Js.Str storeError);
                              ("userId", Js.Str ownerId);
                              ("taskId", Js.Str taskId); ("state", state)] |}]
        end
  | None => unauthorized db
  end.

(** *** Batch update *)

(** The state of the loop over the request's entries.  An entry that
    passes the check has its dependency update started on the spot: what is
    pushed onto [updatePromises] is the promise of an async function called
    where it is written, which runs up to its first [await] at once and on
    to its end thereafter, whether or not anyone waits for it. *)
Record BatchLoop : Type := {
  invalidStatusFound : bool;
  batchUpdateData : Firestore.UpdateData;
  updatePromises : list (string * string);
  warnings : list LogEntry
}.

Fixpoint batchLoop (ownerId : string) (taskUpdates : list (string * Js.value))
    (st : BatchLoop) : BatchLoop :=
  match taskUpdates with
  | [] => st
  | (taskId, status) :: rest =>
      if negb (isValidTaskStatus status) then
        {| invalidStatusFound := true;
           batchUpdateData := batchUpdateData st;
           updatePromises := updatePromises st;
           warnings := warnings st ++
             [{| level := Warn;
                 message := "Invalid status found in batch update";
                 context := [("userId", Js.Str ownerId);
                             ("taskId", Js.Str taskId);
                             ("status", status)] |}] |}
      else
        batchLoop ownerId rest
          {| invalidStatusFound := invalidStatusFound st;
             batchUpdateData :=
               taskFields (str_of status) taskId now (batchUpdateData st);
             updatePromises := updatePromises st ++ [(taskId, str_of status)];
             warnings := warnings st |}
  end.

(** The jobs in flight run to their end whatever the handler answers.
    Their writes may interleave with each other and with the batch write in
    any order; they are sequenced here after the batch write, in the order
    they were started. *)
Fixpoint settle (ownerId : string) (jobs : list (string * string)) (db : Db)
    : Db * list LogEntry :=
  match jobs with
  | [] => (db, [])
  | (taskId, status) :: rest =>
      let '(db1, l1) :=
        dependencyUpdate "Error updating task dependencies in batch:" "status"
          taskId status ownerId db in
      let '(db2, l2) := settle ownerId rest db1 in
      (db2, l1 ++ l2)
  end.

Definition updateMultipleTasks (req : Request) (db : Db) : Result unit :=
  match authorized req "WP" with
  | Some ownerId =>
      match body req with
      | Js.Obj ((_ :: _) as taskUpdates) =>
          let st :=
            batchLoop ownerId taskUpdates
              {| invalidStatusFound := false; batchUpdateData := [];
                 updatePromises := []; warnings := [] |} in
          if invalidStatusFound st then
            let '(db', l) := settle ownerId (updatePromises st) db in
            respond 400 (Error "Invalid status value found in batch update.")
              db' (warnings st ++ l)
          else
            match Firestore.update (batchUpdateData st)
                    (progressDocs db !! ownerId) with
            | Some doc =>
                let '(db', l) :=
                  settle ownerId (updatePromises st)
                    (with_progress db ownerId doc) in
                respond 200 (Message "Tasks updated successfully.") db'
                  (warnings st ++ l)
            | None =>
                let '(db', l) := settle ownerId (updatePromises st) db in
                respond 500 (Error "Failed to update tasks.") db'
                  (warnings st ++
                   [{| level := Err;
                       message := "Error updating multiple tasks:";
                       context := [("error", Js.Str storeError);
                                   ("userId", Js.Str ownerId)] |}] ++ l)
            end
      | _ => respond 400 (Error "Invalid request body format.") db []
      end
  | None => unauthorized db
  end.

(** *** Objective update *)

Definition quote : string := String (ascii_of_nat 34) EmptyString.

Definition updateTaskObjective (req : Request) (db : Db) : Result unit :=
  match authorized req "WP" with
  | Some ownerId =>
      let objectiveId := param req "objectiveId" in
      let state := Js.prop (body req) "state" in
      let count := Js.prop (body req) "count" in
      if String.eqb objectiveId EmptyString then
        respond 400 (Error "Objective ID is required.") db []
      else if negb (Js.truthy state) && Js.loosely_null count then
        respond 400 (Error "Either state or count must be provided.") db []
      else
        let updateTime := now in
        let complete := "taskObjectives." +:+ objectiveId +:+ ".complete" in
        let timestamp := "taskObjectives." +:+ objectiveId +:+ ".timestamp" in
        let stateFields : option Firestore.UpdateData :=
          if Js.truthy state then
            if Js.is_str state "completed" then
              Some (Js.assign timestamp (Firestore.FvNum updateTime)
                      (Js.assign complete (Firestore.FvBool true) []))
            else if Js.is_str state "uncompleted" then
              Some (Js.assign timestamp Firestore.FvDelete
                      (Js.assign complete (Firestore.FvBool false) []))
            else None
          else Some [] in
        match stateFields with
        | None =>
            respond 400
              (Error ("Invalid state. Must be " +:+ quote +:+ "completed"
                      +:+ quote +:+ " or " +:+ quote +:+ "uncompleted"
                      +:+ quote +:+ "."))
              db []
        | Some updateData =>
            let countFields : option Firestore.UpdateData :=
              if negb (Js.loosely_null count) then
                match count with
                | Js.Num n =>
                    if (n <? 0)%Z then None
                    else Some (Js.assign
                                 ("taskObjectives." +:+ objectiveId +:+ ".count")
                                 (Firestore.FvNum n) updateData)
                | _ => None
                end
              else Some updateData in
            match countFields with
            | None =>
                respond 400 (Error "Count must be a non-negative number.") db []
            | Some updateData =>
                match Firestore.update updateData (progressDocs db !! ownerId) with
                | Some doc =>
                    respond 200 (Message "Task objective updated successfully.")
                      (with_progress db ownerId doc) []
                | None =>
                    respond 500 (Error "Failed to update task objective.") db
                      [{| level := Err;
                          message := "Error updating task objective:";
                          context := [("error", Js.Str storeError);
                                      ("userId", Js.Str ownerId);
                                      ("objectiveId", Js.Str objectiveId);
                                      ("state", state); ("count", count)] |}]
                end
            end
        end
  | None => unauthorized db
  end.

(** *** Player level *)

Definition setPlayerLevel (req : Request) (db : Db) : Result unit :=
  match authorized req "WP" with
  | Some ownerId =>
      match Js.parseInt (param req "levelValue") with
      | Some levelValue =>
          if (levelValue <? 1)%Z then
            respond 400 (Error "Invalid level value provided.") db []
          else
            respond 200 (Message "Level updated successfully.")
              (with_progress db ownerId
                 (Firestore.set_merge [("level", Firestore.VNum levelValue)]
                    (progressDocs db !! ownerId)))
              []
      | None => respond 400 (Error "Invalid level value provided.") db []
      end
  | None => unauthorized db
  end.

(** *** Team progress *)

Record TeamProgress : Type := {
  data : list FormattedProgress;
  self : string;
  hiddenTeammates : list string
}.

(** The member list: the requester alone, or the team's members followed
    by the requester, each id once. *)
Definition teamMemberIds (ownerId : string) (db : Db)
    : list string * list LogEntry :=
  let teamId := systemDocs db !! ownerId ≫= team in
  if Js.truthy_str teamId then
    match teamDocs db !! default EmptyString teamId with
    | Some teamData =>
        (Js.uniq [] (default [] (members teamData) ++ [ownerId]), [])
    | None =>
        ([ownerId],
         [{| level := Warn;
             message := "Team document " +:+ default EmptyString teamId
                        +:+ " not found for user " +:+ ownerId;
             context := [] |}])
    end
  else ([ownerId], []).

(** [memberIds.filter((id) => id !== ownerId && hiddenTeammatesMap?.[id])] *)
Definition hiddenOf (ownerId : string) (hiddenTeammatesMap : gmap string bool)
    (memberIds : list string) : list string :=
  List.filter
    (fun id => negb (String.eqb id ownerId)
               && default false (hiddenTeammatesMap !! id))
    memberIds.

Definition getTeamProgress (req : Request) (db : Db) : Result TeamProgress :=
  match authorized req "TP" with
  | Some ownerId =>
      match getHideoutData, getTaskData with
      | inr (Some hideoutData), inr (Some taskData) =>
          let hiddenTeammatesMap : gmap string bool :=
            default ∅ (userDocs db !! ownerId ≫= teamHide) in
          let '(memberIds, l) := teamMemberIds ownerId db in
          let progress := List.map (fun id => (id, progressDocs db !! id)) memberIds in
          let teamResponse :=
            omap (fun d : string * option Firestore.Fields =>
                    (fun doc => formatProgress doc d.1 hideoutData taskData)
                      <$> d.2)
                 progress in
          let missing :=
            List.map
              (fun d : string * option Firestore.Fields =>
                 {| level := Warn;
                    message := "Progress document not found for member " +:+ d.1;
                    context := [] |})
              (List.filter
                 (fun d : string * option Firestore.Fields =>
                    match d.2 with None => true | Some _ => false end)
                 progress) in
          respond 200
            (Json {| data := teamResponse; self := ownerId;
                     hiddenTeammates :=
                       hiddenOf ownerId hiddenTeammatesMap memberIds |})
            db (l ++ missing)
      | inr hideoutData, inr taskData =>
          respond 500 (Error "Failed to load essential game data for team.") db
            [{| level := Err;
                message := "Failed to load essential Tarkov data (tasks or hideout) for team progress";
                context := [("userId", Js.Str ownerId);
                            ("hideoutLoaded",
                             Js.Bool (bool_decide (is_Some hideoutData)));
                            ("tasksLoaded",
                             Js.Bool (bool_decide (is_Some taskData)))] |}]
      | inl e, _ | _, inl e =>
          respond 500 (Error "Failed to retrieve team progress.") db
            [{| level := Err; message := "Error fetching team progress:";
                context := [("error", Js.Str e); ("userId", Js.Str ownerId)] |}]
      end
  | None => unauthorized db
  end.

End Handlers.

End Handler.

(** ** The hideout graph *)

Module Hideout.

(** Modelled from the spec: the graph built by the graph helpers
    ([createGraph], [safeAddNode], [safeAddEdge], [getPredecessors],
    [getSuccessors], [getParents], [getChildren] of [graphHelpers], which
    are not among the sources).  The specification gives a directed graph in which adding a node or an edge
    that is already there does nothing, [predecessors] and [successors] as
    the direct neighbours, and ancestors (parents in the transitive sense)
    and descendants as the full transitive closure. *)
Record Graph : Type := {
  nodes : list string;
  edges : list (string * string)
}.

(** Modelled from the spec: [createGraph] of the graph helpers, the empty
    graph. *)
Definition createGraph : Graph := {| nodes := []; edges := [] |}.

(** Modelled from the spec: [safeAddNode] of the graph helpers; adding a
    node that is there is a no-op. *)
Definition safeAddNode (g : Graph) (n : string) : Graph :=
  if bool_decide (n ∈ nodes g) then g
  else {| nodes := nodes g ++ [n]; edges := edges g |}.

(** Modelled from the spec: [safeAddEdge] of the graph helpers; adding an
    edge that is there is a no-op. *)
Definition safeAddEdge (g : Graph) (source target : string) : Graph :=
  if bool_decide ((source, target) ∈ edges g) then g
  else {| nodes := nodes g; edges := edges g ++ [(source, target)] |}.

(** Modelled from the spec: [getPredecessors] of the graph helpers, the
    direct neighbours on the incoming side. *)
Definition getPredecessors (g : Graph) (n : string) : list string :=
  List.map fst (List.filter (fun e => String.eqb e.2 n) (edges g)).

(** Modelled from the spec: [getSuccessors] of the graph helpers, the
    direct neighbours on the outgoing side. *)
Definition getSuccessors (g : Graph) (n : string) : list string :=
  List.map snd (List.filter (fun e => String.eqb e.1 n) (edges g)).

(** Every node from which [n] is reached along at most [k] edges. *)
Fixpoint upstream (g : Graph) (k : nat) (n : string) : list string :=
  match k with
  | O => []
  | S k' =>
      getPredecessors g n ++ flat_map (upstream g k') (getPredecessors g n)
  end.

Fixpoint downstream (g : Graph) (k : nat) (n : string) : list string :=
  match k with
  | O => []
  | S k' =>
      getSuccessors g n ++ flat_map (downstream g k') (getSuccessors g n)
  end.

(** Modelled from the spec: [getParents] of the graph helpers, the
    ancestors, each once.  A chain without repetition has at most as many
    edges as the graph has nodes, so that many steps reach every ancestor. *)
Definition getParents (g : Graph) (n : string) : list string :=
  Js.uniq [] (upstream g (length (nodes g)) n).

(** Modelled from the spec: [getChildren] of the graph helpers, the
    descendants, each once. *)
Definition getChildren (g : Graph) (n : string) : list string :=
  Js.uniq [] (downstream g (length (nodes g)) n).

(** The catalog types of [@/types/tarkov], with the fields read here.  The
    station of a requirement is [None] when the requirement, its station or
    the station's id is missing. *)
Record StationLevelRequirement : Type := {
  station : option string;
  required : Z
}.

Record HideoutLevel : Type := {
  id : string;
  level : Z;
  constructionTime : Z;
  stationLevelRequirements : list StationLevelRequirement
}.

Record HideoutStation : Type := {
  station_id : string;
  levels : list HideoutLevel
}.

(** A module is a level ([...level]) with its station and its relations. *)
Record HideoutModule : Type := {
  of_level : HideoutLevel;
  stationId : string;
  predecessors : list string;
  successors : list string;
  parents : list string;
  children : list string
}.

(** The [console.warn] of a requirement that resolves to no level. *)
Record Warning : Type := {
  wanted_station : string;
  wanted_level : Z;
  needed_by : string
}.

(** The id of the required level: the first station with the referenced id,
    and in it the first level whose declared number is the required one. *)
Definition requiredLevelId (stations : list HideoutStation)
    (stationRef : string) (requirement : StationLevelRequirement)
    : option string :=
  requiredStation ← List.find (fun s => String.eqb (station_id s) stationRef) stations;
  requiredLevel ← List.find (fun l => (level l =? required requirement)%Z)
                    (levels requiredStation);
  if String.eqb (id requiredLevel) EmptyString then None
  else Some (id requiredLevel).

Definition addRequirement (stations : list HideoutStation) (lvl : HideoutLevel)
    (acc : Graph * list Warning) (requirement : StationLevelRequirement)
    : Graph * list Warning :=
  if Js.truthy_str (station requirement) then
    let stationRef := default EmptyString (station requirement) in
    match requiredLevelId stations stationRef requirement with
    | Some requiredId =>
        (safeAddEdge (safeAddNode acc.1 requiredId) requiredId (id lvl), acc.2)
    | None =>
        (acc.1,
         acc.2 ++ [{| wanted_station := stationRef;
                      wanted_level := required requirement;
                      needed_by := id lvl |}])
    end
  else acc.

Definition addLevel (stations : list HideoutStation)
    (acc : Graph * list Warning) (lvl : HideoutLevel) : Graph * list Warning :=
  fold_left (addRequirement stations lvl) (stationLevelRequirements lvl)
    (safeAddNode acc.1 (id lvl), acc.2).

Definition addStation (stations : list HideoutStation)
    (acc : Graph * list Warning) (s : HideoutStation) : Graph * list Warning :=
  fold_left (addLevel stations) (levels s) acc.

(** The graph, and the warnings written to the console on the way. *)
Definition buildHideoutGraph (stations : list HideoutStation)
    : Graph * list Warning :=
  fold_left (addStation stations) stations (createGraph, []).

Definition createHideoutModules (stations : list HideoutStation) (graph : Graph)
    : list HideoutModule :=
  flat_map
    (fun s =>
       List.map
         (fun lvl =>
            {| of_level := lvl;
               stationId := station_id s;
               predecessors := getPredecessors graph (id lvl);
               successors := getSuccessors graph (id lvl);
               parents := getParents graph (id lvl);
               children := getChildren graph (id lvl) |})
         (levels s))
    stations.

(** The state the composable holds once the query result has arrived. *)
Definition hideoutModules (stations : list HideoutStation) : list HideoutModule :=
  createHideoutModules stations (buildHideoutGraph stations).1.

Definition getModuleById (modules : list HideoutModule) (moduleId : string)
    : option HideoutModule :=
  List.find (fun m => String.eqb (id (of_level m)) moduleId) modules.


End Hideout.

(** ** The store and its migration *)

Module Store.

(** [JSON.parse(JSON.stringify(v))] on a plain state: properties holding
    [undefined] are dropped. *)
Fixpoint jsonClone (v : Js.value) : Js.value :=
  match v with
  | Js.Obj props =>
      Js.Obj
        ((fix clone (l : list (string * Js.value)) : list (string * Js.value) :=
            match l with
            | [] => []
            | (k, Js.Undefined) :: l' => clone l'
            | (k, x) :: l' => (k, jsonClone x) :: clone l'
            end) props)
  | _ => v
  end.

Inductive Effect : Type :=
| ConsoleLog (msg : string)
| Patch (partial : Js.value)
| SetDoc (collection document : string) (data : Js.value).

(** The check that opens [migrateDataIfNeeded]. *)
Definition needsMigration (this : Js.value) : bool :=
  negb (Js.truthy (Js.prop this "currentGameMode"))
  || negb (Js.truthy (Js.prop this "pvp"))
  || negb (Js.truthy (Js.prop this "pve"))
  || (match Js.prop this "level" with Js.Undefined => false | _ => true end
      && negb (Js.truthy (Js.prop (Js.prop this "pvp") "level"))).

Section Migration.

(** [migrateToGameModeStructure] of the shared state module and the store's
    [$patch] are defined elsewhere; [uid] is [fireuser.uid]. *)
Variable migrateToGameModeStructure : Js.value -> Js.value.
Variable patch : Js.value -> Js.value -> Js.value.
Variable uid : option string.

(** The state after the call and what the call did, in order. *)
Definition migrateDataIfNeeded (this : Js.value) : Js.value * list Effect :=
  if needsMigration this then
    let currentState := jsonClone this in
    let migratedData := migrateToGameModeStructure currentState in
    (patch this migratedData,
     [ConsoleLog "Migrating legacy data structure to gamemode-aware structure";
      Patch migratedData]
     ++ (if Js.truthy_str uid
         then [SetDoc "progress" (default EmptyString uid) migratedData]
         else []))
  else (this, []).

End Migration.

End Store.

(** ** Words for the statements about the handlers *)

Module Notions.

Import Js Firestore Handler.

(** Gluing the segments back with dots gives the path again, so a path is
    known by its segments. *)
Fixpoint glue (l : list string) : string :=
  match l with
  | [] => EmptyString
  | seg :: rest =>
      match rest with
      | [] => seg
      | _ :: _ => seg +:+ "." +:+ glue rest
      end
  end.

(** The field path [coll.taskId.leaf], as the template strings spell it. *)
Definition key (coll taskId leaf : string) : string :=
  coll +:+ "." +:+ taskId +:+ "." +:+ leaf.

Definition record_path (coll taskId : string) : list string :=
  segments coll ++ segments taskId.

(** The entry logged when the dependency update of a single task fails. *)
Definition dependency_failure (e ownerId taskId state : string) : LogEntry :=
  {| level := Err; message := "Error updating task dependencies:";
     context := [("error", Str e); ("userId", Str ownerId);
                 ("taskId", Str taskId); ("state", Str state)] |}.

(** The value [taskFields] assigns to a leaf of the task, if any. *)
Definition written (state leaf : string) (t : Z) : option FieldValue :=
  if String.eqb state "completed" then
    if String.eqb leaf "complete" then Some (FvBool true)
    else if String.eqb leaf "failed" then Some (FvBool false)
    else if String.eqb leaf "timestamp" then Some (FvNum t) else None
  else if String.eqb state "failed" then
    if String.eqb leaf "complete" then Some (FvBool true)
    else if String.eqb leaf "failed" then Some (FvBool true)
    else if String.eqb leaf "timestamp" then Some (FvNum t) else None
  else if String.eqb state "uncompleted" then
    if String.eqb leaf "complete" then Some (FvBool false)
    else if String.eqb leaf "failed" then Some (FvBool false)
    else if String.eqb leaf "timestamp" then Some FvDelete else None
  else None.

Definition fieldsOf (now : Z) (e : string * Js.value) : UpdateData :=
  taskFields (str_of e.2) e.1 now [].

Definition initialLoop : BatchLoop :=
  {| invalidStatusFound := false; batchUpdateData := [];
     updatePromises := []; warnings := [] |}.

Definition job (e : string * Js.value) : string * string := (e.1, str_of e.2).

Definition invalid_status_warning (ownerId : string) (e : string * Js.value)
    : LogEntry :=
  {| level := Warn; message := "Invalid status found in batch update";
     context := [("userId", Str ownerId); ("taskId", Str e.1);
                 ("status", e.2)] |}.

(** The store [committed] is [db] with the progress document of [ownerId]
    now reading [doc'], and nothing else touched. *)
Definition commits (db committed : Db) (ownerId : string) (doc' : Fields)
    : Prop :=
  progressDocs committed !! ownerId = Some doc'
  ∧ (∀ other, other ≠ ownerId →
       progressDocs committed !! other = progressDocs db !! other)
  ∧ systemDocs committed = systemDocs db
  ∧ userDocs committed = userDocs db
  ∧ teamDocs committed = teamDocs db.

Definition with_userDocs (db : Db) (u : gmap string UserDocData) : Db :=
  {| systemDocs := systemDocs db; userDocs := u; teamDocs := teamDocs db;
     progressDocs := progressDocs db |}.

End Notions.

(** ** Words for the statements about the hideout graph *)

Module HideoutNotions.

Import Hideout.

(** A requirement that names a station and resolves to the level [a]. *)
Definition resolves (stations : list HideoutStation)
    (r : StationLevelRequirement) (a : string) : Prop :=
  ∃ ref, station r = Some ref ∧ ref ≠ EmptyString
         ∧ requiredLevelId stations ref r = Some a.

(** A requirement of [lvl] that names a station and resolves to no level,
    with the warning it leaves. *)
Definition unresolved (stations : list HideoutStation) (lvl : HideoutLevel)
    (r : StationLevelRequirement) (w : Warning) : Prop :=
  ∃ ref, station r = Some ref ∧ ref ≠ EmptyString
         ∧ requiredLevelId stations ref r = None
         ∧ w = {| wanted_station := ref; wanted_level := required r;
                  needed_by := id lvl |}.



(** The level a requirement on the station [ref] designates: in the first
    station that carries the id, the first level that carries the required
    number, wherever in the list it stands. *)
Definition designates (stations : list HideoutStation) (ref : string)
    (r : StationLevelRequirement) (target : HideoutLevel) : Prop :=
  ∃ before s after below above,
    stations = before ++ s :: after
    ∧ (∀ s', s' ∈ before → station_id s' ≠ ref)
    ∧ station_id s = ref
    ∧ levels s = below ++ target :: above
    ∧ (∀ l, l ∈ below → level l ≠ required r)
    ∧ level target = required r.


End HideoutNotions.

(** ** Sample requests and stores *)

Module Samples.

Import Js Firestore Handler.

(** A request by [u1] on task [t1], and a store in which [t1] is failed. *)
Definition sample_request (state : string) : Request :=
  {| apiToken := Some {| owner := "u1"; permissions := ["GP"; "WP"] |};
     params := [("taskId", "t1")];
     body := Obj [("state", Str state)] |}.

Definition sample_doc : Fields :=
  [("level", VNum 12);
   ("taskCompletions",
    VMap [("t1", VMap [("complete", VBool true); ("failed", VBool true);
                       ("timestamp", VNum 1700)])])].

Definition sample_db : Db :=
  {| systemDocs := ∅; userDocs := ∅; teamDocs := ∅;
     progressDocs := {[ "u1" := sample_doc ]} |}.

(** The batch of the specification's example, sent by [u1]. *)
Definition rejected_batch : Request :=
  {| apiToken := Some {| owner := "u1"; permissions := ["WP"] |};
     params := [];
     body := Obj [("task1", Str "completed"); ("task5", Str "bogus")] |}.

(** A batch that passes the check and sets [t1] to failed. *)
Definition failed_batch : Request :=
  {| apiToken := Some {| owner := "u1"; permissions := ["WP"] |};
     params := [];
     body := Obj [("t0", Str "completed"); ("t1", Str "failed")] |}.

Definition empty_objective_request : Request :=
  {| apiToken := Some {| owner := "u1"; permissions := ["WP"] |};
     params := [("objectiveId", "obj1")];
     body := Obj [] |}.

Definition one_user_db : Db :=
  {| systemDocs := ∅; userDocs := ∅; teamDocs := ∅;
     progressDocs :=
       {[ "u1" := [("level", VNum 12); ("displayName", VStr "Nikita");
                   ("taskObjectives",
                    VMap [("obj1", VMap [("count", VNum 3)])])] ]} |}.

Definition level_request (levelValue : string) : Request :=
  {| apiToken := Some {| owner := "u1"; permissions := ["WP"] |};
     params := [("levelValue", levelValue)];
     body := Undefined |}.

(** A team of three in which the requester hides [bob]; [carol] has no
    progress document. *)
Definition team_db : Db :=
  {| systemDocs := {[ "alice" := {| team := Some "t1" |} ]};
     userDocs :=
       {[ "alice" :=
            {| teamHide :=
                 Some (<["bob" := true]> (<["alice" := true]>
                         (<["dave" := true]> ∅))) |} ]};
     teamDocs := {[ "t1" := {| members := Some ["alice"; "bob"; "carol"] |} ]};
     progressDocs :=
       <["alice" := [("level", VNum 10)]]>
         (<["bob" := [("level", VNum 20)]]> ∅) |}.

Definition team_request : Request :=
  {| apiToken := Some {| owner := "alice"; permissions := ["TP"] |};
     params := []; body := Undefined |}.

(** A migrated state that still carries the legacy top-level [level]. *)
Definition migrated_state : Js.value :=
  Obj [("currentGameMode", Str "pvp");
       ("gameEdition", Num 1);
       ("level", Num 10);
       ("pvp", Obj [("level", Num 10);
                    ("taskCompletions",
                     Obj [("t1", Obj [("complete", Bool true)])])]);
       ("pve", Obj [("level", Num 1); ("taskCompletions", Obj [])])].

End Samples.

(** ** Sample catalogs *)

Module HideoutSamples.

Import Hideout.

(** A catalog whose first station lists its levels out of order, and whose
    second station requires a level that exists, a station that does not,
    and a level that its station does not have. *)
Definition generator_2 : HideoutLevel :=
  {| id := "generator-2"; level := 2; constructionTime := 7200;
     stationLevelRequirements := [] |}.

Definition generator_1 : HideoutLevel :=
  {| id := "generator-1"; level := 1; constructionTime := 3600;
     stationLevelRequirements := [] |}.

Definition needs_generator_1 : StationLevelRequirement :=
  {| station := Some "generator"; required := 1 |}.

Definition needs_unknown_station : StationLevelRequirement :=
  {| station := Some "sauna"; required := 1 |}.

Definition needs_generator_7 : StationLevelRequirement :=
  {| station := Some "generator"; required := 7 |}.

Definition heating_1 : HideoutLevel :=
  {| id := "heating-1"; level := 1; constructionTime := 1800;
     stationLevelRequirements :=
       [needs_generator_1; needs_unknown_station; needs_generator_7] |}.

Definition generator : HideoutStation :=
  {| station_id := "generator"; levels := [generator_2; generator_1] |}.

Definition heating : HideoutStation :=
  {| station_id := "heating"; levels := [heating_1] |}.

Definition sample_catalog : list HideoutStation := [generator; heating].



End HideoutSamples.

(** ** Player progress *)

Module Player.

Import Handler.

Record PlayerProgress (F : Type) : Type := {
  data : F;
  self : string
}.
Arguments data {F} p.
Arguments self {F} p.

Section Player.

Context {TaskData HideoutData FormattedProgress : Type}.

Variable getTaskData : string + option TaskData.
Variable getHideoutData : string + option HideoutData.

(** Here [formatProgress] is handed [progressDoc.data()], which is undefined
    when the document does not exist. *)
Variable formatProgress :
  option Firestore.Fields -> string -> HideoutData -> TaskData ->
  FormattedProgress.

Definition getPlayerProgress (req : Request) (db : Db)
    : Result (PlayerProgress FormattedProgress) :=
  match authorized req "GP" with
  | Some ownerId =>
      let progressDoc := progressDocs db !! ownerId in
      match getHideoutData, getTaskData with
      | inr (Some hideoutData), inr (Some taskData) =>
          respond 200
            (Json {| data := formatProgress progressDoc ownerId hideoutData
                               taskData;
                     self := ownerId |})
            db
            (match progressDoc with
             | Some _ => []
             | None =>
                 [{| level := Warn;
                     message := "Progress document not found for user "
                                +:+ ownerId;
                     context := [] |}]
             end)
      | inr hideoutData, inr taskData =>
          respond 500 (Error "Failed to load essential game data.") db
            [{| level := Err;
                message := "Failed to load essential Tarkov data (tasks or hideout)";
                context := [("userId", Js.Str ownerId);
                            ("hideoutLoaded",
                             Js.Bool (bool_decide (is_Some hideoutData)));
                            ("tasksLoaded",
                             Js.Bool (bool_decide (is_Some taskData)))] |}]
      | inl e, _ | _, inl e =>
          respond 500 (Error "Failed to retrieve player progress.") db
            [{| level := Err; message := "Error fetching player progress:";
                context := [("error", Js.Str e); ("userId", Js.Str ownerId)] |}]
      end
  | None => unauthorized db
  end.

End Player.

End Player.

(** ** Looking things up in the hideout data *)

Module HideoutQueries.

Import Hideout.

(** The result of [Math.max]: a number, or minus infinity when it is given
    nothing. *)
Inductive Number : Type :=
| NegInfinity
| Finite (z : Z).

Definition mathMax (l : list Z) : Number :=
  fold_left
    (fun acc z =>
       match acc with
       | NegInfinity => Finite z
       | Finite a => Finite (Z.max a z)
       end)
    l NegInfinity.

Definition getStationById (hideoutStations : list HideoutStation)
    (stationId : string) : option HideoutStation :=
  List.find (fun s => String.eqb (station_id s) stationId) hideoutStations.

(** The objects these tables are built in are used as dictionaries; their
    keys are taken not to be names of [Object.prototype]. *)
Definition modulesByStation (hideoutModules : list HideoutModule)
    : gmap string (list HideoutModule) :=
  fold_left
    (fun moduleMap m =>
       <[stationId m := default [] (moduleMap !! stationId m) ++ [m]]> moduleMap)
    hideoutModules ∅.

Definition maxStationLevels (hideoutStations : list HideoutStation)
    : gmap string Number :=
  fold_left
    (fun maxLevels s =>
       <[station_id s := mathMax (List.map level (levels s))]> maxLevels)
    hideoutStations ∅.

Definition getModulesByStation (hideoutModules : list HideoutModule)
    (stationId : string) : list HideoutModule :=
  default [] (modulesByStation hideoutModules !! stationId).

(** [maxStationLevels.value[stationId] || 0] *)
Definition getMaxStationLevel (hideoutStations : list HideoutStation)
    (stationId : string) : Number :=
  match maxStationLevels hideoutStations !! stationId with
  | Some (Finite z) => if (z =? 0)%Z then Finite 0 else Finite z
  | Some NegInfinity => NegInfinity
  | None => Finite 0
  end.

Definition isPrerequisiteFor (hideoutModules : list HideoutModule)
    (moduleId targetModuleId : string) : bool :=
  match getModuleById hideoutModules targetModuleId with
  | Some targetModule => bool_decide (moduleId ∈ predecessors targetModule)
  | None => false
  end.

(** An item requirement of a level; its item is [None] when the
    requirement or its item is missing. *)
Record Item : Type := { item_id : string }.

Record ItemRequirement : Type := {
  requirement_id : string;
  item : option Item;
  count : Z;
  foundInRaid : bool
}.

Record NeededItemHideoutModule : Type := {
  needed_id : string;
  needType : string;
  hideoutModule : HideoutModule;
  needed_item : Item;
  needed_count : Z;
  needed_foundInRaid : bool
}.

Section Fields.

(** The fields of a station and of a level that the graph does not need:
    [station.name], [station.normalizedName] and [level.itemRequirements]. *)
Variable name : HideoutStation -> string.
Variable normalizedName : HideoutStation -> option string.
Variable itemRequirements : HideoutLevel -> list ItemRequirement.

Definition stationsByName (hideoutStations : list HideoutStation)
    : gmap string HideoutStation :=
  fold_left
    (fun stationMap s =>
       let stationMap := <[name s := s]> stationMap in
       if Js.truthy_str (normalizedName s)
       then <[default EmptyString (normalizedName s) := s]> stationMap
       else stationMap)
    hideoutStations ∅.

Definition getStationByName (hideoutStations : list HideoutStation)
    (n : string) : option HideoutStation :=
  stationsByName hideoutStations !! n.

Definition neededItem (m : HideoutModule) (req : ItemRequirement)
    : option NeededItemHideoutModule :=
  match item req with
  | Some it =>
      if negb (String.eqb (item_id it) EmptyString) then
        Some {| needed_id := requirement_id req;
                needType := "hideoutModule";
                hideoutModule := m;
                needed_item := it;
                needed_count := count req;
                needed_foundInRaid := foundInRaid req |}
      else None
  | None => None
  end.

Definition extractItemRequirements (modules : list HideoutModule)
    : list NeededItemHideoutModule :=
  flat_map (fun m => omap (neededItem m) (itemRequirements (of_level m)))
    modules.

End Fields.

Definition getItemsForModule
    (neededItemHideoutModules : list NeededItemHideoutModule)
    (moduleId : string) : list NeededItemHideoutModule :=
  List.filter
    (fun it => String.eqb (id (of_level (hideoutModule it))) moduleId)
    neededItemHideoutModules.

Definition getModulesRequiringItem
    (neededItemHideoutModules : list NeededItemHideoutModule)
    (itemId : string) : list NeededItemHideoutModule :=
  List.filter (fun it => String.eqb (item_id (needed_item it)) itemId)
    neededItemHideoutModules.

End HideoutQueries.

(** ** Privacy consent *)

Module Consent.

Inductive ConsentStatus : Type := accepted | rejected | unknown.

Definition status_string (s : ConsentStatus) : string :=
  match s with
  | accepted => "accepted"
  | rejected => "rejected"
  | unknown => "unknown"
  end.

(** What the page offers at the time of a call: whether there is a window
    and a document, whether reading [window.localStorage] and each of its
    operations throws, whether enabling analytics rejects, and the Clarity
    project id of the build, if any. *)
Record Env : Type := {
  hasWindow : bool;
  hasDocument : bool;
  localStorageThrows : bool;
  getItemThrows : bool;
  setItemThrows : bool;
  removeItemThrows : bool;
  enableAnalyticsRejects : bool;
  clarityProjectId : option string
}.

(** The module's variables, the item kept under the storage key and
    whether [window.clarity] is a function. *)
Record State : Type := {
  consentStatus : ConsentStatus;
  bannerVisible : bool;
  hasInitialized : bool;
  clarityBootstrapped : bool;
  clarityIsFunction : bool;
  stored : option string
}.

Inductive Effect : Type :=
| LoggerWarn (msg : string)
| LoggerError (msg : string)
| EnableAnalyticsCollection
| DisableAnalyticsCollection
| ClarityConsent (granted : bool)
| InsertScript (src : string).

Definition STORAGE_KEY : string := "tt-analytics-consent".

Definition CLARITY_PROJECT_ID (env : Env) : string :=
  if Js.truthy_str (clarityProjectId env)
  then default EmptyString (clarityProjectId env)
  else "qw2qze9js7".

(** Whether a storage is returned, and the warning when it is not. *)
Definition getStorage (env : Env) : bool * list Effect :=
  if negb (hasWindow env) then (false, [])
  else if localStorageThrows env then
    (false,
     [LoggerWarn "Unable to access localStorage for consent management:"])
  else (true, []).

Definition bootstrapClarity (env : Env) (st : State) : State * list Effect :=
  if clarityBootstrapped st || negb (hasWindow env) || negb (hasDocument env)
  then (st, [])
  else
    ({| consentStatus := consentStatus st;
        bannerVisible := bannerVisible st;
        hasInitialized := hasInitialized st;
        clarityBootstrapped := true;
        clarityIsFunction := true;
        stored := stored st |},
     [InsertScript ("https://www.clarity.ms/tag/" +:+ CLARITY_PROJECT_ID env)]).

Definition enableClarity (env : Env) (st : State) : State * list Effect :=
  if negb (hasWindow env) then (st, [])
  else
    let '(st', e) := bootstrapClarity env st in
    (st', e ++ if clarityIsFunction st' then [ClarityConsent true] else []).

Definition disableClarity (env : Env) (st : State) : State * list Effect :=
  if negb (hasWindow env) then (st, [])
  else (st, if clarityIsFunction st then [ClarityConsent false] else []).

(** The rejection of [enableAnalyticsCollection] is caught and logged once
    the call has returned. *)
Definition syncAnalyticsWithConsent (env : Env) (status : ConsentStatus)
    (st : State) : State * list Effect :=
  match status with
  | accepted =>
      let '(st', e) := enableClarity env st in
      (st',
       [EnableAnalyticsCollection] ++ e
       ++ if enableAnalyticsRejects env
          then [LoggerError "Unable to enable analytics collection:"]
          else [])
  | rejected =>
      let '(st', e) := disableClarity env st in
      (st', [DisableAnalyticsCollection] ++ e)
  | unknown => (st, [])
  end.

Definition readStoredConsent (env : Env) (storage : bool) (st : State)
    : option string * list Effect :=
  if negb storage then (None, [])
  else if getItemThrows env then
    (None, [LoggerWarn "Unable to read stored analytics consent:"])
  else (stored st, []).

Definition with_stored (st : State) (item : option string) : State :=
  {| consentStatus := consentStatus st;
     bannerVisible := bannerVisible st;
     hasInitialized := hasInitialized st;
     clarityBootstrapped := clarityBootstrapped st;
     clarityIsFunction := clarityIsFunction st;
     stored := item |}.

Definition persistConsent (env : Env) (storage : bool)
    (status : ConsentStatus) (st : State) : State * list Effect :=
  if negb storage then (st, [])
  else if setItemThrows env then
    (st, [LoggerWarn "Unable to persist analytics consent:"])
  else (with_stored st (Some (status_string status)), []).

Definition clearStoredConsent (env : Env) (storage : bool) (st : State)
    : State * list Effect :=
  if negb storage then (st, [])
  else if removeItemThrows env then
    (st, [LoggerWarn "Unable to clear analytics consent:"])
  else (with_stored st None, []).

Definition with_choice (st : State) (status : ConsentStatus) (banner init : bool)
    : State :=
  {| consentStatus := status;
     bannerVisible := banner;
     hasInitialized := init;
     clarityBootstrapped := clarityBootstrapped st;
     clarityIsFunction := clarityIsFunction st;
     stored := stored st |}.

Definition stored_choice (item : option string) : option ConsentStatus :=
  match item with
  | Some s =>
      if String.eqb s "accepted" then Some accepted
      else if String.eqb s "rejected" then Some rejected
      else None
  | None => None
  end.

Definition initializeConsent (env : Env) (st : State) : State * list Effect :=
  if hasInitialized st then (st, [])
  else
    let '(storage, e1) := getStorage env in
    let '(item, e2) := readStoredConsent env storage st in
    match stored_choice item with
    | Some status =>
        let '(st', e3) :=
          syncAnalyticsWithConsent env status
            (with_choice st status (bannerVisible st) true) in
        (with_choice st' status false true, e1 ++ e2 ++ e3)
    | None => (with_choice st unknown true true, e1 ++ e2)
    end.

Definition setConsent (env : Env) (status : ConsentStatus) (st : State)
    : State * list Effect :=
  let st := with_choice st status (bannerVisible st) (hasInitialized st) in
  let '(storage, e1) := getStorage env in
  let '(st, e2) := persistConsent env storage status st in
  let st := with_choice st status false (hasInitialized st) in
  let '(st, e3) := syncAnalyticsWithConsent env status st in
  (st, e1 ++ e2 ++ e3).

Definition openPreferences (st : State) : State :=
  with_choice st (consentStatus st) true (hasInitialized st).

Definition resetConsent (env : Env) (st : State) : State * list Effect :=
  let st := with_choice st unknown (bannerVisible st) (hasInitialized st) in
  let '(storage, e1) := getStorage env in
  let '(st, e2) := clearStoredConsent env storage st in
  let st := with_choice st unknown true (hasInitialized st) in
  let '(st, e3) := disableClarity env st in
  (st, e1 ++ e2 ++ [DisableAnalyticsCollection] ++ e3).

Definition consentGiven (st : State) : bool :=
  match consentStatus st with accepted => true | _ => false end.

Definition choiceRecorded (st : State) : bool :=
  match consentStatus st with unknown => false | _ => true end.

(** The calls the composable hands out. *)
Inductive Call : Type :=
| InitializeConsent
| Accept
| Reject
| OpenPreferences
| ResetConsent.

Definition call (env : Env) (c : Call) (st : State) : State * list Effect :=
  match c with
  | InitializeConsent => initializeConsent env st
  | Accept => setConsent env accepted st
  | Reject => setConsent env rejected st
  | OpenPreferences => (openPreferences st, [])
  | ResetConsent => resetConsent env st
  end.

(** A page's life: calls one after the other, each in the page as it is at
    that time. *)
Fixpoint run (calls : list (Env * Call)) (st : State) : State * list Effect :=
  match calls with
  | [] => (st, [])
  | (env, c) :: rest =>
      let '(st1, e1) := call env c st in
      let '(st2, e2) := run rest st1 in
      (st2, e1 ++ e2)
  end.

(** The module as a page load leaves it, over what the storage holds. *)
Definition loaded (item : option string) : State :=
  {| consentStatus := unknown;
     bannerVisible := false;
     hasInitialized := false;
     clarityBootstrapped := false;
     clarityIsFunction := false;
     stored := item |}.

(** The effects that start or feed the collection of analytics. *)
Definition collects (e : Effect) : bool :=
  match e with
  | EnableAnalyticsCollection | ClarityConsent true | InsertScript _ => true
  | _ => false
  end.

Definition inserts_script (e : Effect) : bool :=
  match e with InsertScript _ => true | _ => false end.

(** A page in which the storage can be reached, read and written. *)
Definition storage_works (env : Env) : bool :=
  hasWindow env && negb (localStorageThrows env) && negb (getItemThrows env)
  && negb (setItemThrows env) && negb (removeItemThrows env).

End Consent.

Module ConsentSamples.

Import Consent.

(** A page with a window, a document and a storage that works. *)
Definition working_page : Env :=
  {| hasWindow := true; hasDocument := true; localStorageThrows := false;
     getItemThrows := false; setItemThrows := false;
     removeItemThrows := false; enableAnalyticsRejects := false;
     clarityProjectId := None |}.

(** A visit: the module is initialised, the visitor accepts, thinks again
    and resets, then rejects and accepts once more. *)
Definition visit : list (Env * Call) :=
  [(working_page, InitializeConsent); (working_page, Accept);
   (working_page, ResetConsent); (working_page, Reject);
   (working_page, Accept)].

End ConsentSamples.

(** ** Words for further statements *)

Module MoreNotions.

Import Js Firestore Handler Notions.


(** What a field reads as once a field value has been written to it. *)
Definition stored (v : FieldValue) : option Value :=
  match v with
  | FvBool b => Some (VBool b)
  | FvNum n => Some (VNum n)
  | FvDelete => None
  end.

End MoreNotions.

Module MoreSamples.

Import Js Firestore Handler.

Definition empty_db : Db :=
  {| systemDocs := ∅; userDocs := ∅; teamDocs := ∅; progressDocs := ∅ |}.


Definition objective_request (body : Js.value) : Request :=
  {| apiToken := Some {| owner := "u1"; permissions := ["WP"] |};
     params := [("objectiveId", "obj1")];
     body := body |}.

Definition solo_request : Request :=
  {| apiToken := Some {| owner := "u1"; permissions := ["GP"; "TP"] |};
     params := []; body := Undefined |}.

(** The dependency update that has nothing to do. *)
Definition no_dependents (taskId state userId : string)
    (taskData : option unit) (db : Db) : Db * option string :=
  (db, None).

End MoreSamples.

(** * Properties *)

(** ** Dictionaries and field paths *)

Module StoreFacts.

Import Js Firestore Notions.

Lemma eqb_refl_true (k : string) : String.eqb k k = true.
Proof. apply String.eqb_refl. Qed.

Lemma eqb_false (k k' : string) : k ≠ k' → String.eqb k k' = false.
Proof. intros H. by apply String.eqb_neq. Qed.

Section Assoc.

Context {A : Type}.
Implicit Types (l : list (string * A)) (k : string) (a : A).

Lemma assoc_assign_eq k a l : assoc k (assign k a l) = Some a.
Proof.
  induction l as [|[k' a'] l IH]; simpl.
  - by rewrite eqb_refl_true.
  - destruct (String.eqb k k') eqn:E; simpl.
    + by rewrite eqb_refl_true.
    + by rewrite E.
Qed.

Lemma assoc_assign_ne k k' a l : k ≠ k' → assoc k' (assign k a l) = assoc k' l.
Proof.
  intros Hne. induction l as [|[k0 a0] l IH]; simpl.
  - rewrite eqb_false; [done | congruence].
  - destruct (String.eqb k k0) eqn:E; simpl.
    + apply String.eqb_eq in E as <-.
      rewrite (eqb_false k' k) by congruence. done.
    + by rewrite IH.
Qed.

Lemma assoc_remove_eq k l : assoc k (remove k l) = None.
Proof.
  induction l as [|[k' a'] l IH]; simpl; [done |].
  destruct (String.eqb k k') eqn:E; simpl; [done |]. by rewrite E.
Qed.

Lemma assoc_remove_ne k k' l : k ≠ k' → assoc k' (remove k l) = assoc k' l.
Proof.
  intros Hne. induction l as [|[k0 a0] l IH]; simpl; [done |].
  destruct (String.eqb k k0) eqn:E; simpl.
  - apply String.eqb_eq in E as <-. rewrite eqb_false; [done | congruence].
  - by rewrite IH.
Qed.

(** Assigning to a key that is not there appends the entry. *)
Lemma assign_fresh k a l : assoc k l = None → assign k a l = l ++ [(k, a)].
Proof.
  induction l as [|[k' a'] l IH]; simpl; [done |].
  destruct (String.eqb k k'); [done |]. intros H. by rewrite IH.
Qed.

Lemma assoc_app_fresh k l l' : assoc k l = None → assoc k (l ++ l') = assoc k l'.
Proof.
  induction l as [|[k' a'] l IH]; simpl; [done |].
  destruct (String.eqb k k'); [done | exact IH].
Qed.

End Assoc.

(** *** Cutting a path at its dots *)

Lemma segments_nonempty s : segments s ≠ [].
Proof.
  destruct s as [|c s]; simpl; [done |].
  destruct (Ascii.eqb c "."); [done |]. by destruct (segments s).
Qed.

Lemma segments_app s t : segments (s +:+ "." +:+ t) = segments s ++ segments t.
Proof.
  induction s as [|c s IH]; simpl; [done |].
  destruct (Ascii.eqb c "."); rewrite IH; [done |].
  destruct (segments s) eqn:E; [by apply segments_nonempty in E | done].
Qed.

Lemma glue_cons c seg rest :
  glue (String c seg :: rest) = String c (glue (seg :: rest)).
Proof. by destruct rest. Qed.

Lemma glue_segments s : glue (segments s) = s.
Proof.
  induction s as [|c s IH]; [done |]. cbn [segments].
  destruct (Ascii.eqb c ".") eqn:E.
  - apply Ascii.eqb_eq in E as ->.
    destruct (segments s) eqn:Es; [by apply segments_nonempty in Es |].
    cbn [glue] in *. by rewrite IH.
  - destruct (segments s) eqn:Es; [by apply segments_nonempty in Es |].
    by rewrite glue_cons, IH.
Qed.

Lemma segments_inj s t : segments s = segments t → s = t.
Proof.
  intros H. by rewrite <- (glue_segments s), <- (glue_segments t), H.
Qed.

(** The three field paths of a task share the path of its record. *)
Lemma segments_field (coll taskId leaf : string) :
  segments (coll +:+ "." +:+ taskId +:+ "." +:+ leaf)
  = segments coll ++ segments taskId ++ segments leaf.
Proof. by rewrite !segments_app. Qed.

(** *** Reading after writing *)

Lemma get_sub (p : list string) (o : option Value) :
  p ≠ [] →
  get p (VMap (sub o)) = match o with Some v => get p v | None => None end.
Proof.
  intros Hp. destruct p as [|k p]; [done |].
  destruct o as [[]|]; done.
Qed.

Lemma set_cons k p v fs :
  p ≠ [] → set (k :: p) v fs = assign k (VMap (set p v (sub (assoc k fs)))) fs.
Proof. by destruct p. Qed.

Lemma get_set_eq (p : list string) v fs :
  p ≠ [] → get p (VMap (set p v fs)) = Some v.
Proof.
  revert fs. induction p as [|k p IH]; intros fs Hp; [done |].
  destruct p as [|k' p].
  - simpl. by rewrite assoc_assign_eq.
  - rewrite set_cons by done. cbn [get]. rewrite assoc_assign_eq.
    by apply IH.
Qed.

(** A write leaves alone whatever lies off its path. *)
Lemma get_set_off (pre : list string) a b p q v fs :
  a ≠ b →
  get (pre ++ b :: q) (VMap (set (pre ++ a :: p) v fs))
  = get (pre ++ b :: q) (VMap fs).
Proof.
  intros Hab. revert fs. induction pre as [|k pre IH]; intros fs.
  - cbn [app get]. destruct p as [|k' p].
    + simpl. by rewrite assoc_assign_ne.
    + rewrite set_cons by done. by rewrite assoc_assign_ne.
  - rewrite <- !app_comm_cons. rewrite set_cons by (by destruct pre).
    cbn [get]. rewrite assoc_assign_eq, IH.
    rewrite get_sub by (by destruct pre). done.
Qed.

Lemma delete_cons k p fs :
  p ≠ [] →
  delete (k :: p) fs
  = match assoc k fs with
    | Some (VMap fs') => assign k (VMap (delete p fs')) fs
    | _ => fs
    end.
Proof. by destruct p. Qed.

Lemma get_delete_eq (p : list string) fs :
  p ≠ [] → get p (VMap (delete p fs)) = None.
Proof.
  revert fs. induction p as [|k p IH]; intros fs Hp; [done |].
  destruct p as [|k' p].
  - simpl. by rewrite assoc_remove_eq.
  - rewrite delete_cons by done. cbn [get].
    destruct (assoc k fs) as [[]|] eqn:E; rewrite ?E; try done.
    rewrite assoc_assign_eq. by apply IH.
Qed.

Lemma get_delete_off (pre : list string) a b p q fs :
  a ≠ b →
  get (pre ++ b :: q) (VMap (delete (pre ++ a :: p) fs))
  = get (pre ++ b :: q) (VMap fs).
Proof.
  intros Hab. revert fs. induction pre as [|k pre IH]; intros fs.
  - cbn [app get]. destruct p as [|k' p].
    + simpl. by rewrite assoc_remove_ne.
    + rewrite delete_cons by done.
      destruct (assoc a fs) as [[]|]; try done. by rewrite assoc_assign_ne.
  - rewrite <- !app_comm_cons. rewrite delete_cons by (by destruct pre).
    cbn [get]. destruct (assoc k fs) as [[]|] eqn:E; rewrite ?E; try done.
    rewrite assoc_assign_eq. apply IH.
Qed.

End StoreFacts.

(** ** Task updates *)

Module TaskFacts.

Import Js Firestore Handler Notions Samples StoreFacts.

Lemma segments_key coll taskId leaf :
  segments leaf = [leaf] →
  segments (key coll taskId leaf) = record_path coll taskId ++ [leaf].
Proof.
  intros Hleaf. unfold key, record_path.
  by rewrite segments_field, Hleaf, app_assoc.
Qed.

Lemma key_leaf_inj coll taskId leaf leaf' :
  segments leaf = [leaf] → segments leaf' = [leaf'] →
  key coll taskId leaf = key coll taskId leaf' → leaf = leaf'.
Proof.
  intros H H' Heq. apply (f_equal segments) in Heq.
  rewrite !segments_key in Heq by done.
  by apply app_inj_tail in Heq as [_ ?].
Qed.

Lemma key_eqb_leaf coll taskId leaf leaf' :
  segments leaf = [leaf] → segments leaf' = [leaf'] → leaf ≠ leaf' →
  String.eqb (key coll taskId leaf) (key coll taskId leaf') = false.
Proof.
  intros H H' Hne. apply String.eqb_neq. intros Heq.
  by apply key_leaf_inj in Heq.
Qed.

Lemma key_inj coll taskId taskId' leaf leaf' :
  segments leaf = [leaf] → segments leaf' = [leaf'] →
  key coll taskId leaf = key coll taskId' leaf' → taskId = taskId' ∧ leaf = leaf'.
Proof.
  intros H H' Heq. apply (f_equal segments) in Heq.
  rewrite !segments_key in Heq by done.
  apply app_inj_tail in Heq as [Hpre ?]. split; [| done].
  unfold record_path in Hpre. apply app_inv_head in Hpre.
  by apply segments_inj.
Qed.

Ltac leaf_eqb :=
  repeat match goal with
    | |- context [String.eqb (key ?c ?t ?l) (key ?c ?t ?l')] =>
        rewrite (key_eqb_leaf c t l l' eq_refl eq_refl) by discriminate
    end.

Ltac task_keys taskId :=
  unfold taskFields; cbn [String.eqb Ascii.eqb Bool.eqb];
  change ("taskCompletions." +:+ taskId +:+ ".complete")
    with (key "taskCompletions" taskId "complete");
  change ("taskCompletions." +:+ taskId +:+ ".failed")
    with (key "taskCompletions" taskId "failed");
  change ("taskCompletions." +:+ taskId +:+ ".timestamp")
    with (key "taskCompletions" taskId "timestamp").

(** What is written for each of the three states. *)
Lemma taskFields_completed taskId t :
  taskFields "completed" taskId t []
  = [(key "taskCompletions" taskId "complete", FvBool true);
     (key "taskCompletions" taskId "failed", FvBool false);
     (key "taskCompletions" taskId "timestamp", FvNum t)].
Proof.
  task_keys taskId. cbn [assign]. leaf_eqb. cbn [assign]. by leaf_eqb.
Qed.

Lemma taskFields_failed taskId t :
  taskFields "failed" taskId t []
  = [(key "taskCompletions" taskId "complete", FvBool true);
     (key "taskCompletions" taskId "failed", FvBool true);
     (key "taskCompletions" taskId "timestamp", FvNum t)].
Proof.
  task_keys taskId. cbn [assign]. leaf_eqb. cbn [assign]. by leaf_eqb.
Qed.

Lemma taskFields_uncompleted taskId t :
  taskFields "uncompleted" taskId t []
  = [(key "taskCompletions" taskId "complete", FvBool false);
     (key "taskCompletions" taskId "failed", FvBool false);
     (key "taskCompletions" taskId "timestamp", FvDelete)].
Proof.
  task_keys taskId. cbn [assign]. leaf_eqb. cbn [assign]. by leaf_eqb.
Qed.

(** Failed, then uncompleted: the record of [t1] in the sample document. *)
Example uncompleted_after_failed :
  segments "taskCompletions.t1.timestamp" = ["taskCompletions"; "t1"; "timestamp"]
  ∧ Firestore.update (taskFields "uncompleted" "t1" 1800 []) (Some sample_doc)
    = Some [("level", VNum 12);
            ("taskCompletions",
             VMap [("t1", VMap [("complete", VBool false);
                                ("failed", VBool false)])])].
Proof. split; reflexivity. Qed.

Lemma valid_status_cases s :
  isValidTaskStatus (Str s) = true →
  s = "uncompleted" ∨ s = "completed" ∨ s = "failed".
Proof.
  unfold isValidTaskStatus. rewrite !orb_true_iff, !String.eqb_eq. tauto.
Qed.

(** The record of a task once its fields have been written. *)
Lemma update_uncompleted taskId t doc :
  let doc' := fold_left Firestore.apply (taskFields "uncompleted" taskId t []) doc in
  field doc' (key "taskCompletions" taskId "complete") = Some (VBool false)
  ∧ field doc' (key "taskCompletions" taskId "failed") = Some (VBool false)
  ∧ field doc' (key "taskCompletions" taskId "timestamp") = None.
Proof.
  rewrite taskFields_uncompleted. cbn [fold_left Firestore.apply fst snd].
  unfold field. rewrite !segments_key by done.
  set (pre := record_path "taskCompletions" taskId).
  repeat split.
  - rewrite (get_delete_off pre "timestamp" "complete" [] []) by done.
    rewrite (get_set_off pre "failed" "complete" [] []) by done.
    apply get_set_eq. by destruct pre.
  - rewrite (get_delete_off pre "timestamp" "failed" [] []) by done.
    apply get_set_eq. by destruct pre.
  - apply get_delete_eq. by destruct pre.
Qed.

Lemma update_stamped state flag taskId t doc :
  taskFields state taskId t []
  = [(key "taskCompletions" taskId "complete", FvBool true);
     (key "taskCompletions" taskId "failed", FvBool flag);
     (key "taskCompletions" taskId "timestamp", FvNum t)] →
  let doc' := fold_left Firestore.apply (taskFields state taskId t []) doc in
  field doc' (key "taskCompletions" taskId "complete") = Some (VBool true)
  ∧ field doc' (key "taskCompletions" taskId "failed") = Some (VBool flag)
  ∧ field doc' (key "taskCompletions" taskId "timestamp") = Some (VNum t).
Proof.
  intros ->. cbn [fold_left Firestore.apply fst snd].
  unfold field. rewrite !segments_key by done.
  set (pre := record_path "taskCompletions" taskId).
  repeat split.
  - rewrite (get_set_off pre "timestamp" "complete" [] []) by done.
    rewrite (get_set_off pre "failed" "complete" [] []) by done.
    apply get_set_eq. by destruct pre.
  - rewrite (get_set_off pre "timestamp" "failed" [] []) by done.
    apply get_set_eq. by destruct pre.
  - apply get_set_eq. by destruct pre.
Qed.

Lemma primaryWrite_exists now state taskId ownerId db doc :
  progressDocs db !! ownerId = Some doc →
  primaryWrite now state taskId ownerId db
  = Some (with_progress db ownerId
            (fold_left Firestore.apply (taskFields state taskId now []) doc)).
Proof. intros H. unfold primaryWrite. by rewrite H. Qed.

(** The handler on a request that passes its checks. *)
Lemma updateSingleTask_checked {TaskData : Type} now
    (getTaskData : string + option TaskData) updateTaskState storeError
    req db ownerId s :
  authorized req "WP" = Some ownerId →
  String.eqb (param req "taskId") EmptyString = false →
  Js.prop (body req) "state" = Str s →
  isValidTaskStatus (Str s) = true →
  updateSingleTask now getTaskData updateTaskState storeError req db
  = match primaryWrite now s (param req "taskId") ownerId db with
    | Some committed =>
        let '(db', l) :=
          dependencyUpdate getTaskData updateTaskState
            "Error updating task dependencies:" "state"
            (param req "taskId") s ownerId committed in
        respond 200 (Message "Task updated successfully.") db' l
    | None =>
        respond 500 (Error "Failed to update task.") db
          [{| level := Err; message := "Error updating single task:";
              context := [("error", Str storeError); ("userId", Str ownerId);
                          ("taskId", Str (param req "taskId"));
                          ("state", Str s)] |}]
    end.
Proof.
  intros Hauth Hid Hstate Hvalid. unfold updateSingleTask.
  rewrite Hauth, Hid, Hstate, Hvalid. done.
Qed.

(** *** The committed store *)

Lemma with_progress_commits db ownerId doc' :
  commits db (with_progress db ownerId doc') ownerId doc'.
Proof.
  unfold commits, with_progress. cbn. split; [apply lookup_insert_eq |].
  split; [| done]. intros other Hne. by apply lookup_insert_ne.
Qed.

Lemma accepted_path_nonempty path :
  accepted_path path = true → String.eqb path EmptyString = false.
Proof. by destruct path. Qed.

(** C4. A valid single-task update on a task id the store takes, by a
    requester whose progress document exists, is answered 200 and commits
    a store in which that document, and nothing else, has changed.
    Whatever the stored record of the task was (failed included), for
    [uncompleted] the committed record reads [complete] false and [failed]
    false and has no [timestamp] field at all; for [completed] and
    [failed] it has the time of the request in [timestamp].  The committed
    store is the one the dependency update starts from, and the store the
    handler leaves when that update cannot run.  Without a progress
    document the answer is 500 and nothing is written. *)
Theorem updateSingleTask_timestamp {TaskData : Type} (now : Z)
    (getTaskData : string + option TaskData) updateTaskState storeError
    (req : Request) (db : Db) (ownerId s : string) :
  authorized req "WP" = Some ownerId →
  accepted_path (param req "taskId") = true →
  Js.prop (body req) "state" = Str s →
  isValidTaskStatus (Str s) = true →
  let taskId := param req "taskId" in
  let r := updateSingleTask now getTaskData updateTaskState storeError req db in
  match progressDocs db !! ownerId with
  | None => status r = 500%Z ∧ db_after r = db
  | Some doc =>
      ∃ (committed : Db) (doc' : Fields),
        commits db committed ownerId doc'
        ∧ r = (let '(db', l) :=
                 dependencyUpdate getTaskData updateTaskState
                   "Error updating task dependencies:" "state" taskId s
                   ownerId committed in
               respond 200 (Message "Task updated successfully.") db' l)
        ∧ (∀ e, getTaskData = inl e → db_after r = committed)
        ∧ (s = "uncompleted" →
           field doc' ("taskCompletions." +:+ taskId +:+ ".complete")
             = Some (VBool false)
           ∧ field doc' ("taskCompletions." +:+ taskId +:+ ".failed")
             = Some (VBool false)
           ∧ field doc' ("taskCompletions." +:+ taskId +:+ ".timestamp")
             = None)
        ∧ (s = "completed" ∨ s = "failed" →
           field doc' ("taskCompletions." +:+ taskId +:+ ".timestamp")
             = Some (VNum now))
  end.
Proof.
  intros Hauth Hid%accepted_path_nonempty Hstate Hvalid. cbv zeta.
  rewrite (updateSingleTask_checked _ _ _ _ _ _ ownerId s) by done.
  destruct (progressDocs db !! ownerId) as [doc|] eqn:Hdoc.
  - rewrite (primaryWrite_exists _ _ _ _ _ doc) by done.
    eexists _, _. split; [apply with_progress_commits |].
    split; [reflexivity |]. split; [| split].
    + intros e ->. reflexivity.
    + intros ->. apply update_uncompleted.
    + intros [-> | ->].
      * apply (update_stamped "completed" false), taskFields_completed.
      * apply (update_stamped "failed" true), taskFields_failed.
  - unfold primaryWrite. rewrite Hdoc. done.
Qed.

Lemma updateSingleTask_timestamp_witness :
  let r :=
    updateSingleTask (TaskData := unit) 1800 (inl "catalog unavailable")
      (fun _ _ _ _ db => (db, None)) "unavailable"
      (sample_request "uncompleted") sample_db in
  status r = 200%Z
  ∧ ∃ doc' : Fields,
      progressDocs (db_after r) !! "u1" = Some doc'
      ∧ field doc' "taskCompletions.t1.complete" = Some (VBool false)
      ∧ field doc' "taskCompletions.t1.failed" = Some (VBool false)
      ∧ field doc' "taskCompletions.t1.timestamp" = None
      ∧ field doc' "level" = Some (VNum 12).
Proof.
  cbv zeta.
  pose proof (updateSingleTask_timestamp (TaskData := unit) 1800
                (inl "catalog unavailable") (fun _ _ _ _ db => (db, None))
                "unavailable" (sample_request "uncompleted") sample_db "u1"
                "uncompleted") as H.
  cbv zeta in H.
  assert (progressDocs sample_db !! "u1" = Some sample_doc) as E
    by (vm_compute; reflexivity).
  rewrite E in H.
  destruct H as (committed & doc' & (Hdoc & _) & Hr & Hdb & Hun & _);
    [vm_compute; reflexivity .. |].
  destruct (Hun eq_refl) as (Hc & Hf & Ht).
  split; [by rewrite Hr |].
  exists doc'. rewrite (Hdb "catalog unavailable" eq_refl).
  split; [exact Hdoc |]. split; [exact Hc |]. split; [exact Hf |].
  split; [exact Ht |].
  revert Hr Hdoc. vm_compute. intros [= <-] [= <-]. reflexivity.
Defined.

(** C6. Once the write of the task's own fields has succeeded, a valid
    single-task update answers 200 whatever the dependency update does.
    When the catalog load throws, the store is left as committed; when
    [updateTaskState] throws, the store is as [updateTaskState] left it;
    either way the error is logged and the handler writes nothing more. *)
Theorem updateSingleTask_survives_propagation {TaskData : Type} (now : Z)
    (getTaskData : string + option TaskData) updateTaskState storeError
    (req : Request) (db committed : Db) (ownerId s : string) :
  authorized req "WP" = Some ownerId →
  String.eqb (param req "taskId") EmptyString = false →
  Js.prop (body req) "state" = Str s →
  isValidTaskStatus (Str s) = true →
  primaryWrite now s (param req "taskId") ownerId db = Some committed →
  let taskId := param req "taskId" in
  let r := updateSingleTask now getTaskData updateTaskState storeError req db in
  status r = 200%Z
  ∧ payload r = Message "Task updated successfully."
  ∧ (∀ e, getTaskData = inl e →
       db_after r = committed
       ∧ logs r = [dependency_failure e ownerId taskId s])
  ∧ (∀ taskData db' e,
       getTaskData = inr taskData →
       updateTaskState taskId s ownerId taskData committed = (db', Some e) →
       db_after r = db'
       ∧ logs r = [dependency_failure e ownerId taskId s])
  ∧ (∀ taskData db',
       getTaskData = inr taskData →
       updateTaskState taskId s ownerId taskData committed = (db', None) →
       db_after r = db' ∧ logs r = []).
Proof.
  intros Hauth Hid Hstate Hvalid Hwrite. cbv zeta.
  rewrite (updateSingleTask_checked _ _ _ _ _ _ ownerId s) by done.
  rewrite Hwrite. unfold dependencyUpdate.
  destruct getTaskData as [e | taskData].
  - repeat split; try done; intros; simplify_eq; reflexivity.
  - destruct (updateTaskState (param req "taskId") s ownerId taskData committed)
      as [db1 [e1|]] eqn:E;
      repeat split; try done; intros; simplify_eq;
      match goal with
      | H : updateTaskState _ _ _ _ _ = _ |- _ => rewrite E in H; simplify_eq
      end; reflexivity.
Qed.

Lemma updateSingleTask_survives_propagation_witness :
  let r :=
    updateSingleTask (TaskData := unit) 1800 (inl "catalog unavailable")
      (fun _ _ _ _ db => (db, None)) "unavailable"
      (sample_request "completed") sample_db in
  status r = 200%Z
  ∧ payload r = Message "Task updated successfully."
  ∧ field (default [] (progressDocs (db_after r) !! "u1"))
      "taskCompletions.t1.failed" = Some (VBool false)
  ∧ logs r = [dependency_failure "catalog unavailable" "u1" "t1" "completed"].
Proof.
  destruct (updateSingleTask_survives_propagation (TaskData := unit) 1800
              (inl "catalog unavailable") (fun _ _ _ _ db => (db, None))
              "unavailable" (sample_request "completed") sample_db
              (with_progress sample_db "u1"
                 (fold_left Firestore.apply
                    (taskFields "completed" "t1" 1800 []) sample_doc))
              "u1" "completed")
    as (Hstatus & Hpayload & Hthrow & _);
    [vm_compute; reflexivity ..|].
  destruct (Hthrow "catalog unavailable" eq_refl) as [Hdb Hlogs].
  cbv zeta. rewrite Hdb.
  split; [exact Hstatus |]. split; [exact Hpayload |]. split; [| exact Hlogs].
  vm_compute; reflexivity.
Defined.

(** *** The fields of a task among those of a batch *)

Lemma written_cases state leaf t v :
  written state leaf t = Some v →
  (state = "completed" ∨ state = "failed" ∨ state = "uncompleted")
  ∧ (leaf = "complete" ∨ leaf = "failed" ∨ leaf = "timestamp").
Proof.
  unfold written. intros Hw.
  repeat case_match; simplify_eq;
    repeat match goal with H : String.eqb _ _ = true |- _ =>
      apply String.eqb_eq in H end; auto.
Qed.

Lemma assoc_taskFields_own state taskId t data leaf v :
  written state leaf t = Some v →
  assoc (key "taskCompletions" taskId leaf) (taskFields state taskId t data)
  = Some v.
Proof.
  intros Hw. destruct (written_cases _ _ _ _ Hw) as [Hs Hl].
  destruct Hs as [-> | [-> | ->]]; destruct Hl as [-> | [-> | ->]];
    cbn in Hw; simplify_eq; task_keys taskId;
    repeat first
      [ rewrite assoc_assign_eq
      | rewrite assoc_assign_ne
          by (intros Hk; by apply key_leaf_inj in Hk) ];
    reflexivity.
Qed.

Lemma assoc_taskFields_other state taskId t data k :
  (∀ leaf, segments leaf = [leaf] → k ≠ key "taskCompletions" taskId leaf) →
  assoc k (taskFields state taskId t data) = assoc k data.
Proof.
  intros Hk. unfold taskFields.
  change ("taskCompletions." +:+ taskId +:+ ".complete")
    with (key "taskCompletions" taskId "complete").
  change ("taskCompletions." +:+ taskId +:+ ".failed")
    with (key "taskCompletions" taskId "failed").
  change ("taskCompletions." +:+ taskId +:+ ".timestamp")
    with (key "taskCompletions" taskId "timestamp").
  cbv zeta.
  repeat case_match; try done;
    rewrite !assoc_assign_ne; try done; intros <-;
    first [ by apply (Hk "complete") | by apply (Hk "failed")
          | by apply (Hk "timestamp") ].
Qed.

(** A loop over entries that all pass the check never breaks: it folds
    [taskFields] over them and starts one dependency update per entry. *)
Lemma batchLoop_valid now ownerId (l : list (string * Js.value)) st :
  Forall (fun e => isValidTaskStatus e.2 = true) l →
  batchLoop now ownerId l st
  = {| invalidStatusFound := invalidStatusFound st;
       batchUpdateData :=
         fold_left (fun d e => taskFields (str_of e.2) e.1 now d) l
           (batchUpdateData st);
       updatePromises :=
         updatePromises st ++ List.map (fun e => (e.1, str_of e.2)) l;
       warnings := warnings st |}.
Proof.
  intros Hl. revert st. induction Hl as [|[taskId status] l Hv _ IH]; intros st.
  - simpl. rewrite app_nil_r. by destruct st.
  - cbn [batchLoop]. cbn in Hv. rewrite Hv. cbn [negb].
    rewrite IH. cbn. by rewrite <- app_assoc.
Qed.

Lemma fold_taskFields_other now (l : list (string * Js.value)) data taskId leaf :
  segments leaf = [leaf] →
  taskId ∉ l.*1 →
  assoc (key "taskCompletions" taskId leaf)
    (fold_left (fun d e => taskFields (str_of e.2) e.1 now d) l data)
  = assoc (key "taskCompletions" taskId leaf) data.
Proof.
  intros Hleaf. revert data. induction l as [|[t' st'] l IH]; intros data Hnot.
  - done.
  - cbn in Hnot. apply not_elem_of_cons in Hnot as [Hne Hnot].
    cbn [fold_left]. rewrite IH by done.
    apply assoc_taskFields_other. intros leaf' Hleaf' Heq.
    by apply key_inj in Heq as [? _].
Qed.

Lemma batch_fields_of_entry now (l : list (string * Js.value)) taskId state leaf v :
  NoDup l.*1 →
  (taskId, Str state) ∈ l →
  written state leaf now = Some v →
  assoc (key "taskCompletions" taskId leaf)
    (fold_left (fun d e => taskFields (str_of e.2) e.1 now d) l [])
  = Some v.
Proof.
  intros Hnd Hin Hw.
  assert (Hleaf : segments leaf = [leaf]).
  { destruct (written_cases _ _ _ _ Hw) as [_ [-> | [-> | ->]]]; done. }
  apply list_elem_of_split in Hin as (l1 & l2 & ->).
  rewrite fmap_app, fmap_cons in Hnd.
  apply NoDup_app in Hnd as (_ & _ & Hnd). apply NoDup_cons in Hnd as [Hnot _].
  rewrite fold_left_app. cbn [fold_left].
  rewrite fold_taskFields_other by done.
  by apply assoc_taskFields_own.
Qed.

(** *** The committed document of a batch *)

Lemma taskFields_fresh state taskId t data :
  (∀ leaf, segments leaf = [leaf] →
           assoc (key "taskCompletions" taskId leaf) data = None) →
  taskFields state taskId t data = data ++ taskFields state taskId t [].
Proof.
  intros Hfresh.
  assert (Hc := Hfresh "complete" eq_refl).
  assert (Hf := Hfresh "failed" eq_refl).
  assert (Ht := Hfresh "timestamp" eq_refl).
  assert (Hstep : ∀ leaf leaf' v (d : UpdateData),
            leaf ≠ leaf' → segments leaf = [leaf] → segments leaf' = [leaf'] →
            assoc (key "taskCompletions" taskId leaf') d = None →
            assoc (key "taskCompletions" taskId leaf')
              (d ++ [(key "taskCompletions" taskId leaf, v)]) = None).
  { intros leaf leaf' v d Hne Hl Hl' Hd. rewrite assoc_app_fresh by done.
    cbn. by rewrite String.eqb_sym, key_eqb_leaf. }
  destruct (String.eqb state "completed") eqn:E1;
    [| destruct (String.eqb state "failed") eqn:E2;
       [| destruct (String.eqb state "uncompleted") eqn:E3]].
  - apply String.eqb_eq in E1 as ->. rewrite taskFields_completed.
    task_keys taskId.
    rewrite (assign_fresh _ _ data) by done.
    rewrite (assign_fresh _ _ (data ++ _)) by (by apply Hstep).
    rewrite (assign_fresh _ _ ((data ++ _) ++ _))
      by (apply Hstep; [done .. |]; by apply Hstep).
    by rewrite <- !app_assoc.
  - apply String.eqb_eq in E2 as ->. rewrite taskFields_failed.
    task_keys taskId.
    rewrite (assign_fresh _ _ data) by done.
    rewrite (assign_fresh _ _ (data ++ _)) by (by apply Hstep).
    rewrite (assign_fresh _ _ ((data ++ _) ++ _))
      by (apply Hstep; [done .. |]; by apply Hstep).
    by rewrite <- !app_assoc.
  - apply String.eqb_eq in E3 as ->. rewrite taskFields_uncompleted.
    task_keys taskId.
    rewrite (assign_fresh _ _ data) by done.
    rewrite (assign_fresh _ _ (data ++ _)) by (by apply Hstep).
    rewrite (assign_fresh _ _ ((data ++ _) ++ _))
      by (apply Hstep; [done .. |]; by apply Hstep).
    by rewrite <- !app_assoc.
  - unfold taskFields. rewrite E1, E2, E3. by rewrite app_nil_r.
Qed.

(** With every task named once, the update data of a batch is the fields of
    its entries, one entry after the other. *)
Lemma batch_data_flat now (l : list (string * Js.value)) :
  NoDup l.*1 →
  fold_left (fun d e => taskFields (str_of e.2) e.1 now d) l []
  = flat_map (fieldsOf now) l.
Proof.
  induction l as [|[t v] l IH] using rev_ind; intros Hnd; [done |].
  rewrite fmap_app in Hnd. apply NoDup_app in Hnd as (Hnd & Hnot & _).
  rewrite fold_left_app, flat_map_app. cbn. rewrite app_nil_r.
  rewrite <- IH by done. apply taskFields_fresh.
  intros leaf Hleaf. rewrite fold_taskFields_other; [done | done |].
  intros Hin. apply (Hnot t Hin). cbn. left.
Qed.

(** The fields of another task, neither id holding a dot, leave a field of
    this task as it is. *)
Lemma apply_other_task now (e : string * Js.value) taskId leaf doc :
  segments e.1 = [e.1] → segments taskId = [taskId] → segments leaf = [leaf] →
  e.1 ≠ taskId →
  field (fold_left Firestore.apply (fieldsOf now e) doc)
    (key "taskCompletions" taskId leaf)
  = field doc (key "taskCompletions" taskId leaf).
Proof.
  destruct e as [t v]. cbn [fst snd]. intros Ht Htask Hleaf Hne.
  unfold fieldsOf, field. cbn [fst snd].
  rewrite segments_key by done. unfold record_path. rewrite Htask.
  change ((segments "taskCompletions" ++ [taskId]) ++ [leaf])
    with (["taskCompletions"] ++ taskId :: [leaf]).
  assert (Hpath : ∀ leaf', segments leaf' = [leaf'] →
            segments (key "taskCompletions" t leaf')
            = ["taskCompletions"] ++ t :: [leaf']).
  { intros leaf' Hl. rewrite segments_key by done. unfold record_path.
    by rewrite Ht. }
  destruct (String.eqb (str_of v) "completed") eqn:E1;
    [| destruct (String.eqb (str_of v) "failed") eqn:E2;
       [| destruct (String.eqb (str_of v) "uncompleted") eqn:E3]].
  - apply String.eqb_eq in E1 as ->. rewrite taskFields_completed.
    cbn [fold_left Firestore.apply fst snd]. rewrite !Hpath by done.
    by rewrite !(get_set_off ["taskCompletions"] t taskId).
  - apply String.eqb_eq in E2 as ->. rewrite taskFields_failed.
    cbn [fold_left Firestore.apply fst snd]. rewrite !Hpath by done.
    by rewrite !(get_set_off ["taskCompletions"] t taskId).
  - apply String.eqb_eq in E3 as ->. rewrite taskFields_uncompleted.
    cbn [fold_left Firestore.apply fst snd]. rewrite !Hpath by done.
    by rewrite (get_delete_off ["taskCompletions"] t taskId),
      !(get_set_off ["taskCompletions"] t taskId).
  - unfold taskFields. by rewrite E1, E2, E3.
Qed.

Lemma apply_other_tasks now (l : list (string * Js.value)) taskId leaf doc :
  Forall (fun e => segments e.1 = [e.1]) l →
  segments taskId = [taskId] → segments leaf = [leaf] →
  taskId ∉ l.*1 →
  field (fold_left Firestore.apply (flat_map (fieldsOf now) l) doc)
    (key "taskCompletions" taskId leaf)
  = field doc (key "taskCompletions" taskId leaf).
Proof.
  intros Hl Htask Hleaf. revert doc.
  induction Hl as [|e l He _ IH]; intros doc Hnot; [done |].
  cbn in Hnot. apply not_elem_of_cons in Hnot as [Hne Hnot].
  cbn [flat_map]. rewrite fold_left_app, IH by done.
  by apply apply_other_task.
Qed.

Lemma batch_commit_failed now (l : list (string * Js.value)) taskId doc :
  NoDup l.*1 →
  Forall (fun e => segments e.1 = [e.1]) l →
  (taskId, Str "failed") ∈ l →
  let doc' :=
    fold_left Firestore.apply
      (fold_left (fun d e => taskFields (str_of e.2) e.1 now d) l []) doc in
  field doc' (key "taskCompletions" taskId "complete") = Some (VBool true)
  ∧ field doc' (key "taskCompletions" taskId "failed") = Some (VBool true).
Proof.
  intros Hnd Hdot Hin. cbv zeta. rewrite batch_data_flat by done.
  apply list_elem_of_split in Hin as (l1 & l2 & ->).
  rewrite fmap_app, fmap_cons in Hnd.
  apply NoDup_app in Hnd as (_ & _ & Hnd). apply NoDup_cons in Hnd as [Hnot _].
  apply Forall_app in Hdot as [_ Hdot]. apply Forall_cons in Hdot as [Ht Hdot].
  cbn in Ht, Hnot.
  rewrite flat_map_app. cbn [flat_map]. rewrite !fold_left_app.
  rewrite !apply_other_tasks by done.
  unfold fieldsOf. cbn [fst snd str_of].
  destruct (update_stamped "failed" true taskId now
              (fold_left Firestore.apply (flat_map (fieldsOf now) l1) doc)
              (taskFields_failed taskId now)) as (Hc & Hf & _).
  by split.
Qed.

(** A batch whose entries all pass the check, sent by a requester whose
    progress document exists. *)
Lemma updateMultipleTasks_commits {TaskData : Type} now
    (getTaskData : string + option TaskData) updateTaskState storeError
    req db ownerId (taskUpdates : list (string * Js.value)) doc :
  authorized req "WP" = Some ownerId →
  body req = Obj taskUpdates →
  taskUpdates ≠ [] →
  Forall (fun e => isValidTaskStatus e.2 = true) taskUpdates →
  progressDocs db !! ownerId = Some doc →
  updateMultipleTasks now getTaskData updateTaskState storeError req db
  = (let '(db', l) :=
       settle getTaskData updateTaskState ownerId (List.map job taskUpdates)
         (with_progress db ownerId
            (fold_left Firestore.apply
               (fold_left (fun d e => taskFields (str_of e.2) e.1 now d)
                  taskUpdates [])
               doc)) in
     respond 200 (Message "Tasks updated successfully.") db' l).
Proof.
  intros Hauth Hbody Hne Hvalid Hdoc. unfold updateMultipleTasks.
  rewrite Hauth, Hbody. destruct taskUpdates as [|e l]; [done |].
  rewrite batchLoop_valid by done.
  cbn [invalidStatusFound batchUpdateData updatePromises warnings app].
  rewrite Hdoc. cbn [Firestore.update]. reflexivity.
Qed.

(** C10. A task set to [failed] is stored with [complete] true as well as
    [failed] true, on both paths.  The single-task update with state
    [failed], on a task id the store takes, commits a store in which the
    requester's document reads so; so does a batch with the entry
    [failed] for the task, when every entry passes the check and the task
    ids are distinct, taken by the store and without dots.  In either
    case the committed store is the one the dependency updates start from,
    and only the requester's document has changed in it.  What is written
    for [completed] and for [failed] differs in the [failed] flag only. *)
Theorem failed_task_written_complete {TaskData : Type} (now : Z)
    (getTaskData : string + option TaskData) updateTaskState storeError
    (taskId ownerId : string) :
  (∀ (req : Request) (db : Db) (doc : Fields),
     authorized req "WP" = Some ownerId →
     param req "taskId" = taskId →
     accepted_path taskId = true →
     Js.prop (body req) "state" = Str "failed" →
     progressDocs db !! ownerId = Some doc →
     ∃ (committed : Db) (doc' : Fields),
       commits db committed ownerId doc'
       ∧ updateSingleTask now getTaskData updateTaskState storeError req db
         = (let '(db', l) :=
              dependencyUpdate getTaskData updateTaskState
                "Error updating task dependencies:" "state" taskId "failed"
                ownerId committed in
            respond 200 (Message "Task updated successfully.") db' l)
       ∧ field doc' ("taskCompletions." +:+ taskId +:+ ".complete")
         = Some (VBool true)
       ∧ field doc' ("taskCompletions." +:+ taskId +:+ ".failed")
         = Some (VBool true))
  ∧ (∀ (req : Request) (db : Db) (doc : Fields)
       (taskUpdates : list (string * Js.value)),
       authorized req "WP" = Some ownerId →
       body req = Obj taskUpdates →
       NoDup taskUpdates.*1 →
       Forall (fun e => isValidTaskStatus e.2 = true) taskUpdates →
       Forall (fun e => accepted_path e.1 = true ∧ segments e.1 = [e.1])
         taskUpdates →
       (taskId, Str "failed") ∈ taskUpdates →
       progressDocs db !! ownerId = Some doc →
       ∃ (committed : Db) (doc' : Fields),
         commits db committed ownerId doc'
         ∧ updateMultipleTasks now getTaskData updateTaskState storeError
             req db
           = (let '(db', l) :=
                settle getTaskData updateTaskState ownerId
                  (List.map job taskUpdates) committed in
              respond 200 (Message "Tasks updated successfully.") db' l)
         ∧ field doc' ("taskCompletions." +:+ taskId +:+ ".complete")
           = Some (VBool true)
         ∧ field doc' ("taskCompletions." +:+ taskId +:+ ".failed")
           = Some (VBool true))
  ∧ (∀ taskUpdates : list (string * Js.value),
       NoDup taskUpdates.*1 →
       Forall (fun e => isValidTaskStatus e.2 = true) taskUpdates →
       (taskId, Str "failed") ∈ taskUpdates →
       let st := batchLoop now ownerId taskUpdates initialLoop in
       invalidStatusFound st = false
       ∧ assoc ("taskCompletions." +:+ taskId +:+ ".complete")
           (batchUpdateData st) = Some (FvBool true)
       ∧ assoc ("taskCompletions." +:+ taskId +:+ ".failed")
           (batchUpdateData st) = Some (FvBool true))
  ∧ (∀ (data : UpdateData) (k : string),
       k ≠ "taskCompletions." +:+ taskId +:+ ".failed" →
       assoc k (taskFields "failed" taskId now data)
       = assoc k (taskFields "completed" taskId now data))
  ∧ (∀ data : UpdateData,
       assoc ("taskCompletions." +:+ taskId +:+ ".failed")
         (taskFields "completed" taskId now data) = Some (FvBool false)
       ∧ assoc ("taskCompletions." +:+ taskId +:+ ".failed")
           (taskFields "failed" taskId now data) = Some (FvBool true)).
Proof.
  change ("taskCompletions." +:+ taskId +:+ ".complete")
    with (key "taskCompletions" taskId "complete").
  change ("taskCompletions." +:+ taskId +:+ ".failed")
    with (key "taskCompletions" taskId "failed").
  split; [| split; [| split; [| split]]].
  - intros req db doc Hauth <- Hid%accepted_path_nonempty Hstate Hdoc.
    rewrite (updateSingleTask_checked _ _ _ _ _ _ ownerId "failed") by done.
    rewrite (primaryWrite_exists _ _ _ _ _ doc) by done.
    eexists _, _. split; [apply with_progress_commits |].
    split; [reflexivity |].
    destruct (update_stamped "failed" true (param req "taskId") now doc
                (taskFields_failed (param req "taskId") now))
      as (Hc & Hf & _).
    by split.
  - intros req db doc taskUpdates Hauth Hbody Hnd Hvalid Hids Hin Hdoc.
    rewrite (updateMultipleTasks_commits _ _ _ _ _ _ ownerId taskUpdates doc)
      by (try done; by intros ->; apply elem_of_nil in Hin).
    eexists _, _. split; [apply with_progress_commits |].
    split; [reflexivity |].
    apply batch_commit_failed; [done | | done].
    eapply Forall_impl; [exact Hids |]. by intros e [_ ?].
  - intros taskUpdates Hnd Hvalid Hin st. subst st.
    rewrite batchLoop_valid by done. cbn.
    split; [done |].
    split; by eapply batch_fields_of_entry.
  - intros data k Hk.
    destruct (decide (k = key "taskCompletions" taskId "complete")) as [-> | Hc].
    { by rewrite !(assoc_taskFields_own _ _ _ _ "complete" (FvBool true)). }
    destruct (decide (k = key "taskCompletions" taskId "timestamp")) as [-> | Ht].
    { by rewrite !(assoc_taskFields_own _ _ _ _ "timestamp" (FvNum now)). }
    task_keys taskId. by rewrite !assoc_assign_ne.
  - intros data. split; by apply assoc_taskFields_own.
Qed.

Lemma failed_task_written_complete_witness :
  let single :=
    updateSingleTask (TaskData := unit) 1800 (inl "catalog unavailable")
      (fun _ _ _ _ db => (db, None)) "unavailable" (sample_request "failed")
      sample_db in
  let batch :=
    updateMultipleTasks (TaskData := unit) 1800 (inl "catalog unavailable")
      (fun _ _ _ _ db => (db, None)) "unavailable" failed_batch sample_db in
  (∃ doc' : Fields,
     progressDocs (db_after single) !! "u1" = Some doc'
     ∧ field doc' "taskCompletions.t1.complete" = Some (VBool true)
     ∧ field doc' "taskCompletions.t1.failed" = Some (VBool true))
  ∧ status batch = 200%Z
  ∧ ∃ doc' : Fields,
      progressDocs (db_after batch) !! "u1" = Some doc'
      ∧ field doc' "taskCompletions.t1.complete" = Some (VBool true)
      ∧ field doc' "taskCompletions.t1.failed" = Some (VBool true).
Proof.
  cbv zeta.
  destruct (failed_task_written_complete (TaskData := unit) 1800
              (inl "catalog unavailable") (fun _ _ _ _ db => (db, None))
              "unavailable" "t1" "u1") as (Hsingle & Hbatch & _).
  split.
  - destruct (Hsingle (sample_request "failed") sample_db sample_doc)
      as (committed & doc' & (Hdoc & _) & -> & Hc & Hf);
      [vm_compute; reflexivity .. |].
    exists doc'. split; [exact Hdoc |]. split; [exact Hc | exact Hf].
  - destruct (Hbatch failed_batch sample_db sample_doc
                [("t0", Str "completed"); ("t1", Str "failed")])
      as (committed & doc' & (Hdoc & _) & -> & Hc & Hf).
    + vm_compute; reflexivity.
    + reflexivity.
    + compute_done.
    + repeat constructor.
    + repeat constructor.
    + constructor 2. constructor 1.
    + vm_compute; reflexivity.
    + split; [reflexivity |].
      exists doc'. split; [exact Hdoc |]. split; [exact Hc | exact Hf].
Defined.

(** *** A batch with an entry that fails the check *)

(** The entries before the first one that fails the check. *)
Lemma first_invalid (l : list (string * Js.value)) :
  Exists (fun e => isValidTaskStatus e.2 = false) l →
  ∃ l1 e l2,
    l = l1 ++ e :: l2
    ∧ Forall (fun e => isValidTaskStatus e.2 = true) l1
    ∧ isValidTaskStatus e.2 = false.
Proof.
  induction l as [|e l IH]; intros Hex; [by apply Exists_nil in Hex |].
  destruct (isValidTaskStatus e.2) eqn:E.
  - apply Exists_cons in Hex as [Hex | Hex]; [congruence |].
    destruct (IH Hex) as (l1 & e' & l2 & -> & Hl1 & He').
    exists (e :: l1), e', l2. split; [done |]. split; [by constructor | done].
  - by exists [], e, l.
Qed.

(** The loop stops at that entry: the update data is never used, and the
    dependency updates of the entries before it have been started. *)
Lemma batchLoop_invalid now ownerId l1 e l2 :
  Forall (fun e => isValidTaskStatus e.2 = true) l1 →
  isValidTaskStatus e.2 = false →
  let st := batchLoop now ownerId (l1 ++ e :: l2) initialLoop in
  invalidStatusFound st = true
  ∧ updatePromises st = List.map job l1
  ∧ warnings st = [invalid_status_warning ownerId e].
Proof.
  intros Hl1 He.
  assert (Hgen : ∀ st,
    batchLoop now ownerId (l1 ++ e :: l2) st
    = {| invalidStatusFound := true;
         batchUpdateData :=
           fold_left (fun d e => taskFields (str_of e.2) e.1 now d) l1
             (batchUpdateData st);
         updatePromises := updatePromises st ++ List.map job l1;
         warnings := warnings st ++ [invalid_status_warning ownerId e] |}).
  { induction Hl1 as [|[t v] l1 Hv _ IH]; intros st.
    - destruct e as [t v]. cbn in *. rewrite He. cbn. by rewrite app_nil_r.
    - cbn in *. rewrite Hv. cbn. rewrite IH. cbn. by rewrite <- app_assoc. }
  cbv zeta. by rewrite Hgen.
Qed.

(** The rejection of such a batch: no write of task fields is issued, and
    the store is what the dependency updates already started make of it. *)
Lemma updateMultipleTasks_invalid {TaskData : Type} now
    (getTaskData : string + option TaskData) updateTaskState storeError
    req db ownerId l1 e l2 :
  authorized req "WP" = Some ownerId →
  body req = Obj (l1 ++ e :: l2) →
  Forall (fun e => isValidTaskStatus e.2 = true) l1 →
  isValidTaskStatus e.2 = false →
  let r := updateMultipleTasks now getTaskData updateTaskState storeError req db in
  status r = 400%Z
  ∧ payload r = Error "Invalid status value found in batch update."
  ∧ db_after r
    = (settle getTaskData updateTaskState ownerId (List.map job l1) db).1.
Proof.
  intros Hauth Hbody Hl1 He. cbv zeta. unfold updateMultipleTasks.
  rewrite Hauth, Hbody.
  destruct (batchLoop_invalid now ownerId l1 e l2 Hl1 He) as (Hf & Hp & Hw).
  fold initialLoop.
  assert (∃ x l', l1 ++ e :: l2 = x :: l') as (x & l' & El)
    by (destruct l1; eauto).
  rewrite El in *. rewrite Hf, Hp.
  by destruct (settle getTaskData updateTaskState ownerId (List.map job l1) db).
Qed.

(** Any batch with an entry that fails the check is answered 400 without
    the batch write; the store moves only if a dependency update started
    before that entry writes to it. *)
Lemma updateMultipleTasks_rejects {TaskData : Type} now
    (getTaskData : string + option TaskData) updateTaskState storeError
    req db ownerId taskUpdates :
  authorized req "WP" = Some ownerId →
  body req = Obj taskUpdates →
  Exists (fun e => isValidTaskStatus e.2 = false) taskUpdates →
  let r := updateMultipleTasks now getTaskData updateTaskState storeError req db in
  status r = 400%Z
  ∧ payload r = Error "Invalid status value found in batch update."
  ∧ (∃ l1 e l2,
       taskUpdates = l1 ++ e :: l2
       ∧ Forall (fun e => isValidTaskStatus e.2 = true) l1
       ∧ isValidTaskStatus e.2 = false
       ∧ db_after r
         = (settle getTaskData updateTaskState ownerId (List.map job l1) db).1)
  ∧ ((∀ taskId state user taskData db0,
        (updateTaskState taskId state user taskData db0).1 = db0) →
     db_after r = db).
Proof.
  intros Hauth Hbody (l1 & e & l2 & -> & Hl1 & He)%first_invalid.
  destruct (updateMultipleTasks_invalid now getTaskData updateTaskState
              storeError req db ownerId l1 e l2) as (Hs & Hp & Hdb);
    [done .. |].
  cbv zeta in *. split; [done |]. split; [done |]. split.
  - by exists l1, e, l2.
  - intros Hquiet. rewrite Hdb. clear -Hquiet.
    induction (List.map job l1) as [|[taskId status] jobs IH]; [done |].
    cbn [settle]. unfold dependencyUpdate at 1.
    destruct getTaskData as [err | taskData].
    + by destruct (settle _ _ ownerId jobs db).
    + specialize (Hquiet taskId status ownerId taskData db).
      destruct (updateTaskState taskId status ownerId taskData db)
        as [db1 [err|]]; cbn in Hquiet; subst db1;
        by destruct (settle _ _ ownerId jobs db).
Qed.

(** C1. On the batch [{task1: completed, task5: bogus}] the handler answers
    400 and never writes the fields of [task1], but the dependency update of
    [task1] has been started before [task5] is looked at: the store after
    the request is the one [updateTaskState] leaves for [task1] set to
    [completed]. *)
Theorem updateMultipleTasks_rejected_batch_propagates {TaskData : Type}
    (now : Z) (taskData : option TaskData) updateTaskState storeError
    (db : Db) :
  let r :=
    updateMultipleTasks now (inr taskData) updateTaskState storeError
      rejected_batch db in
  status r = 400%Z
  ∧ payload r = Error "Invalid status value found in batch update."
  ∧ db_after r = (updateTaskState "task1" "completed" "u1" taskData db).1.
Proof.
  destruct (updateMultipleTasks_invalid now (inr taskData) updateTaskState
              storeError rejected_batch db "u1"
              [("task1", Str "completed")] ("task5", Str "bogus") [])
    as (Hs & Hp & Hdb); [done | done | by repeat constructor | done |].
  cbv zeta. rewrite Hs, Hp, Hdb. repeat split.
  cbn. unfold dependencyUpdate.
  by destruct (updateTaskState "task1" "completed" "u1" taskData db) as [? []].
Qed.

(** *** What the store client takes *)

Lemma list_ascii_app (a b : string) :
  list_ascii_of_string (a +:+ b)
  = list_ascii_of_string a ++ list_ascii_of_string b.
Proof. induction a as [|c a IH]; simpl; [done |]. by f_equal. Qed.

Lemma accepted_path_dot (a b : string) :
  accepted_path (a +:+ "." +:+ b) = accepted_path a && accepted_path b.
Proof.
  unfold accepted_path. rewrite segments_app, forallb_app.
  rewrite !list_ascii_app, !forallb_app. cbn [list_ascii_of_string forallb].
  cbn [refused_char negb andb].
  destruct (forallb _ (segments a)), (forallb _ (segments b)),
    (forallb _ (list_ascii_of_string a)); done.
Qed.

Lemma accepted_key coll taskId leaf :
  accepted_path coll = true → accepted_path taskId = true →
  accepted_path leaf = true →
  accepted_path (key coll taskId leaf) = true.
Proof.
  intros Hc Ht Hl. unfold key. by rewrite !accepted_path_dot, Hc, Ht, Hl.
Qed.

(** A list is no proper prefix of a list of its own length. *)
Lemma prefix_same_length {A : Type} (l k : list A) :
  l `prefix_of` k → List.length l = List.length k → l = k.
Proof.
  intros [t ->] Hlen. rewrite length_app in Hlen.
  destruct t; [by rewrite app_nil_r | cbn in Hlen; lia].
Qed.

(** Paths of one length, each once, conflict with none of their own. *)
Lemma takes_flat (data : UpdateData) (n : nat) :
  data ≠ [] →
  NoDup data.*1 →
  (∀ k, k ∈ data.*1 →
        accepted_path k = true ∧ List.length (segments k) = n) →
  takes data.
Proof.
  intros Hne Hnd Hkeys. split; [done |]. split.
  - intros k Hk. by apply Hkeys.
  - intros i j k k' Hi Hj Hij Hpre.
    apply prefix_same_length in Hpre.
    + apply segments_inj in Hpre as ->.
      by apply Hij, (NoDup_lookup data.*1 i j k').
    + destruct (Hkeys k) as [_ ->]; [by eapply list_elem_of_lookup_2 |].
      destruct (Hkeys k') as [_ ->]; [by eapply list_elem_of_lookup_2 |].
      done.
Qed.



Lemma task_key_length coll taskId leaf :
  segments leaf = [leaf] →
  List.length (segments (key coll taskId leaf))
  = S (List.length (record_path coll taskId)).
Proof.
  intros H. rewrite segments_key by done. rewrite length_app. cbn. lia.
Qed.



End TaskFacts.

(** ** Objective and level updates *)

Module UpdateFacts.

Import Js Firestore Handler Notions Samples StoreFacts.

Lemma loosely_null_falsy v : loosely_null v = true → truthy v = false.
Proof. by destruct v. Qed.

(** C8. An objective update that supplies neither a state nor a count is
    answered 400 with the message that one of them must be provided; the
    store is left as it was and nothing is logged. *)
Theorem updateTaskObjective_empty_update (now : Z) (storeError : string)
    (req : Request) (db : Db) (ownerId : string) :
  authorized req "WP" = Some ownerId →
  String.eqb (param req "objectiveId") EmptyString = false →
  loosely_null (prop (body req) "state") = true →
  loosely_null (prop (body req) "count") = true →
  let r := updateTaskObjective now storeError req db in
  status r = 400%Z
  ∧ payload r = Error "Either state or count must be provided."
  ∧ db_after r = db
  ∧ logs r = [].
Proof.
  intros Hauth Hid Hstate Hcount. cbv zeta. unfold updateTaskObjective.
  rewrite Hauth, Hid, (loosely_null_falsy _ Hstate), Hcount.
  cbv [negb andb]. repeat split; reflexivity.
Qed.

Lemma updateTaskObjective_empty_update_witness :
  let r := updateTaskObjective 1800 "unavailable" empty_objective_request
             one_user_db in
  status r = 400%Z
  ∧ payload r = Error "Either state or count must be provided."
  ∧ db_after r = one_user_db
  ∧ logs r = [].
Proof.
  apply (updateTaskObjective_empty_update 1800 "unavailable"
           empty_objective_request one_user_db "u1");
    vm_compute; reflexivity.
Defined.

(** *** Level *)

Example parseInt_samples :
  parseInt "45" = Some 45%Z ∧ parseInt "0" = Some 0%Z ∧ parseInt "abc" = None
  ∧ parseInt EmptyString = None ∧ parseInt " 12px" = Some 12%Z
  ∧ parseInt "-3" = Some (-3)%Z ∧ parseInt "+7" = Some 7%Z
  ∧ parseInt "4.9" = Some 4%Z ∧ parseInt "-" = None.
Proof. repeat split; reflexivity. Qed.

Lemma set_merge_level n (doc : option Fields) :
  set_merge [("level", VNum n)] doc = assign "level" (VNum n) (default [] doc).
Proof. done. Qed.

(** A field whose path does not start with the key written is untouched. *)
Lemma field_assign_off k v (doc : Fields) path :
  head (segments path) ≠ Some k →
  field (assign k v doc) path = field doc path.
Proof.
  unfold field.
  destruct (segments path) as [|k' p] eqn:E; [by apply segments_nonempty in E |].
  intros Hk. cbn in *. rewrite assoc_assign_ne; [done | congruence].
Qed.

(** C9. A level update is refused with 400, and writes nothing, exactly
    when the path segment parses to no number or to an integer below 1;
    when it parses to an integer from 1 up, the answer is 200 and the
    requester's progress document has that level, every other field of it
    being as before, and no other document is touched. *)
Theorem setPlayerLevel_merges_level (req : Request) (db : Db)
    (ownerId : string) :
  authorized req "WP" = Some ownerId →
  let levelValue := parseInt (param req "levelValue") in
  let r := setPlayerLevel req db in
  (status r = 400%Z ↔
   levelValue = None ∨ ∃ n, levelValue = Some n ∧ (n < 1)%Z)
  ∧ (status r = 400%Z →
     payload r = Error "Invalid level value provided."
     ∧ db_after r = db ∧ logs r = [])
  ∧ (∀ n, levelValue = Some n → (1 ≤ n)%Z →
     status r = 200%Z
     ∧ payload r = Message "Level updated successfully."
     ∧ systemDocs (db_after r) = systemDocs db
     ∧ userDocs (db_after r) = userDocs db
     ∧ teamDocs (db_after r) = teamDocs db
     ∧ (∀ other, other ≠ ownerId →
        progressDocs (db_after r) !! other = progressDocs db !! other)
     ∧ ∃ doc' : Fields,
         progressDocs (db_after r) !! ownerId = Some doc'
         ∧ assoc "level" doc' = Some (VNum n)
         ∧ (∀ k, k ≠ "level" →
            assoc k doc' = assoc k (default [] (progressDocs db !! ownerId)))
         ∧ (∀ path, head (segments path) ≠ Some "level" →
            field doc' path
            = field (default [] (progressDocs db !! ownerId)) path)).
Proof.
  intros Hauth. cbv zeta. unfold setPlayerLevel. rewrite Hauth.
  destruct (parseInt (param req "levelValue")) as [n|]; cbn [respond status].
  - destruct (n <? 1)%Z eqn:E; cbn.
    + apply Z.ltb_lt in E. split; [| split].
      * split; [intros _; right; by exists n | done].
      * done.
      * intros n' [= <-] ?. lia.
    + apply Z.ltb_ge in E. split; [| split].
      * split; [done |]. intros [? | (n' & [= <-] & ?)]; [done | lia].
      * done.
      * intros n' [= <-] _. repeat split.
        { intros other Hne. by rewrite lookup_insert_ne. }
        exists (set_merge [("level", VNum n)] (progressDocs db !! ownerId)).
        split; [apply lookup_insert_eq |].
        rewrite set_merge_level. split; [apply assoc_assign_eq |].
        split.
        { intros k Hk. by apply assoc_assign_ne. }
        { intros path Hp. by apply field_assign_off. }
  - split; [| split].
    + split; [by left | done].
    + done.
    + done.
Qed.

Lemma setPlayerLevel_merges_level_witness :
  status (setPlayerLevel (level_request "0") one_user_db) = 400%Z
  ∧ db_after (setPlayerLevel (level_request "0") one_user_db) = one_user_db
  ∧ status (setPlayerLevel (level_request "abc") one_user_db) = 400%Z
  ∧ db_after (setPlayerLevel (level_request "abc") one_user_db) = one_user_db
  ∧ status (setPlayerLevel (level_request "45") one_user_db) = 200%Z
  ∧ ∃ doc' : Fields,
      progressDocs (db_after (setPlayerLevel (level_request "45") one_user_db))
        !! "u1" = Some doc'
      ∧ assoc "level" doc' = Some (VNum 45)
      ∧ assoc "displayName" doc' = Some (VStr "Nikita")
      ∧ field doc' "taskObjectives.obj1.count" = Some (VNum 3).
Proof.
  destruct (setPlayerLevel_merges_level (level_request "0") one_user_db "u1")
    as (H0 & H0' & _); [vm_compute; reflexivity |].
  destruct (setPlayerLevel_merges_level (level_request "abc") one_user_db "u1")
    as (Ha & Ha' & _); [vm_compute; reflexivity |].
  destruct (setPlayerLevel_merges_level (level_request "45") one_user_db "u1")
    as (_ & _ & H45); [vm_compute; reflexivity |].
  cbv zeta in *.
  assert (S0 : status (setPlayerLevel (level_request "0") one_user_db) = 400%Z).
  { apply H0. right. exists 0%Z. split; [vm_compute; reflexivity | lia]. }
  assert (Sa : status (setPlayerLevel (level_request "abc") one_user_db) = 400%Z).
  { apply Ha. left. vm_compute; reflexivity. }
  destruct (H45 45%Z) as (S45 & _ & _ & _ & _ & _ & doc' & Hdoc & Hlevel & Hk & Hpath);
    [vm_compute; reflexivity | lia |].
  split; [exact S0 |]. split; [apply (H0' S0) |].
  split; [exact Sa |]. split; [apply (Ha' Sa) |].
  split; [exact S45 |].
  exists doc'. split; [exact Hdoc |]. split; [exact Hlevel |].
  split.
  - rewrite Hk by discriminate. vm_compute; reflexivity.
  - rewrite Hpath by (vm_compute; discriminate). vm_compute; reflexivity.
Defined.

End UpdateFacts.

(** ** Team progress *)

Module TeamFacts.

Import Js Firestore Handler Notions Samples.

Lemma elem_of_uniq (seen l : list string) (x : string) :
  x ∈ uniq seen l ↔ x ∈ l ∧ x ∉ seen.
Proof.
  revert seen. induction l as [|y l IH]; intros seen; cbn.
  - split; [by intros ?%elem_of_nil | by intros [?%elem_of_nil _]].
  - case_bool_decide as Hy.
    + rewrite IH, elem_of_cons. split; [tauto |].
      intros [[-> | ?] ?]; [done | tauto].
    + rewrite !elem_of_cons, IH, elem_of_cons. split.
      * intros [-> | (? & ?)]; [tauto |]. split; [tauto |]. tauto.
      * intros [[-> | ?] ?]; [tauto |].
        destruct (decide (x = y)); [tauto |]. right. tauto.
Qed.

Lemma NoDup_uniq (seen l : list string) : NoDup (uniq seen l).
Proof.
  revert seen. induction l as [|y l IH]; intros seen; cbn; [constructor |].
  case_bool_decide; [apply IH |].
  constructor; [| apply IH].
  rewrite elem_of_uniq, elem_of_cons. tauto.
Qed.

Lemma NoDup_filter_list {A : Type} (f : A → bool) (l : list A) :
  NoDup l → NoDup (List.filter f l).
Proof.
  induction 1 as [|x l Hx _ IH]; cbn; [constructor |].
  destruct (f x); [| done]. constructor; [| done].
  rewrite list_elem_of_In, filter_In, <- list_elem_of_In. tauto.
Qed.

Lemma teamMemberIds_NoDup ownerId db : NoDup (teamMemberIds ownerId db).1.
Proof.
  unfold teamMemberIds. repeat case_match; cbn.
  - apply NoDup_uniq.
  - apply NoDup_singleton.
  - apply NoDup_singleton.
Qed.

(** The members are the requester and, when the requester's team document
    exists, the members it lists. *)
Lemma elem_of_teamMemberIds ownerId db id :
  id ∈ (teamMemberIds ownerId db).1
  ↔ id = ownerId
    ∨ ∃ teamId teamData ms,
        systemDocs db !! ownerId ≫= team = Some teamId
        ∧ teamId ≠ EmptyString
        ∧ teamDocs db !! teamId = Some teamData
        ∧ members teamData = Some ms
        ∧ id ∈ ms.
Proof.
  unfold teamMemberIds.
  destruct (systemDocs db !! ownerId ≫= team) as [teamId|] eqn:Et;
    cbn [truthy_str default from_option Datatypes.id].
  - destruct (String.eqb teamId EmptyString) eqn:E; cbn [negb].
    + apply String.eqb_eq in E as ->. cbn. rewrite list_elem_of_singleton.
      split; [by left |]. intros [? | (t & ? & ? & [= <-] & ? & _)]; done.
    + apply String.eqb_neq in E.
      destruct (teamDocs db !! teamId) as [teamData|] eqn:Ed; cbn [fst].
      * rewrite elem_of_uniq, elem_of_app, list_elem_of_singleton. split.
        -- intros [[Hin | ?] _]; [| by left]. right.
           destruct (members teamData) as [ms|] eqn:Em;
             [| by apply elem_of_nil in Hin].
           by exists teamId, teamData, ms.
        -- intros [? | (t & d & ms & [= <-] & _ & Hd & Hm & Hin)].
           ++ split; [by right | by intros ?%elem_of_nil].
           ++ rewrite Ed in Hd. injection Hd as <-. rewrite Hm.
              split; [by left | by intros ?%elem_of_nil].
      * rewrite list_elem_of_singleton. split; [by left |].
        intros [? | (t & d & ms & [= <-] & _ & Hd & _)]; [done |].
        by rewrite Ed in Hd.
  - cbn. rewrite list_elem_of_singleton. split; [by left |].
    intros [? | (t & ? & ? & ? & _)]; done.
Qed.

(** The requester is always a member. *)
Lemma teamMemberIds_owner ownerId db : ownerId ∈ (teamMemberIds ownerId db).1.
Proof.
  unfold teamMemberIds. repeat case_match; cbn.
  - rewrite elem_of_uniq, elem_of_app, list_elem_of_singleton.
    split; [by right | by intros ?%elem_of_nil].
  - by apply list_elem_of_singleton.
  - by apply list_elem_of_singleton.
Qed.

Lemma elem_of_hiddenOf ownerId (m : gmap string bool) memberIds id :
  id ∈ hiddenOf ownerId m memberIds
  ↔ id ∈ memberIds ∧ id ≠ ownerId ∧ m !! id = Some true.
Proof.
  unfold hiddenOf.
  rewrite list_elem_of_In, filter_In, <- list_elem_of_In, andb_true_iff,
    negb_true_iff, String.eqb_neq.
  destruct (m !! id) as [[]|]; cbn; intuition congruence.
Qed.

Section Team.

Context {TaskData HideoutData FormattedProgress : Type}.
Variable getTaskData : string + option TaskData.
Variable getHideoutData : string + option HideoutData.
Variable formatProgress :
  Fields → string → HideoutData → TaskData → FormattedProgress.

(** The answer when both catalogs have loaded. *)
Lemma getTeamProgress_loaded req db ownerId hideoutData taskData :
  authorized req "TP" = Some ownerId →
  getHideoutData = inr (Some hideoutData) →
  getTaskData = inr (Some taskData) →
  let r := getTeamProgress getTaskData getHideoutData formatProgress req db in
  status r = 200%Z
  ∧ db_after r = db
  ∧ payload r
    = Json
        {| data :=
             omap (fun d : string * option Fields =>
                     (fun doc => formatProgress doc d.1 hideoutData taskData)
                       <$> d.2)
               (List.map (fun id => (id, progressDocs db !! id))
                  (teamMemberIds ownerId db).1);
           self := ownerId;
           hiddenTeammates :=
             hiddenOf ownerId (default ∅ (userDocs db !! ownerId ≫= teamHide))
               (teamMemberIds ownerId db).1 |}.
Proof.
  intros Hauth Hh Ht. cbv zeta. unfold getTeamProgress.
  rewrite Hauth, Hh, Ht. by destruct (teamMemberIds ownerId db).
Qed.

(** C5. With both catalogs loaded, a team-progress request is answered 200
    and leaves the store alone.  The members are the requester and those
    the team document lists.  The hidden teammates are the members, other
    than the requester, that the requester's own [teamHide] marks true:
    each once, never the requester.  Every member with a progress
    document, hidden or not, has its formatted progress in [data], and
    [data] is the same whatever the [teamHide] maps say. *)
Theorem getTeamProgress_hidden_is_metadata (req : Request) (db : Db)
    (ownerId : string) (hideoutData : HideoutData) (taskData : TaskData) :
  authorized req "TP" = Some ownerId →
  getHideoutData = inr (Some hideoutData) →
  getTaskData = inr (Some taskData) →
  let r := getTeamProgress getTaskData getHideoutData formatProgress req db in
  let memberIds := (teamMemberIds ownerId db).1 in
  let hiddenTeammatesMap : gmap string bool :=
    default ∅ (userDocs db !! ownerId ≫= teamHide) in
  ∃ tp : TeamProgress,
    status r = 200%Z ∧ payload r = Json tp ∧ db_after r = db
    ∧ self tp = ownerId
    ∧ (∀ id, id ∈ memberIds
             ↔ id = ownerId
               ∨ ∃ teamId teamData ms,
                   systemDocs db !! ownerId ≫= team = Some teamId
                   ∧ teamId ≠ EmptyString
                   ∧ teamDocs db !! teamId = Some teamData
                   ∧ members teamData = Some ms
                   ∧ id ∈ ms)
    ∧ (∀ id, id ∈ hiddenTeammates tp
             ↔ id ∈ memberIds ∧ id ≠ ownerId
               ∧ hiddenTeammatesMap !! id = Some true)
    ∧ NoDup (hiddenTeammates tp)
    ∧ (ownerId ∉ hiddenTeammates tp)
    ∧ (∀ id doc, id ∈ memberIds → progressDocs db !! id = Some doc →
                 formatProgress doc id hideoutData taskData ∈ data tp)
    ∧ (∀ hides : gmap string UserDocData,
         ∃ tp' : TeamProgress,
           payload (getTeamProgress getTaskData getHideoutData formatProgress
                      req (with_userDocs db hides)) = Json tp'
           ∧ data tp' = data tp).
Proof.
  intros Hauth Hh Ht. cbv zeta.
  destruct (getTeamProgress_loaded req db ownerId hideoutData taskData)
    as (Hs & Hdb & Hp); [done .. |].
  eexists. split; [exact Hs |]. split; [exact Hp |]. split; [exact Hdb |].
  cbn [data self hiddenTeammates].
  split; [done |].
  split; [apply elem_of_teamMemberIds |].
  split; [apply elem_of_hiddenOf |].
  split; [apply NoDup_filter_list, teamMemberIds_NoDup |].
  split; [rewrite elem_of_hiddenOf; tauto |].
  split.
  - intros id doc Hid Hdoc. apply list_elem_of_omap.
    exists (id, Some doc). split; [| done].
    rewrite list_elem_of_In, in_map_iff. exists id.
    rewrite <- list_elem_of_In. by rewrite Hdoc.
  - intros hides.
    destruct (getTeamProgress_loaded req (with_userDocs db hides) ownerId
                hideoutData taskData) as (_ & _ & Hp'); [done .. |].
    eexists. split; [exact Hp' |]. done.
Qed.

End Team.

Lemma getTeamProgress_hidden_is_metadata_witness :
  ∃ tp : TeamProgress,
    payload
      (getTeamProgress (TaskData := unit) (HideoutData := unit)
         (inr (Some tt)) (inr (Some tt)) (fun doc id _ _ => (id, doc))
         team_request team_db) = Json tp
    ∧ "bob" ∈ hiddenTeammates tp
    ∧ ("alice" ∉ hiddenTeammates tp)
    ∧ ("bob", [("level", VNum 20)]) ∈ data tp.
Proof.
  destruct (getTeamProgress_hidden_is_metadata (TaskData := unit)
              (HideoutData := unit) (inr (Some tt)) (inr (Some tt))
              (fun doc id _ _ => (id, doc)) team_request team_db "alice" tt tt)
    as (tp & _ & Hp & _ & _ & _ & Hhidden & _ & Hself & Hdata & _);
    [vm_compute; reflexivity .. |].
  exists tp. split; [exact Hp |]. split; [| split; [exact Hself |]].
  - apply Hhidden. split; [compute_done |]. split; [discriminate |].
    vm_compute; reflexivity.
  - apply (Hdata "bob" [("level", VNum 20)]); [compute_done |].
    vm_compute; reflexivity.
Defined.

End TeamFacts.

(** ** Migration *)

Module MigrationFacts.

Import Js Store Samples.

Section Migration.

Variable migrateToGameModeStructure : Js.value → Js.value.
Variable patch : Js.value → Js.value → Js.value.
Variable uid : option string.

(** When the check says no, the call does nothing at all. *)
Lemma migrateDataIfNeeded_skips (this : Js.value) :
  needsMigration this = false →
  migrateDataIfNeeded migrateToGameModeStructure patch uid this = (this, []).
Proof. intros H. unfold migrateDataIfNeeded. by rewrite H. Qed.

(** C2. On a state in the dual-mode shape, that is with [currentGameMode]
    set to a mode, [pvp] and [pve] both objects, and no top-level [level]
    unless [pvp] carries a level of its own (a number other than 0, levels
    starting at 1), the check finds nothing to migrate: the state is
    returned as it is, nothing is patched, nothing is written, and so for
    any number of calls. *)
Theorem migrateDataIfNeeded_idempotent (this : Js.value) (mode : string)
    (pvpProps pveProps : list (string * Js.value)) :
  prop this "currentGameMode" = Str mode →
  mode = "pvp" ∨ mode = "pve" →
  prop this "pvp" = Obj pvpProps →
  prop this "pve" = Obj pveProps →
  (prop this "level" = Undefined
   ∨ ∃ n, prop (Obj pvpProps) "level" = Num n ∧ n ≠ 0%Z) →
  needsMigration this = false
  ∧ migrateDataIfNeeded migrateToGameModeStructure patch uid this = (this, [])
  ∧ ∀ calls : nat,
      Nat.iter calls
        (fun s => (migrateDataIfNeeded migrateToGameModeStructure patch uid s).1)
        this = this.
Proof.
  intros Hmode Hm Hpvp Hpve Hlevel.
  assert (Hno : needsMigration this = false).
  { unfold needsMigration. rewrite Hmode, Hpvp, Hpve.
    destruct Hm as [-> | ->]; cbn [truthy negb orb String.eqb Ascii.eqb Bool.eqb].
    - destruct Hlevel as [-> | (n & -> & Hn)]; [done |].
      cbn. apply Z.eqb_neq in Hn. rewrite Hn. by destruct (prop this "level").
    - destruct Hlevel as [-> | (n & -> & Hn)]; [done |].
      cbn. apply Z.eqb_neq in Hn. rewrite Hn. by destruct (prop this "level"). }
  split; [done |]. split; [by apply migrateDataIfNeeded_skips |].
  induction calls as [|calls IH]; [done |].
  rewrite Nat.iter_succ, IH. by rewrite migrateDataIfNeeded_skips.
Qed.

End Migration.

Lemma migrateDataIfNeeded_idempotent_witness :
  needsMigration migrated_state = false
  ∧ migrateDataIfNeeded (fun _ => Undefined) (fun _ p => p) (Some "u1")
      migrated_state = (migrated_state, [])
  ∧ ∀ calls : nat,
      Nat.iter calls
        (fun s => (migrateDataIfNeeded (fun _ => Undefined) (fun _ p => p)
                     (Some "u1") s).1)
        migrated_state = migrated_state.
Proof.
  apply (migrateDataIfNeeded_idempotent (fun _ => Undefined) (fun _ p => p)
           (Some "u1") migrated_state "pvp"
           [("level", Num 10);
            ("taskCompletions", Obj [("t1", Obj [("complete", Bool true)])])]
           [("level", Num 1); ("taskCompletions", Obj [])]).
  - reflexivity.
  - left; reflexivity.
  - reflexivity.
  - reflexivity.
  - right. exists 10%Z. split; [reflexivity | lia].
Defined.

(** The check reads [pvp.level] for its truth value: next to a top-level
    [level], a [pvp.level] of 0 counts as none and the state is migrated
    again. *)
Example zero_level_needs_migration :
  needsMigration
    (Obj [("currentGameMode", Str "pvp"); ("level", Num 10);
          ("pvp", Obj [("level", Num 0)]); ("pve", Obj [("level", Num 1)])])
  = true.
Proof. reflexivity. Qed.

(** A legacy record is migrated: the check is not vacuous. *)
Example legacy_record_needs_migration :
  needsMigration
    (Obj [("level", Num 10);
          ("taskCompletions", Obj [("t1", Obj [("complete", Bool true)])])])
  = true.
Proof. reflexivity. Qed.

End MigrationFacts.

(** ** The hideout graph *)

Module HideoutFacts.

Import Hideout HideoutNotions HideoutSamples.

(** *** Loops as folds *)

Section Folds.

Context {S A B : Type}.
Variable f : S → A → S.
Variable proj : S → list B.
Variable adds : A → B → Prop.

(** What a loop has collected is what it started with and what each round
    adds. *)
Lemma fold_left_collects :
  (∀ acc a b, b ∈ proj (f acc a) ↔ b ∈ proj acc ∨ adds a b) →
  ∀ l acc b,
    b ∈ proj (fold_left f l acc) ↔ b ∈ proj acc ∨ ∃ a, a ∈ l ∧ adds a b.
Proof.
  intros Hstep l. induction l as [|a l IH]; intros acc b; cbn [fold_left].
  - split; [by left |]. intros [? | (a & Ha & _)]; [done |].
    by apply elem_of_nil in Ha.
  - rewrite IH, Hstep. split.
    + intros [[? | ?] | (a' & ? & ?)].
      * by left.
      * right. exists a. split; [left | done].
      * right. exists a'. split; [by right | done].
    + intros [? | (a' & Ha' & ?)]; [by left; left |].
      apply elem_of_cons in Ha' as [-> | ?]; [by left; right |].
      right. by exists a'.
Qed.

Lemma fold_left_keeps (I : S → Prop) :
  (∀ acc a, I acc → I (f acc a)) →
  ∀ l acc, I acc → I (fold_left f l acc).
Proof.
  intros Hstep l. induction l as [|a l IH]; intros acc Hacc; cbn; [done |].
  by apply IH, Hstep.
Qed.

End Folds.

(** *** The helpers *)

Lemma safeAddNode_nodes g n x : x ∈ nodes (safeAddNode g n) ↔ x ∈ nodes g ∨ x = n.
Proof.
  unfold safeAddNode. case_bool_decide as Hn; cbn.
  - split; [by left |]. by intros [? | ->].
  - by rewrite elem_of_app, list_elem_of_singleton.
Qed.

Lemma safeAddNode_edges g n : edges (safeAddNode g n) = edges g.
Proof. unfold safeAddNode. by case_bool_decide. Qed.

Lemma safeAddEdge_nodes g a b : nodes (safeAddEdge g a b) = nodes g.
Proof. unfold safeAddEdge. by case_bool_decide. Qed.

Lemma safeAddEdge_edges g a b e :
  e ∈ edges (safeAddEdge g a b) ↔ e ∈ edges g ∨ e = (a, b).
Proof.
  unfold safeAddEdge. case_bool_decide as Hn; cbn.
  - split; [by left |]. by intros [? | ->].
  - by rewrite elem_of_app, list_elem_of_singleton.
Qed.

Lemma safeAddEdge_NoDup g a b : NoDup (edges g) → NoDup (edges (safeAddEdge g a b)).
Proof.
  intros Hnd. unfold safeAddEdge. case_bool_decide as Hn; cbn; [done |].
  apply NoDup_app. split; [done |]. split; [| apply NoDup_singleton].
  intros e He ->%list_elem_of_singleton. done.
Qed.

Lemma elem_of_getPredecessors g n p : p ∈ getPredecessors g n ↔ (p, n) ∈ edges g.
Proof.
  unfold getPredecessors.
  rewrite list_elem_of_In, in_map_iff. split.
  - intros ([a b] & <- & Hin). apply filter_In in Hin as [Hin Heq].
    cbn in *. apply String.eqb_eq in Heq as ->. by apply list_elem_of_In.
  - intros Hin. exists (p, n). split; [done |].
    apply filter_In. split; [by apply list_elem_of_In |].
    cbn. apply String.eqb_refl.
Qed.

Lemma getPredecessors_NoDup g n : NoDup (edges g) → NoDup (getPredecessors g n).
Proof.
  unfold getPredecessors. induction 1 as [|[a b] l Hx _ IH]; cbn; [constructor |].
  destruct (String.eqb b n) eqn:E; cbn; [| done].
  apply String.eqb_eq in E as ->. constructor; [| done].
  intros Hin. apply Hx.
  apply list_elem_of_In, in_map_iff in Hin as ([a' b'] & Ha & Hin).
  apply filter_In in Hin as [Hin Heq]. cbn in *.
  apply String.eqb_eq in Heq as ->. subst a'. by apply list_elem_of_In.
Qed.

(** *** Resolving a requirement *)

Lemma requiredLevelId_some stations ref r a :
  requiredLevelId stations ref r = Some a →
  ∃ s lvl,
    s ∈ stations ∧ station_id s = ref ∧ lvl ∈ levels s
    ∧ level lvl = required r ∧ id lvl = a.
Proof.
  unfold requiredLevelId. intros H.
  destruct (find _ stations) as [s|] eqn:Es; [| done]. cbn in H.
  destruct (find _ (levels s)) as [lvl|] eqn:El; [| done]. cbn in H.
  destruct (String.eqb (id lvl) EmptyString); [done |]. injection H as <-.
  apply find_some in Es as [Hs Hid]. apply find_some in El as [Hl Hlevel].
  exists s, lvl. rewrite <- !list_elem_of_In in *.
  apply String.eqb_eq in Hid. apply Z.eqb_eq in Hlevel. done.
Qed.

Lemma requiredLevelId_none stations ref r :
  (∀ s lvl, s ∈ stations → station_id s = ref → lvl ∈ levels s →
            level lvl ≠ required r) →
  requiredLevelId stations ref r = None.
Proof.
  intros Hno. unfold requiredLevelId.
  destruct (find _ stations) as [s|] eqn:Es; [| done]. cbn.
  destruct (find _ (levels s)) as [lvl|] eqn:El; [| done]. exfalso.
  apply find_some in Es as [Hs Hid]. apply find_some in El as [Hl Hlevel].
  rewrite <- !list_elem_of_In in *.
  apply String.eqb_eq in Hid. apply Z.eqb_eq in Hlevel.
  by apply (Hno s lvl).
Qed.

(** *** What one requirement adds *)

Lemma addRequirement_cases stations lvl acc r :
  (∃ a, resolves stations r a
        ∧ addRequirement stations lvl acc r
          = (safeAddEdge (safeAddNode acc.1 a) a (id lvl), acc.2))
  ∨ (∃ w, unresolved stations lvl r w
          ∧ addRequirement stations lvl acc r = (acc.1, acc.2 ++ [w]))
  ∨ ((∀ a, ¬ resolves stations r a) ∧ (∀ w, ¬ unresolved stations lvl r w)
     ∧ addRequirement stations lvl acc r = acc).
Proof.
  unfold addRequirement, resolves, unresolved.
  destruct (station r) as [ref|] eqn:Er; cbn [Js.truthy_str].
  - destruct (String.eqb ref EmptyString) eqn:E;
      cbn [negb default from_option Datatypes.id].
    + apply String.eqb_eq in E as ->. right; right.
      split; [| split; [| done]].
      * intros a (ref & [= <-] & Hne & _). done.
      * intros w (ref & [= <-] & Hne & _). done.
    + apply String.eqb_neq in E.
      destruct (requiredLevelId stations ref r) as [a|] eqn:Ea.
      * left. exists a. split; [| reflexivity]. by exists ref.
      * right; left. eexists. split; [| reflexivity]. by exists ref.
  - right; right. split; [| split; [| done]].
    + by intros a (ref & ? & _).
    + by intros w (ref & ? & _).
Qed.

Lemma addRequirement_edges stations lvl acc r e :
  e ∈ edges (addRequirement stations lvl acc r).1
  ↔ e ∈ edges acc.1 ∨ ∃ a, resolves stations r a ∧ e = (a, id lvl).
Proof.
  destruct (addRequirement_cases stations lvl acc r)
    as [(a & Ha & ->) | [(w & Hw & ->) | (Hno & _ & ->)]]; cbn [fst].
  - rewrite safeAddEdge_edges, safeAddNode_edges. split.
    + intros [? | ->]; [by left | right; by exists a].
    + intros [? | (a' & (ref' & Hr' & _ & Ha') & ->)]; [by left |].
      destruct Ha as (ref & Hr & _ & Ha). right. congruence.
  - split; [by left |]. intros [? | (a & Ha & _)]; [done |].
    destruct Hw as (ref & Hr & _ & Hnone & _), Ha as (ref' & Hr' & _ & Ha).
    congruence.
  - split; [by left |]. intros [? | (a & Ha & _)]; [done |]. by apply Hno in Ha.
Qed.

Lemma addRequirement_nodes stations lvl acc r n :
  n ∈ nodes (addRequirement stations lvl acc r).1
  ↔ n ∈ nodes acc.1 ∨ resolves stations r n.
Proof.
  destruct (addRequirement_cases stations lvl acc r)
    as [(a & Ha & ->) | [(w & Hw & ->) | (Hno & _ & ->)]]; cbn [fst].
  - rewrite safeAddEdge_nodes, safeAddNode_nodes. split.
    + intros [? | ->]; [by left | by right].
    + intros [? | (ref' & Hr' & _ & Ha')]; [by left |].
      destruct Ha as (ref & Hr & _ & Ha). right. congruence.
  - split; [by left |]. intros [? | Ha]; [done |].
    destruct Hw as (ref & Hr & _ & Hnone & _), Ha as (ref' & Hr' & _ & Ha).
    congruence.
  - split; [by left |]. intros [? | Ha]; [done |]. by apply Hno in Ha.
Qed.

Lemma addRequirement_warnings stations lvl acc r w :
  w ∈ (addRequirement stations lvl acc r).2
  ↔ w ∈ acc.2 ∨ unresolved stations lvl r w.
Proof.
  destruct (addRequirement_cases stations lvl acc r)
    as [(a & Ha & ->) | [(w' & Hw & ->) | (_ & Hno & ->)]]; cbn [snd].
  - split; [by left |]. intros [? | Hw]; [done |].
    destruct Hw as (ref & Hr & _ & Hnone & _), Ha as (ref' & Hr' & _ & Ha).
    congruence.
  - rewrite elem_of_app, list_elem_of_singleton. split.
    + intros [? | ->]; [by left | by right].
    + intros [? | Hw2]; [by left |]. right.
      destruct Hw as (ref & Hr & _ & _ & ->), Hw2 as (ref' & Hr' & _ & _ & ->).
      congruence.
  - split; [by left |]. intros [? | Hw]; [done |]. by apply Hno in Hw.
Qed.

Lemma addRequirement_NoDup stations lvl acc r :
  NoDup (edges acc.1) → NoDup (edges (addRequirement stations lvl acc r).1).
Proof.
  intros Hnd.
  destruct (addRequirement_cases stations lvl acc r)
    as [(a & _ & ->) | [(w & _ & ->) | (_ & _ & ->)]]; cbn [fst]; [| done ..].
  apply safeAddEdge_NoDup. by rewrite safeAddNode_edges.
Qed.

(** *** What a level, a station and the whole catalog add *)

Lemma addLevel_edges stations acc lvl e :
  e ∈ edges (addLevel stations acc lvl).1
  ↔ e ∈ edges acc.1
    ∨ ∃ r, r ∈ stationLevelRequirements lvl
           ∧ ∃ a, resolves stations r a ∧ e = (a, id lvl).
Proof.
  unfold addLevel.
  rewrite (fold_left_collects _ (fun acc => edges acc.1)
             (fun r e => ∃ a, resolves stations r a ∧ e = (a, id lvl)))
    by apply addRequirement_edges.
  cbn [fst]. by rewrite safeAddNode_edges.
Qed.

Lemma addLevel_nodes stations acc lvl n :
  n ∈ nodes (addLevel stations acc lvl).1
  ↔ n ∈ nodes acc.1 ∨ n = id lvl
    ∨ ∃ r, r ∈ stationLevelRequirements lvl ∧ resolves stations r n.
Proof.
  unfold addLevel.
  rewrite (fold_left_collects _ (fun acc => nodes acc.1)
             (fun r n => resolves stations r n))
    by apply addRequirement_nodes.
  cbn [fst]. rewrite safeAddNode_nodes. tauto.
Qed.

Lemma addLevel_warnings stations acc lvl w :
  w ∈ (addLevel stations acc lvl).2
  ↔ w ∈ acc.2
    ∨ ∃ r, r ∈ stationLevelRequirements lvl ∧ unresolved stations lvl r w.
Proof.
  unfold addLevel.
  by rewrite (fold_left_collects _ (fun acc => acc.2)
                (fun r w => unresolved stations lvl r w))
    by apply addRequirement_warnings.
Qed.

Lemma addLevel_NoDup stations acc lvl :
  NoDup (edges acc.1) → NoDup (edges (addLevel stations acc lvl).1).
Proof.
  intros Hnd. unfold addLevel.
  apply (fold_left_keeps _ (fun acc => NoDup (edges acc.1))).
  - intros acc' r. apply addRequirement_NoDup.
  - cbn [fst]. by rewrite safeAddNode_edges.
Qed.

Lemma addStation_edges stations acc s e :
  e ∈ edges (addStation stations acc s).1
  ↔ e ∈ edges acc.1
    ∨ ∃ lvl, lvl ∈ levels s
             ∧ ∃ r, r ∈ stationLevelRequirements lvl
                    ∧ ∃ a, resolves stations r a ∧ e = (a, id lvl).
Proof.
  unfold addStation.
  by rewrite (fold_left_collects _ (fun acc => edges acc.1)
                (fun lvl e => ∃ r, r ∈ stationLevelRequirements lvl
                                   ∧ ∃ a, resolves stations r a ∧ e = (a, id lvl)))
    by apply addLevel_edges.
Qed.

Lemma addStation_nodes stations acc s n :
  n ∈ nodes (addStation stations acc s).1
  ↔ n ∈ nodes acc.1
    ∨ ∃ lvl, lvl ∈ levels s
             ∧ (n = id lvl
                ∨ ∃ r, r ∈ stationLevelRequirements lvl ∧ resolves stations r n).
Proof.
  unfold addStation.
  by rewrite (fold_left_collects _ (fun acc => nodes acc.1)
                (fun lvl n => n = id lvl
                   ∨ ∃ r, r ∈ stationLevelRequirements lvl
                          ∧ resolves stations r n))
    by apply addLevel_nodes.
Qed.

Lemma addStation_warnings stations acc s w :
  w ∈ (addStation stations acc s).2
  ↔ w ∈ acc.2
    ∨ ∃ lvl, lvl ∈ levels s
             ∧ ∃ r, r ∈ stationLevelRequirements lvl
                    ∧ unresolved stations lvl r w.
Proof.
  unfold addStation.
  by rewrite (fold_left_collects _ (fun acc => acc.2)
                (fun lvl w => ∃ r, r ∈ stationLevelRequirements lvl
                                   ∧ unresolved stations lvl r w))
    by apply addLevel_warnings.
Qed.

Lemma addStation_NoDup stations acc s :
  NoDup (edges acc.1) → NoDup (edges (addStation stations acc s).1).
Proof.
  unfold addStation.
  apply (fold_left_keeps _ (fun acc => NoDup (edges acc.1))).
  intros acc' lvl. apply addLevel_NoDup.
Qed.

Lemma buildHideoutGraph_edges stations e :
  e ∈ edges (buildHideoutGraph stations).1
  ↔ ∃ s, s ∈ stations
         ∧ ∃ lvl, lvl ∈ levels s
                  ∧ ∃ r, r ∈ stationLevelRequirements lvl
                         ∧ ∃ a, resolves stations r a ∧ e = (a, id lvl).
Proof.
  unfold buildHideoutGraph.
  rewrite (fold_left_collects _ (fun acc => edges acc.1)
             (fun s e => ∃ lvl, lvl ∈ levels s
                ∧ ∃ r, r ∈ stationLevelRequirements lvl
                       ∧ ∃ a, resolves stations r a ∧ e = (a, id lvl)))
    by apply addStation_edges.
  cbn. split; [| by right]. intros [?%elem_of_nil | ?]; done.
Qed.

Lemma buildHideoutGraph_nodes stations n :
  n ∈ nodes (buildHideoutGraph stations).1
  ↔ ∃ s, s ∈ stations
         ∧ ∃ lvl, lvl ∈ levels s
                  ∧ (n = id lvl
                     ∨ ∃ r, r ∈ stationLevelRequirements lvl
                            ∧ resolves stations r n).
Proof.
  unfold buildHideoutGraph.
  rewrite (fold_left_collects _ (fun acc => nodes acc.1)
             (fun s n => ∃ lvl, lvl ∈ levels s
                ∧ (n = id lvl
                   ∨ ∃ r, r ∈ stationLevelRequirements lvl
                          ∧ resolves stations r n)))
    by apply addStation_nodes.
  cbn. split; [| by right]. intros [?%elem_of_nil | ?]; done.
Qed.

Lemma buildHideoutGraph_warnings stations w :
  w ∈ (buildHideoutGraph stations).2
  ↔ ∃ s, s ∈ stations
         ∧ ∃ lvl, lvl ∈ levels s
                  ∧ ∃ r, r ∈ stationLevelRequirements lvl
                         ∧ unresolved stations lvl r w.
Proof.
  unfold buildHideoutGraph.
  rewrite (fold_left_collects _ (fun acc => acc.2)
             (fun s w => ∃ lvl, lvl ∈ levels s
                ∧ ∃ r, r ∈ stationLevelRequirements lvl
                       ∧ unresolved stations lvl r w))
    by apply addStation_warnings.
  cbn. split; [| by right]. intros [?%elem_of_nil | ?]; done.
Qed.

Lemma buildHideoutGraph_NoDup stations :
  NoDup (edges (buildHideoutGraph stations).1).
Proof.
  unfold buildHideoutGraph.
  apply (fold_left_keeps _ (fun acc => NoDup (edges acc.1))).
  - intros acc s. apply addStation_NoDup.
  - constructor.
Qed.

(** Every node of the graph is the id of a level of the catalog. *)
Lemma buildHideoutGraph_node_is_level stations n :
  n ∈ nodes (buildHideoutGraph stations).1 →
  ∃ s lvl, s ∈ stations ∧ lvl ∈ levels s ∧ id lvl = n.
Proof.
  intros (s & Hs & lvl & Hl & [-> | (r & _ & ref & _ & _ & Hres)])
    %buildHideoutGraph_nodes.
  - by exists s, lvl.
  - apply requiredLevelId_some in Hres as (s' & lvl' & ? & _ & ? & _ & ?).
    by exists s', lvl'.
Qed.

Ltac listed H :=
  repeat (apply elem_of_cons in H as [H | H]);
  try (by apply elem_of_nil in H); simplify_eq.


(** *** The first match *)

Lemma find_first {A : Type} (p : A → bool) (l : list A) (x : A) :
  List.find p l = Some x
  ↔ ∃ before after,
      l = before ++ x :: after
      ∧ (∀ y, y ∈ before → p y = false) ∧ p x = true.
Proof.
  induction l as [|z l IH]; cbn.
  - split; [done |]. intros (before & after & H & _). by destruct before.
  - destruct (p z) eqn:Ez.
    + split.
      * intros [= <-]. exists [], l. split; [done |].
        split; [by intros y ?%elem_of_nil | done].
      * intros ([|y before] & after & Hl & Hno & Hx).
        -- by injection Hl as ->.
        -- injection Hl as <- _. rewrite Hno in Ez by by left. done.
    + rewrite IH. split.
      * intros (before & after & -> & Hno & Hx). exists (z :: before), after.
        split; [done |]. split; [| done].
        intros y [-> | ?]%elem_of_cons; [done | by apply Hno].
      * intros ([|y before] & after & Hl & Hno & Hx).
        -- injection Hl as -> _. by rewrite Hx in Ez.
        -- injection Hl as <- ->. exists before, after.
           split; [done |]. split; [| done].
           intros y' ?. apply Hno. by right.
Qed.

(** A requirement resolves to the id of the level it designates, when that
    id is not empty, and to nothing otherwise. *)
Lemma requiredLevelId_designates stations ref r a :
  requiredLevelId stations ref r = Some a
  ↔ ∃ target, designates stations ref r target
              ∧ id target = a ∧ a ≠ EmptyString.
Proof.
  unfold requiredLevelId, designates. split.
  - intros H.
    destruct (find _ stations) as [s|] eqn:Es; [| done]. cbn in H.
    destruct (find _ (levels s)) as [lvl|] eqn:El; [| done]. cbn in H.
    destruct (String.eqb (id lvl) EmptyString) eqn:Eid; [done |].
    injection H as <-. apply String.eqb_neq in Eid.
    apply find_first in Es as (before & after & -> & Hno & Hs).
    apply find_first in El as (below & above & Hl & Hno' & Hlvl).
    apply String.eqb_eq in Hs. apply Z.eqb_eq in Hlvl.
    exists lvl. split; [| done].
    exists before, s, after, below, above.
    split; [done |]. split.
    { intros s' Hs'. apply String.eqb_neq. by apply Hno. }
    split; [done |]. split; [done |]. split; [| done].
    intros l Hl'. apply Z.eqb_neq. by apply Hno'.
  - intros (target & (before & s & after & below & above
                      & -> & Hno & Hs & Hl & Hno' & Hlvl) & <- & Hid).
    assert (find (fun s0 => String.eqb (station_id s0) ref)
              (before ++ s :: after) = Some s) as ->.
    { apply find_first. exists before, after. split; [done |].
      split; [| by apply String.eqb_eq].
      intros s' Hs'. apply String.eqb_neq. by apply Hno. }
    cbn.
    assert (find (fun l => (level l =? required r)%Z) (levels s)
            = Some target) as ->.
    { apply find_first. exists below, above. split; [done |].
      split; [| by apply Z.eqb_eq].
      intros l Hl'. apply Z.eqb_neq. by apply Hno'. }
    cbn. apply String.eqb_neq in Hid. by rewrite Hid.
Qed.

Lemma requiredLevelId_undesignated stations ref r :
  requiredLevelId stations ref r = None
  ↔ ∀ target, designates stations ref r target → id target = EmptyString.
Proof.
  split.
  - intros Hnone target Hd.
    destruct (decide (id target = EmptyString)) as [| Hne]; [done |].
    assert (requiredLevelId stations ref r = Some (id target)) as Hsome
      by (apply requiredLevelId_designates; by exists target).
    congruence.
  - intros Hall. destruct (requiredLevelId stations ref r) as [a|] eqn:E;
      [| done].
    apply requiredLevelId_designates in E as (target & Hd & <- & Hne).
    by destruct Hne, (Hall target).
Qed.

(** Where station ids and the level numbers of a station do not repeat,
    the level designated is the level that matches. *)
Lemma designates_match stations ref r s lvl :
  NoDup (station_id <$> stations) →
  NoDup (level <$> levels s) →
  s ∈ stations → station_id s = ref →
  lvl ∈ levels s → level lvl = required r →
  designates stations ref r lvl.
Proof.
  intros Hnd Hnd' Hs Hid Hl Hlvl.
  apply list_elem_of_split in Hs as (before & after & ->).
  apply list_elem_of_split in Hl as (below & above & Hlevels).
  exists before, s, after, below, above.
  split; [done |]. split; [| split; [done |]; split; [done |]; split; [| done]].
  - intros s' Hs' Heq. rewrite fmap_app, fmap_cons in Hnd.
    apply NoDup_app in Hnd as (_ & Hdisj & _).
    apply (Hdisj (station_id s')).
    + by apply list_elem_of_fmap_2.
    + rewrite Heq, <- Hid. by left.
  - intros l Hl' Heq. rewrite Hlevels, fmap_app, fmap_cons in Hnd'.
    apply NoDup_app in Hnd' as (_ & Hdisj & _).
    apply (Hdisj (level l)).
    + by apply list_elem_of_fmap_2.
    + rewrite Heq, <- Hlvl. by left.
Qed.

(** C7. The graph has a node for every level of every station, whatever
    becomes of the level's requirements.  A requirement that names a
    station designates a level by the declared number, not by the place in
    the list: the first level carrying the required number in the first
    station carrying the referenced id, which is the level that matches
    where ids and numbers do not repeat.  The edges are exactly the pairs
    (designated level, dependent level) of the requirements whose
    designated level has an id: when the match exists the edge is there.
    The warnings are exactly those of the requirements that name a station
    and designate no such level: one requirement costs one edge and
    nothing else. *)
Theorem buildHideoutGraph_skips_single_edge (stations : list HideoutStation) :
  let g := (buildHideoutGraph stations).1 in
  let warnings := (buildHideoutGraph stations).2 in
  (∀ s lvl, s ∈ stations → lvl ∈ levels s → id lvl ∈ nodes g)
  ∧ (∀ a b,
       (a, b) ∈ edges g
       ↔ ∃ s lvl r ref target,
           s ∈ stations ∧ lvl ∈ levels s ∧ r ∈ stationLevelRequirements lvl
           ∧ station r = Some ref ∧ ref ≠ EmptyString
           ∧ designates stations ref r target
           ∧ id target = a ∧ a ≠ EmptyString ∧ b = id lvl)
  ∧ (∀ w,
       w ∈ warnings
       ↔ ∃ s lvl r ref,
           s ∈ stations ∧ lvl ∈ levels s ∧ r ∈ stationLevelRequirements lvl
           ∧ station r = Some ref ∧ ref ≠ EmptyString
           ∧ (∀ target, designates stations ref r target →
                        id target = EmptyString)
           ∧ w = {| wanted_station := ref; wanted_level := required r;
                    needed_by := id lvl |})
  ∧ (∀ ref r a,
       requiredLevelId stations ref r = Some a
       ↔ ∃ target, designates stations ref r target
                   ∧ id target = a ∧ a ≠ EmptyString)
  ∧ (∀ ref r s lvl,
       NoDup (station_id <$> stations) →
       NoDup (level <$> levels s) →
       s ∈ stations → station_id s = ref →
       lvl ∈ levels s → level lvl = required r →
       designates stations ref r lvl)
  ∧ (∀ ref r,
       (∀ s lvl, s ∈ stations → station_id s = ref → lvl ∈ levels s →
                 level lvl ≠ required r) →
       ∀ target, ¬ designates stations ref r target).
Proof.
  cbv zeta. split; [| split; [| split; [| split; [| split]]]].
  - intros s lvl Hs Hl. apply buildHideoutGraph_nodes.
    exists s. split; [done |]. exists lvl. split; [done |]. by left.
  - intros a b. rewrite buildHideoutGraph_edges. unfold resolves. split.
    + intros (s & Hs & lvl & Hl & r & Hr & a' & (ref & ? & ? & Ha) & [= -> ->]).
      apply requiredLevelId_designates in Ha as (target & ? & ? & ?).
      by exists s, lvl, r, ref, target.
    + intros (s & lvl & r & ref & target & Hs & Hl & Hr & ? & ? & ? & ? & ? & ->).
      exists s. split; [done |]. exists lvl. split; [done |].
      exists r. split; [done |]. exists a. split; [| done].
      exists ref. split; [done |]. split; [done |].
      apply requiredLevelId_designates. by exists target.
  - intros w. rewrite buildHideoutGraph_warnings. unfold unresolved. split.
    + intros (s & Hs & lvl & Hl & r & Hr & ref & ? & ? & Hn & ->).
      exists s, lvl, r, ref. by rewrite <- requiredLevelId_undesignated.
    + intros (s & lvl & r & ref & Hs & Hl & Hr & ? & ? & Hn & ->).
      exists s. split; [done |]. exists lvl. split; [done |].
      exists r. split; [done |]. exists ref.
      by rewrite requiredLevelId_undesignated.
  - apply requiredLevelId_designates.
  - intros ref r s lvl. apply designates_match.
  - intros ref r Hno target
      (before & s & after & below & above & -> & _ & Hs & Hl & _ & Hlvl).
    apply (Hno s target); [| done | | done].
    + apply elem_of_app. right. by left.
    + rewrite Hl. apply elem_of_app. right. by left.
Qed.

Lemma generator_1_designated :
  designates sample_catalog "generator" needs_generator_1 generator_1.
Proof.
  exists [], generator, [heating], [generator_2], [].
  split; [reflexivity |]. split; [by intros s' ?%elem_of_nil |].
  split; [reflexivity |]. split; [reflexivity |]. split; [| reflexivity].
  intros l ->%list_elem_of_singleton. discriminate.
Qed.

Lemma buildHideoutGraph_skips_single_edge_witness :
  "heating-1" ∈ nodes (buildHideoutGraph sample_catalog).1
  ∧ ("generator-1", "heating-1") ∈ edges (buildHideoutGraph sample_catalog).1
  ∧ {| wanted_station := "sauna"; wanted_level := 1; needed_by := "heating-1" |}
    ∈ (buildHideoutGraph sample_catalog).2
  ∧ {| wanted_station := "generator"; wanted_level := 7;
       needed_by := "heating-1" |}
    ∈ (buildHideoutGraph sample_catalog).2.
Proof.
  destruct (buildHideoutGraph_skips_single_edge sample_catalog)
    as (Hnodes & Hedges & Hwarn & _ & _ & Hnone).
  split; [| split; [| split]].
  - apply (Hnodes heating heating_1); [constructor 2; constructor 1 |].
    constructor 1.
  - apply Hedges.
    exists heating, heating_1, needs_generator_1, "generator", generator_1.
    split; [constructor 2; constructor 1 |]. split; [constructor 1 |].
    split; [constructor 1 |]. split; [reflexivity |].
    split; [discriminate |]. split; [apply generator_1_designated |].
    split; [reflexivity |]. split; [discriminate | reflexivity].
  - apply Hwarn. exists heating, heating_1, needs_unknown_station, "sauna".
    split; [constructor 2; constructor 1 |]. split; [constructor 1 |].
    split; [constructor 2; constructor 1 |]. split; [reflexivity |].
    split; [discriminate |]. split; [| reflexivity].
    intros target Hd. exfalso.
    refine (Hnone "sauna" needs_unknown_station _ target Hd).
    intros s lvl Hs Hid. listed Hs; try discriminate.
  - apply Hwarn. exists heating, heating_1, needs_generator_7, "generator".
    split; [constructor 2; constructor 1 |]. split; [constructor 1 |].
    split; [constructor 2; constructor 2; constructor 1 |].
    split; [reflexivity |]. split; [discriminate |]. split; [| reflexivity].
    intros target Hd. exfalso.
    refine (Hnone "generator" needs_generator_7 _ target Hd).
    intros s lvl Hs Hid Hl. listed Hs; try discriminate.
    cbn in Hl. listed Hl; discriminate.
Defined.

(** The whole graph of that catalog. *)
Example sample_catalog_graph :
  buildHideoutGraph sample_catalog
  = ({| nodes := ["generator-2"; "generator-1"; "heating-1"];
        edges := [("generator-1", "heating-1")] |},
     [{| wanted_station := "sauna"; wanted_level := 1;
         needed_by := "heating-1" |};
      {| wanted_station := "generator"; wanted_level := 7;
         needed_by := "heating-1" |}]).
Proof. vm_compute. reflexivity. Qed.

(** *** Construction time *)

Lemma getModuleById_some modules moduleId m :
  getModuleById modules moduleId = Some m →
  m ∈ modules ∧ id (of_level m) = moduleId.
Proof.
  unfold getModuleById. intros [Hin Heq]%find_some.
  split; [by apply list_elem_of_In | by apply String.eqb_eq].
Qed.


Lemma createHideoutModules_elem stations graph m :
  m ∈ createHideoutModules stations graph
  ↔ ∃ s lvl,
      s ∈ stations ∧ lvl ∈ levels s
      ∧ m = {| of_level := lvl; stationId := station_id s;
               predecessors := getPredecessors graph (id lvl);
               successors := getSuccessors graph (id lvl);
               parents := getParents graph (id lvl);
               children := getChildren graph (id lvl) |}.
Proof.
  unfold createHideoutModules. rewrite list_elem_of_In, in_flat_map. split.
  - intros (s & Hs & (lvl & <- & Hl)%in_map_iff).
    exists s, lvl. by rewrite !list_elem_of_In.
  - intros (s & lvl & Hs & Hl & ->). exists s.
    split; [by apply list_elem_of_In |]. apply in_map_iff.
    exists lvl. split; [done | by apply list_elem_of_In].
Qed.










End HideoutFacts.

(** ** What the write handlers answer and write *)

Module OutcomeFacts.

Import Js Firestore Handler Notions MoreNotions Samples MoreSamples StoreFacts
  TaskFacts.

Lemma authorized_none req perm :
  authorized req perm = None
  ↔ apiToken req = None
    ∨ ∃ t, apiToken req = Some t
           ∧ (owner t = EmptyString ∨ perm ∉ permissions t).
Proof.
  unfold authorized. destruct (apiToken req) as [t|]; [| by split; [left |]].
  destruct (String.eqb (owner t) EmptyString) eqn:E; cbn [negb andb].
  - apply String.eqb_eq in E. split; [| done]. intros _. right. exists t. tauto.
  - apply String.eqb_neq in E. case_bool_decide as Hp.
    + split; [done |]. intros [? | (t' & [= <-] & [? | ?])]; done.
    + split; [| done]. intros _. right. exists t. tauto.
Qed.

(** *** Writes that change nothing, and what a write leaves alone *)

Lemma assign_same {A : Type} k (a : A) l : assoc k l = Some a → assign k a l = l.
Proof.
  induction l as [|[k' a'] l IH]; cbn; [done |].
  destruct (String.eqb k k') eqn:E.
  - apply String.eqb_eq in E as ->. by intros [= ->].
  - intros H. by rewrite IH.
Qed.

Lemma remove_absent {A : Type} k (l : list (string * A)) :
  assoc k l = None → remove k l = l.
Proof.
  induction l as [|[k' a'] l IH]; cbn; [done |].
  destruct (String.eqb k k'); [done |]. intros H. by rewrite IH.
Qed.

Lemma assign_assign {A : Type} k (a b : A) l :
  assign k b (assign k a l) = assign k b l.
Proof.
  induction l as [|[k' a'] l IH]; cbn.
  - by rewrite String.eqb_refl.
  - destruct (String.eqb k k') eqn:E; cbn.
    + by rewrite String.eqb_refl.
    + by rewrite E, IH.
Qed.

(** Writing what is already there changes nothing. *)
Lemma set_same (p : list string) v fs :
  p ≠ [] → get p (VMap fs) = Some v → set p v fs = fs.
Proof.
  revert fs. induction p as [|k p IH]; intros fs Hp Hget; [done |].
  cbn [get] in Hget. destruct (assoc k fs) as [v'|] eqn:Ek; [| done].
  destruct p as [|k' p].
  - cbn in *. injection Hget as ->. by apply assign_same.
  - rewrite set_cons by done. rewrite Ek.
    destruct v' as [| | | |fs']; try done. cbn [sub].
    rewrite IH by done. by apply assign_same.
Qed.

Lemma delete_absent (p : list string) fs :
  p ≠ [] → get p (VMap fs) = None → delete p fs = fs.
Proof.
  revert fs. induction p as [|k p IH]; intros fs Hp Hget; [done |].
  cbn [get] in Hget. destruct p as [|k' p].
  - cbn in *. destruct (assoc k fs) eqn:Ek; [done |]. by apply remove_absent.
  - rewrite delete_cons by done.
    destruct (assoc k fs) as [[| | | |fs']|] eqn:Ek; try done.
    rewrite IH by done. by apply assign_same.
Qed.

(** The fields of a task lie under its record. *)
Lemma apply_task_frame state taskId t doc path pre a b p q :
  segments ("taskCompletions." +:+ taskId) = pre ++ a :: p →
  segments path = pre ++ b :: q →
  a ≠ b →
  field (fold_left Firestore.apply (taskFields state taskId t []) doc) path
  = field doc path.
Proof.
  intros Hrec Hpath Hab. unfold field. rewrite Hpath.
  assert (Hkey : ∀ leaf, segments leaf = [leaf] →
            segments (key "taskCompletions" taskId leaf)
            = pre ++ a :: (p ++ [leaf])).
  { intros leaf Hl. rewrite segments_key by done. unfold record_path.
    change ("taskCompletions." +:+ taskId)
      with ("taskCompletions" +:+ "." +:+ taskId) in Hrec.
    rewrite segments_app in Hrec. rewrite Hrec. by rewrite <- app_assoc. }
  destruct (String.eqb state "completed") eqn:E1;
    [| destruct (String.eqb state "failed") eqn:E2;
       [| destruct (String.eqb state "uncompleted") eqn:E3]].
  - apply String.eqb_eq in E1 as ->. rewrite taskFields_completed.
    cbn [fold_left Firestore.apply fst snd]. rewrite !Hkey by done.
    by rewrite !(get_set_off pre a b).
  - apply String.eqb_eq in E2 as ->. rewrite taskFields_failed.
    cbn [fold_left Firestore.apply fst snd]. rewrite !Hkey by done.
    by rewrite !(get_set_off pre a b).
  - apply String.eqb_eq in E3 as ->. rewrite taskFields_uncompleted.
    cbn [fold_left Firestore.apply fst snd]. rewrite !Hkey by done.
    by rewrite (get_delete_off pre a b), !(get_set_off pre a b).
  - unfold taskFields. by rewrite E1, E2, E3.
Qed.

Lemma apply_task_leaf state taskId t doc leaf :
  segments leaf = [leaf] →
  leaf ≠ "complete" → leaf ≠ "failed" → leaf ≠ "timestamp" →
  field (fold_left Firestore.apply (taskFields state taskId t []) doc)
    (key "taskCompletions" taskId leaf)
  = field doc (key "taskCompletions" taskId leaf).
Proof.
  intros Hleaf Hc Hf Ht. unfold field. rewrite segments_key by done.
  set (pre := record_path "taskCompletions" taskId).
  assert (Hkey : ∀ leaf', segments leaf' = [leaf'] →
            segments (key "taskCompletions" taskId leaf') = pre ++ [leaf']).
  { intros leaf' Hl. by rewrite segments_key. }
  destruct (String.eqb state "completed") eqn:E1;
    [| destruct (String.eqb state "failed") eqn:E2;
       [| destruct (String.eqb state "uncompleted") eqn:E3]].
  - apply String.eqb_eq in E1 as ->. rewrite taskFields_completed.
    cbn [fold_left Firestore.apply fst snd]. rewrite !Hkey by done.
    rewrite (get_set_off pre "timestamp" leaf [] []) by done.
    rewrite (get_set_off pre "failed" leaf [] []) by done.
    by rewrite (get_set_off pre "complete" leaf [] []).
  - apply String.eqb_eq in E2 as ->. rewrite taskFields_failed.
    cbn [fold_left Firestore.apply fst snd]. rewrite !Hkey by done.
    rewrite (get_set_off pre "timestamp" leaf [] []) by done.
    rewrite (get_set_off pre "failed" leaf [] []) by done.
    by rewrite (get_set_off pre "complete" leaf [] []).
  - apply String.eqb_eq in E3 as ->. rewrite taskFields_uncompleted.
    cbn [fold_left Firestore.apply fst snd]. rewrite !Hkey by done.
    rewrite (get_delete_off pre "timestamp" leaf [] []) by done.
    rewrite (get_set_off pre "failed" leaf [] []) by done.
    by rewrite (get_set_off pre "complete" leaf [] []).
  - unfold taskFields. by rewrite E1, E2, E3.
Qed.

(** X3. The write of a task's fields touches the requester's progress
    document only, and in it only the task's [complete], [failed] and
    [timestamp]: whatever lies off the path of the task's record, and any
    other field of the record, reads as before. *)
Theorem primaryWrite_frame (now : Z) (state taskId ownerId : string)
    (db : Db) (doc : Fields) :
  progressDocs db !! ownerId = Some doc →
  ∃ doc' : Fields,
    primaryWrite now state taskId ownerId db
    = Some (with_progress db ownerId doc')
    ∧ (∀ other, other ≠ ownerId →
         progressDocs (with_progress db ownerId doc') !! other
         = progressDocs db !! other)
    ∧ (∀ path pre a b p q,
         segments ("taskCompletions." +:+ taskId) = pre ++ a :: p →
         segments path = pre ++ b :: q →
         a ≠ b →
         field doc' path = field doc path)
    ∧ (∀ leaf,
         segments leaf = [leaf] →
         leaf ≠ "complete" → leaf ≠ "failed" → leaf ≠ "timestamp" →
         field doc' ("taskCompletions." +:+ taskId +:+ "." +:+ leaf)
         = field doc ("taskCompletions." +:+ taskId +:+ "." +:+ leaf)).
Proof.
  intros Hdoc. eexists. split; [by apply primaryWrite_exists |].
  split; [| split].
  - intros other Hne. cbn. by rewrite lookup_insert_ne.
  - intros path pre a b p q. apply apply_task_frame.
  - intros leaf. apply apply_task_leaf.
Qed.

(** The record of another task and the level survive a task update. *)
Lemma primaryWrite_frame_witness :
  ∃ doc' : Fields,
    primaryWrite 1800 "completed" "t2" "u1" sample_db
    = Some (with_progress sample_db "u1" doc')
    ∧ field doc' "level" = Some (VNum 12)
    ∧ field doc' "taskCompletions.t1.failed" = Some (VBool true)
    ∧ field doc' "taskCompletions.t2.complete" = Some (VBool true).
Proof.
  destruct (primaryWrite_frame 1800 "completed" "t2" "u1" sample_db sample_doc)
    as (doc' & Hw & _ & Hoff & _); [vm_compute; reflexivity |].
  exists doc'. split; [exact Hw |].
  split; [| split].
  - rewrite (Hoff "level" [] "taskCompletions" "level" ["t2"] []);
      [vm_compute; reflexivity | reflexivity | reflexivity | discriminate].
  - rewrite (Hoff "taskCompletions.t1.failed" ["taskCompletions"] "t2" "t1"
               [] ["failed"]);
      [vm_compute; reflexivity | reflexivity | reflexivity | discriminate].
  - revert Hw. vm_compute. intros [= <-]. reflexivity.
Defined.

(** X4. Sending the same task update again, with the same time, changes
    nothing: the document the first write commits is the document the
    second commits.  For [uncompleted], which stamps no time, this holds
    whenever the update is sent again. *)
Theorem task_update_twice (state taskId : string) (t t' : Z) (doc : Fields) :
  isValidTaskStatus (Str state) = true →
  let once := fold_left Firestore.apply (taskFields state taskId t []) doc in
  Firestore.update (taskFields state taskId t []) (Some once) = Some once
  ∧ (state = "uncompleted" →
     Firestore.update (taskFields state taskId t' []) (Some once) = Some once).
Proof.
  intros Hvalid. cbv zeta.
  assert (Hne : ∀ leaf, record_path "taskCompletions" taskId ++ [leaf] ≠ []).
  { intros leaf. by destruct (record_path "taskCompletions" taskId). }
  apply valid_status_cases in Hvalid as [-> | [-> | ->]].
  - destruct (update_uncompleted taskId t doc) as (Hc & Hf & Ht).
    cbv zeta in *. unfold field in *. rewrite !segments_key in * by done.
    assert (∀ u, Firestore.update (taskFields "uncompleted" taskId u [])
                   (Some (fold_left Firestore.apply
                            (taskFields "uncompleted" taskId t []) doc))
                 = Some (fold_left Firestore.apply
                           (taskFields "uncompleted" taskId t []) doc)) as Hu.
    { intros u. cbn [Firestore.update]. f_equal.
      rewrite (taskFields_uncompleted taskId u).
      cbn [fold_left Firestore.apply fst snd]. rewrite !segments_key by done.
      rewrite (set_same _ _ _ (Hne _) Hc), (set_same _ _ _ (Hne _) Hf).
      by rewrite (delete_absent _ _ (Hne _) Ht). }
    split; [apply Hu | intros _; apply Hu].
  - split; [| discriminate].
    destruct (update_stamped "completed" false taskId t doc
                (taskFields_completed taskId t)) as (Hc & Hf & Ht).
    cbv zeta in *. unfold field in *. rewrite !segments_key in * by done.
    cbn [Firestore.update]. f_equal.
    rewrite (taskFields_completed taskId t) at 1.
    cbn [fold_left Firestore.apply fst snd]. rewrite !segments_key by done.
    rewrite (set_same _ _ _ (Hne _) Hc), (set_same _ _ _ (Hne _) Hf).
    by rewrite (set_same _ _ _ (Hne _) Ht).
  - split; [| discriminate].
    destruct (update_stamped "failed" true taskId t doc
                (taskFields_failed taskId t)) as (Hc & Hf & Ht).
    cbv zeta in *. unfold field in *. rewrite !segments_key in * by done.
    cbn [Firestore.update]. f_equal.
    rewrite (taskFields_failed taskId t) at 1.
    cbn [fold_left Firestore.apply fst snd]. rewrite !segments_key by done.
    rewrite (set_same _ _ _ (Hne _) Hc), (set_same _ _ _ (Hne _) Hf).
    by rewrite (set_same _ _ _ (Hne _) Ht).
Qed.

Lemma task_update_twice_witness :
  let once :=
    fold_left Firestore.apply (taskFields "uncompleted" "t1" 1800 [])
      sample_doc in
  Firestore.update (taskFields "uncompleted" "t1" 1800 []) (Some once)
  = Some once
  ∧ ("uncompleted" = "uncompleted" →
     Firestore.update (taskFields "uncompleted" "t1" 1900 []) (Some once)
     = Some once).
Proof.
  apply (task_update_twice "uncompleted" "t1" 1800 1900 sample_doc).
  reflexivity.
Defined.

(** *** A batch, entry by entry *)





(** *** Reading a document after an update *)

Lemma field_apply_eq doc k v : field (Firestore.apply doc (k, v)) k = stored v.
Proof.
  unfold field, Firestore.apply. cbn [fst snd].
  pose proof (segments_nonempty k).
  destruct v; cbn [stored]; [by apply get_set_eq .. | by apply get_delete_eq].
Qed.

Lemma field_apply_off doc k v path pre a b p q :
  segments k = pre ++ a :: p → segments path = pre ++ b :: q → a ≠ b →
  field (Firestore.apply doc (k, v)) path = field doc path.
Proof.
  intros Hk Hp Hab. unfold field, Firestore.apply. cbn [fst snd].
  rewrite Hk, Hp.
  destruct v; [by apply get_set_off .. | by apply get_delete_off].
Qed.

(** An update whose paths are leaves of one record, each path once: a leaf
    reads as what the update gives it, and as before when the update does
    not name it. *)
Lemma field_update_leaves (pre : list string) (data : UpdateData) doc path leaf :
  segments path = pre ++ [leaf] →
  NoDup data.*1 →
  (∀ k, k ∈ data.*1 → ∃ l, segments k = pre ++ [l]) →
  field (fold_left Firestore.apply data doc) path
  = match assoc path data with
    | Some v => stored v
    | None => field doc path
    end.
Proof.
  intros Hpath. revert doc.
  induction data as [|[k v] data IH]; intros doc Hnd Hleaf; [done |].
  cbn [fold_left assoc]. apply NoDup_cons in Hnd as [Hk Hnd].
  rewrite IH; [| done | by intros k' Hk'; apply Hleaf; right].
  destruct (String.eqb path k) eqn:E.
  - apply String.eqb_eq in E as ->.
    assert (assoc k data = None) as ->.
    { clear -Hk. induction data as [|[k' v'] data IH]; [done |].
      cbn in *. apply not_elem_of_cons in Hk as [Hne Hk].
      rewrite eqb_false by done. by apply IH. }
    apply field_apply_eq.
  - apply String.eqb_neq in E.
    destruct (assoc path data); [done |].
    destruct (Hleaf k) as [l Hl]; [by left |].
    apply (field_apply_off _ _ _ _ pre l leaf [] []); [done .. |].
    intros ->. apply E, segments_inj. by rewrite Hpath, Hl.
Qed.

Lemma assign_keys {A : Type} k (a : A) l k' :
  k' ∈ (assign k a l).*1 → k' = k ∨ k' ∈ l.*1.
Proof.
  induction l as [|[k0 a0] l IH]; cbn.
  - intros ?%list_elem_of_singleton. by left.
  - destruct (String.eqb k k0) eqn:E; cbn.
    + intros [->|?]%elem_of_cons; [by left | right; by right].
    + intros [->|?]%elem_of_cons; [right; by left |].
      destruct IH as [?|?]; [done | by left | right; by right].
Qed.

Lemma assign_nonempty {A : Type} k (a : A) (l : list (string * A)) :
  assign k a l ≠ [].
Proof. destruct l as [|[k' a'] l]; cbn; [done |]. by destruct (String.eqb k k'). Qed.

Lemma assign_NoDup {A : Type} k (a : A) l :
  NoDup l.*1 → NoDup (assign k a l).*1.
Proof.
  induction l as [|[k0 a0] l IH]; cbn.
  - intros _. apply NoDup_singleton.
  - intros [Hk Hnd]%NoDup_cons. destruct (String.eqb k k0) eqn:E; cbn.
    + apply String.eqb_eq in E as ->. by apply NoDup_cons.
    + apply String.eqb_neq in E. apply NoDup_cons. split; [| by apply IH].
      intros [->|?]%assign_keys; done.
Qed.

Section Writes.

Context {TaskData : Type}.
Variable now : Z.
Variable getTaskData : string + option TaskData.
Variable updateTaskState :
  string → string → string → option TaskData → Db → Db * option string.
Variable storeError : string.

Local Abbreviation single :=
  (updateSingleTask now getTaskData updateTaskState storeError).
Local Abbreviation batch :=
  (updateMultipleTasks now getTaskData updateTaskState storeError).

Lemma single_status req db :
  let r := single req db in
  match authorized req "WP" with
  | None => r = unauthorized db
  | Some ownerId =>
      if String.eqb (param req "taskId") EmptyString then
        status r = 400%Z ∧ db_after r = db ∧ logs r = []
      else if negb (isValidTaskStatus (prop (body req) "state")) then
        status r = 400%Z ∧ db_after r = db ∧ logs r = []
      else
        match progressDocs db !! ownerId with
        | Some _ => status r = 200%Z
        | None => status r = 500%Z ∧ db_after r = db
        end
  end.
Proof.
  cbv zeta. unfold updateSingleTask.
  destruct (authorized req "WP") as [ownerId|]; [| done].
  destruct (String.eqb (param req "taskId") EmptyString); [done |].
  destruct (isValidTaskStatus _); cbn [negb]; [| done].
  unfold primaryWrite.
  destruct (progressDocs db !! ownerId) as [doc|]; cbn; [| done].
  by destruct (dependencyUpdate _ _ _ _ _ _ _ _).
Qed.

(** X2. Take a request whose task id is empty or one the store client
    takes.  The single-task update is answered 200 exactly when the
    requester may write, the task id is not empty, the state is one of the
    three and the requester's progress document exists, and 500 exactly
    when all but the last hold.  Whenever the answer is not 200 the store
    is as it was: no field is written and no dependency update is run. *)
Theorem updateSingleTask_outcomes (req : Request) (db : Db) :
  param req "taskId" = EmptyString
  ∨ accepted_path (param req "taskId") = true →
  let r := single req db in
  let ready ownerId :=
    authorized req "WP" = Some ownerId
    ∧ param req "taskId" ≠ EmptyString
    ∧ isValidTaskStatus (prop (body req) "state") = true in
  (status r = 200%Z ∨ status r = 400%Z ∨ status r = 401%Z ∨ status r = 500%Z)
  ∧ (status r = 200%Z
     ↔ ∃ ownerId, ready ownerId ∧ is_Some (progressDocs db !! ownerId))
  ∧ (status r = 500%Z
     ↔ ∃ ownerId, ready ownerId ∧ progressDocs db !! ownerId = None)
  ∧ (status r ≠ 200%Z → db_after r = db).
Proof.
  intros _. cbv zeta. pose proof (single_status req db) as H. cbv zeta in H.
  destruct (authorized req "WP") as [ownerId|] eqn:Ha.
  - destruct (String.eqb (param req "taskId") EmptyString) eqn:Et.
    { apply String.eqb_eq in Et. destruct H as (-> & -> & _).
      split; [tauto |]. split; [| split; [| done]].
      - split; [done |]. by intros (o & (_ & ? & _) & _).
      - split; [done |]. by intros (o & (_ & ? & _) & _). }
    apply String.eqb_neq in Et.
    destruct (isValidTaskStatus (prop (body req) "state")) eqn:Ev; cbn [negb] in H.
    + destruct (progressDocs db !! ownerId) as [doc|] eqn:Ed.
      * rewrite H. split; [tauto |]. split; [| split; [| done]].
        -- split; [| done]. intros _. exists ownerId. by rewrite Ed.
        -- split; [done |]. intros (o & ([= <-] & _) & Hn). congruence.
      * destruct H as (-> & ->). split; [tauto |]. split; [| split; [| done]].
        -- split; [done |]. intros (o & ([= <-] & _) & [? Hs]). congruence.
        -- split; [| done]. intros _. by exists ownerId.
    + destruct H as (-> & -> & _).
      split; [tauto |]. split; [| split; [| done]].
      * split; [done |]. by intros (o & (_ & _ & ?) & _).
      * split; [done |]. by intros (o & (_ & _ & ?) & _).
  - rewrite H. cbn. split; [tauto |]. split; [| split; [| done]].
    + split; [done |]. by intros (o & (? & _) & _).
    + split; [done |]. by intros (o & (? & _) & _).
Qed.



(** X5. For a requester with no progress document a task update on a task
    id the store client takes is answered 500, but once a level update has
    been accepted the same task update is answered 200: the level update
    creates the document, holding the level alone, and the task update
    finds it. *)
Theorem level_update_creates_document (levelReq taskReq : Request) (db : Db)
    (ownerId : string) (n : Z) :
  authorized levelReq "WP" = Some ownerId →
  authorized taskReq "WP" = Some ownerId →
  parseInt (param levelReq "levelValue") = Some n →
  (1 ≤ n)%Z →
  accepted_path (param taskReq "taskId") = true →
  isValidTaskStatus (prop (body taskReq) "state") = true →
  progressDocs db !! ownerId = None →
  let db1 := db_after (setPlayerLevel levelReq db) in
  status (single taskReq db) = 500%Z
  ∧ db_after (single taskReq db) = db
  ∧ progressDocs db1 !! ownerId = Some ([("level", VNum n)] : Fields)
  ∧ status (single taskReq db1) = 200%Z.
Proof.
  intros Hl Ht Hn Hge Hid%accepted_path_nonempty Hvalid Hdoc. cbv zeta.
  assert (Hdb1 : progressDocs (db_after (setPlayerLevel levelReq db)) !! ownerId
                 = Some ([("level", VNum n)] : Fields)).
  { unfold setPlayerLevel. rewrite Hl, Hn.
    destruct (n <? 1)%Z eqn:E; [apply Z.ltb_lt in E; lia |].
    cbn. rewrite lookup_insert_eq, Hdoc. done. }
  pose proof (single_status taskReq db) as H0.
  pose proof (single_status taskReq (db_after (setPlayerLevel levelReq db))) as H1.
  cbv zeta in H0, H1. rewrite Ht, Hid, Hvalid in H0, H1. cbn [negb] in H0, H1.
  rewrite Hdoc in H0. rewrite Hdb1 in H1. destruct H0 as [? ?]. done.
Qed.

End Writes.

Lemma updateSingleTask_outcomes_witness :
  status (updateSingleTask 1800 (inr None) no_dependents "unavailable"
            (sample_request "completed") sample_db) = 200%Z
  ∧ status (updateSingleTask 1800 (inr None) no_dependents "unavailable"
              (sample_request "completed") empty_db) = 500%Z.
Proof.
  split.
  - destruct (updateSingleTask_outcomes 1800 (inr None) no_dependents
                "unavailable" (sample_request "completed") sample_db)
      as (_ & H200 & _); [right; reflexivity |].
    apply H200. exists "u1".
    split; [split; [reflexivity | split; [discriminate | reflexivity]] |].
    by eexists.
  - destruct (updateSingleTask_outcomes 1800 (inr None) no_dependents
                "unavailable" (sample_request "completed") empty_db)
      as (_ & _ & H500 & _); [right; reflexivity |].
    apply H500. exists "u1".
    split; [split; [reflexivity | split; [discriminate | reflexivity]] |].
    reflexivity.
Defined.



Lemma level_update_creates_document_witness :
  let single := updateSingleTask 1800 (inr None) no_dependents "unavailable"
                  (sample_request "completed") in
  let db1 := db_after (setPlayerLevel (level_request "7") empty_db) in
  status (single empty_db) = 500%Z
  ∧ db_after (single empty_db) = empty_db
  ∧ progressDocs db1 !! "u1" = Some ([("level", VNum 7)] : Fields)
  ∧ status (single db1) = 200%Z.
Proof.
  apply (level_update_creates_document 1800 (inr None) no_dependents
           "unavailable" (level_request "7") (sample_request "completed")
           empty_db "u1" 7);
    first [lia | vm_compute; reflexivity].
Defined.

(** X10. Of two level updates accepted one after the other only the second
    shows: the store is the one the second alone would leave. *)
Theorem setPlayerLevel_last_wins (req1 req2 : Request) (db : Db)
    (ownerId : string) (a b : Z) :
  authorized req1 "WP" = Some ownerId →
  authorized req2 "WP" = Some ownerId →
  parseInt (param req1 "levelValue") = Some a → (1 ≤ a)%Z →
  parseInt (param req2 "levelValue") = Some b → (1 ≤ b)%Z →
  db_after (setPlayerLevel req2 (db_after (setPlayerLevel req1 db)))
  = db_after (setPlayerLevel req2 db).
Proof.
  intros H1 H2 Ha Hage Hb Hbge. unfold setPlayerLevel.
  rewrite H1, H2, Ha, Hb.
  destruct (a <? 1)%Z eqn:Ea; [apply Z.ltb_lt in Ea; lia |].
  destruct (b <? 1)%Z eqn:Eb; [apply Z.ltb_lt in Eb; lia |].
  cbn [db_after respond]. unfold with_progress at 1 3. cbn [progressDocs systemDocs userDocs teamDocs with_progress].
  rewrite lookup_insert_eq, insert_insert_eq. unfold set_merge.
  cbn [fold_left fst snd default from_option Datatypes.id].
  by rewrite assign_assign.
Qed.

Lemma setPlayerLevel_last_wins_witness :
  db_after (setPlayerLevel (level_request "9")
              (db_after (setPlayerLevel (level_request "5") one_user_db)))
  = db_after (setPlayerLevel (level_request "9") one_user_db).
Proof.
  apply (setPlayerLevel_last_wins (level_request "5") (level_request "9")
           one_user_db "u1" 5 9);
    first [lia | vm_compute; reflexivity].
Defined.

Section Objective.

Variable now : Z.
Variable storeError : string.

Local Abbreviation objective := (updateTaskObjective now storeError).

Lemma objective_status req db (ownerId : string) :
  authorized req "WP" = Some ownerId →
  let r := objective req db in
  let state := prop (body req) "state" in
  let count := prop (body req) "count" in
  if String.eqb (param req "objectiveId") EmptyString
     || negb (truthy state) && loosely_null count
     || truthy state && negb (is_str state "completed")
        && negb (is_str state "uncompleted")
     || negb (loosely_null count)
        && match count with Num n => (n <? 0)%Z | _ => true end
  then status r = 400%Z ∧ db_after r = db
  else match progressDocs db !! ownerId with
       | Some _ => status r = 200%Z
       | None => status r = 500%Z ∧ db_after r = db
       end.
Proof.
  intros Hauth. cbv zeta. unfold updateTaskObjective. rewrite Hauth.
  destruct (String.eqb (param req "objectiveId") EmptyString); [done |].
  destruct (truthy (prop (body req) "state"));
    destruct (loosely_null (prop (body req) "count")) eqn:Ec;
    cbn [negb andb orb]; try done.
  - destruct (is_str (prop (body req) "state") "completed");
      [| destruct (is_str (prop (body req) "state") "uncompleted")];
      cbn [negb andb orb]; try done;
      by destruct (progressDocs db !! ownerId).
  - destruct (is_str (prop (body req) "state") "completed");
      [| destruct (is_str (prop (body req) "state") "uncompleted")];
      cbn [negb andb orb]; try done;
      (destruct (prop (body req) "count") as [| | |n| |]; try done;
       destruct (n <? 0)%Z; [done |];
       by destruct (progressDocs db !! ownerId)).
  - destruct (prop (body req) "count") as [| | |n| |]; try done.
    destruct (n <? 0)%Z; [done |].
    by destruct (progressDocs db !! ownerId).
Qed.

(** X8. Take a request whose objective id is empty or one the store client
    takes.  The objective update is answered 400 exactly when the
    objective id is empty, or neither a state nor a count is given, or the
    state is given and is neither [completed] nor [uncompleted], or the
    count is given and is not a number that is at least 0; it is answered
    500 only when the requester has no progress document.  Whenever the
    answer is not 200 the store is as it was; in particular a valid state
    sent with an invalid count is not written. *)
Theorem updateTaskObjective_outcomes (req : Request) (db : Db)
    (ownerId : string) :
  authorized req "WP" = Some ownerId →
  param req "objectiveId" = EmptyString
  ∨ accepted_path (param req "objectiveId") = true →
  let r := objective req db in
  let state := prop (body req) "state" in
  let count := prop (body req) "count" in
  (status r = 400%Z
   ↔ param req "objectiveId" = EmptyString
     ∨ (truthy state = false ∧ loosely_null count = true)
     ∨ (truthy state = true
        ∧ state ≠ Str "completed" ∧ state ≠ Str "uncompleted")
     ∨ (loosely_null count = false ∧ ∀ n, count = Num n → (n < 0)%Z))
  ∧ (status r = 200%Z ∨ status r = 400%Z ∨ status r = 500%Z)
  ∧ (status r = 500%Z → progressDocs db !! ownerId = None)
  ∧ (status r ≠ 200%Z → db_after r = db).
Proof.
  intros Hauth _. pose proof (objective_status req db ownerId Hauth) as H.
  cbv zeta in *.
  set (r := objective req db) in *.
  set (state := prop (body req) "state") in *.
  set (count := prop (body req) "count") in *.
  clearbody r state count.
  assert (Hid : String.eqb (param req "objectiveId") EmptyString = true
                ↔ param req "objectiveId" = EmptyString)
    by apply String.eqb_eq.
  assert (Hstate : truthy state && negb (is_str state "completed")
                   && negb (is_str state "uncompleted") = true
                   ↔ truthy state = true ∧ state ≠ Str "completed"
                     ∧ state ≠ Str "uncompleted").
  { rewrite !andb_true_iff, !negb_true_iff.
    assert (∀ lit, is_str state lit = false ↔ state ≠ Str lit) as Hl.
    { intros lit. destruct state as [| | | |st|]; cbn; try done.
      rewrite String.eqb_neq. split; congruence. }
    rewrite !Hl. tauto. }
  assert (Hcount : negb (loosely_null count)
                   && match count with Num n => (n <? 0)%Z | _ => true end
                   = true
                   ↔ loosely_null count = false
                     ∧ ∀ n, count = Num n → (n < 0)%Z).
  { rewrite andb_true_iff, negb_true_iff.
    destruct count as [| | |n| |]; cbn; try (split; [intros []|intros []]; done).
    rewrite Z.ltb_lt. split; intros [_ Hn]; (split; [done |]).
    - by intros ? [= <-].
    - by apply Hn. }
  assert (Hnone : negb (truthy state) && loosely_null count = true
                  ↔ truthy state = false ∧ loosely_null count = true).
  { by rewrite andb_true_iff, negb_true_iff. }
  match type of H with (if ?b then _ else _) => destruct b eqn:Eb end.
  - destruct H as [Hs Hd]. rewrite Hs.
    rewrite !orb_true_iff, Hid, Hstate, Hcount, Hnone in Eb.
    split; [split; [intros _; tauto | done] |].
    split; [tauto |]. split; [done | done].
  - assert (Hno : ¬ (param req "objectiveId" = EmptyString
              ∨ (truthy state = false ∧ loosely_null count = true)
              ∨ (truthy state = true
                 ∧ state ≠ Str "completed" ∧ state ≠ Str "uncompleted")
              ∨ (loosely_null count = false
                 ∧ ∀ n, count = Num n → (n < 0)%Z))).
    { rewrite <- Hid, <- Hstate, <- Hcount, <- Hnone, <- !orb_true_iff.
      rewrite !orb_assoc in *.
      by rewrite Eb. }
    destruct (progressDocs db !! ownerId) as [doc|].
    + rewrite H. split; [split; [done | tauto] |].
      split; [tauto |]. split; done.
    + destruct H as [Hs Hd]. rewrite Hs. split; [split; [done | tauto] |].
      split; [tauto |]. split; done.
Qed.

(** X9. An objective update answered 200, on an objective id the store
    client takes, sends an update the client takes and leaves a store in
    which the requester's progress document, and nothing else, has
    changed; it logs nothing.  In the document as stored, state
    [completed] leaves [complete] true and the time of the request in
    [timestamp]; [uncompleted] leaves [complete] false and no [timestamp];
    without a state both read as before.  A count is stored as given;
    without a count the stored one reads as before. *)
Theorem updateTaskObjective_writes (req : Request) (db : Db)
    (ownerId : string) :
  authorized req "WP" = Some ownerId →
  accepted_path (param req "objectiveId") = true →
  let r := objective req db in
  let id := param req "objectiveId" in
  let state := prop (body req) "state" in
  let count := prop (body req) "count" in
  let complete := "taskObjectives." +:+ id +:+ ".complete" in
  let timestamp := "taskObjectives." +:+ id +:+ ".timestamp" in
  let counted := "taskObjectives." +:+ id +:+ ".count" in
  status r = 200%Z →
  ∃ (doc doc' : Fields) (data : UpdateData),
    progressDocs db !! ownerId = Some doc
    ∧ Firestore.update data (Some doc) = Some doc'
    ∧ commits db (db_after r) ownerId doc'
    ∧ takes data
    ∧ logs r = []
    ∧ (state = Str "completed" →
       field doc' complete = Some (VBool true)
       ∧ field doc' timestamp = Some (VNum now))
    ∧ (state = Str "uncompleted" →
       field doc' complete = Some (VBool false)
       ∧ field doc' timestamp = None)
    ∧ (truthy state = false →
       field doc' complete = field doc complete
       ∧ field doc' timestamp = field doc timestamp)
    ∧ (∀ n, count = Num n → field doc' counted = Some (VNum n))
    ∧ (loosely_null count = true → field doc' counted = field doc counted).
Proof.
  intros Hauth Hid. cbv zeta.
  set (id := param req "objectiveId") in *.
  change ("taskObjectives." +:+ id +:+ ".complete")
    with (key "taskObjectives" id "complete").
  change ("taskObjectives." +:+ id +:+ ".timestamp")
    with (key "taskObjectives" id "timestamp").
  change ("taskObjectives." +:+ id +:+ ".count")
    with (key "taskObjectives" id "count").
  unfold updateTaskObjective. rewrite Hauth. fold id.
  change ("taskObjectives." +:+ id +:+ ".complete")
    with (key "taskObjectives" id "complete").
  change ("taskObjectives." +:+ id +:+ ".timestamp")
    with (key "taskObjectives" id "timestamp").
  change ("taskObjectives." +:+ id +:+ ".count")
    with (key "taskObjectives" id "count").
  set (kc := key "taskObjectives" id "complete").
  set (kt := key "taskObjectives" id "timestamp").
  set (kn := key "taskObjectives" id "count").
  assert (Hct : kt ≠ kc) by (intros H; by apply key_leaf_inj in H).
  assert (Hcn : kn ≠ kc) by (intros H; by apply key_leaf_inj in H).
  assert (Htn : kn ≠ kt) by (intros H; by apply key_leaf_inj in H).
  assert (Hread : ∀ (data : UpdateData) doc path,
            path ∈ [kc; kt; kn] →
            NoDup data.*1 →
            (∀ k, k ∈ data.*1 → k ∈ [kc; kt; kn]) →
            field (fold_left Firestore.apply data doc) path
            = match assoc path data with
              | Some v => stored v
              | None => field doc path
              end).
  { assert (∀ k, k ∈ [kc; kt; kn] →
              ∃ l, segments k = record_path "taskObjectives" id ++ [l]) as Hk.
    { intros k Hk. repeat apply elem_of_cons in Hk as [->|Hk];
        [| | | by apply elem_of_nil in Hk];
        eexists; by apply segments_key. }
    intros data doc path Hpath Hnd Hdata.
    destruct (Hk path Hpath) as [leaf Hleaf].
    apply (field_update_leaves _ _ _ _ leaf Hleaf Hnd).
    intros k Hin. by apply Hk, Hdata. }
  assert (Htakes : ∀ data : UpdateData,
            data ≠ [] →
            NoDup data.*1 →
            (∀ k, k ∈ data.*1 → k ∈ [kc; kt; kn]) →
            takes data).
  { intros data Hne Hnd Hdata.
    apply (takes_flat _ (S (List.length (record_path "taskObjectives" id))));
      [done .. |].
    intros k Hk%Hdata.
    repeat (apply elem_of_cons in Hk as [-> | Hk]);
      try (by apply elem_of_nil in Hk);
      (split; [by apply accepted_key | by apply task_key_length]). }
  destruct (String.eqb id EmptyString); [done |].
  destruct (truthy (prop (body req) "state")) eqn:Es;
    destruct (loosely_null (prop (body req) "count")) eqn:Ec;
    cbn [negb andb]; try done.
  all: try (destruct (is_str (prop (body req) "state") "completed") eqn:E1;
            [| destruct (is_str (prop (body req) "state") "uncompleted") eqn:E2;
               [| done]]).
  all: try (destruct (prop (body req) "count") as [| | |n| |] eqn:Ecount;
            try done; destruct (n <? 0)%Z; [done |]).
  all: destruct (progressDocs db !! ownerId) as [doc|]; [| done];
    cbn [Firestore.update]; intros _;
    eexists doc, _, _; split; [done |]; split; [reflexivity |];
    split; [apply with_progress_commits |];
    (split;
     [ apply Htakes;
       [ apply assign_nonempty
       | repeat apply assign_NoDup; apply NoDup_nil_2
       | intros k Hk; repeat (apply assign_keys in Hk as [->|Hk]);
         try (by apply elem_of_nil in Hk); rewrite !elem_of_cons; tauto ]
     |]);
    split; [reflexivity |].
  all: repeat match goal with
       | |- _ ∧ _ => split
       | |- _ = Str _ → _ => intros Hs; rewrite Hs in *; try done
       | |- _ = false → _ => intros Hs; try done
       | |- _ = true → _ => intros Hs; try done
       | |- ∀ n, _ = Num n → _ =>
           intros ? Hs; try (rewrite Hs in Ec; done); try injection Hs as <-
       end.
  all: rewrite Hread;
    [ rewrite ?assoc_assign_eq, ?assoc_assign_ne by done;
      rewrite ?assoc_assign_eq, ?assoc_assign_ne by done;
      rewrite ?assoc_assign_eq, ?assoc_assign_ne by done; done
    | rewrite !elem_of_cons; tauto
    | repeat apply assign_NoDup; apply NoDup_nil_2
    | intros k Hk; repeat (apply assign_keys in Hk as [->|Hk]);
      try (by apply elem_of_nil in Hk); rewrite !elem_of_cons; tauto ].
Qed.
End Objective.

Lemma updateTaskObjective_outcomes_witness :
  let r := updateTaskObjective 1800 "unavailable"
             (objective_request
                (Obj [("state", Str "completed"); ("count", Num (-1))]))
             one_user_db in
  status r = 400%Z ∧ db_after r = one_user_db.
Proof.
  cbv zeta.
  destruct (updateTaskObjective_outcomes 1800 "unavailable"
              (objective_request
                 (Obj [("state", Str "completed"); ("count", Num (-1))]))
              one_user_db "u1") as (H400 & _ & _ & Hsame);
    [vm_compute; reflexivity | right; reflexivity |].
  assert (status
            (updateTaskObjective 1800 "unavailable"
               (objective_request
                  (Obj [("state", Str "completed"); ("count", Num (-1))]))
               one_user_db) = 400%Z) as Hs.
  { apply H400. right. right. right. split; [reflexivity |].
    intros n [= <-]. lia. }
  split; [exact Hs |]. apply Hsame. rewrite Hs. discriminate.
Defined.

Lemma updateTaskObjective_writes_witness :
  let r := updateTaskObjective 1800 "unavailable"
             (objective_request (Obj [("state", Str "completed")]))
             one_user_db in
  ∃ doc' : Fields,
    progressDocs (db_after r) !! "u1" = Some doc'
    ∧ field doc' "taskObjectives.obj1.complete" = Some (VBool true)
    ∧ field doc' "taskObjectives.obj1.timestamp" = Some (VNum 1800)
    ∧ field doc' "taskObjectives.obj1.count" = Some (VNum 3)
    ∧ field doc' "displayName" = Some (VStr "Nikita").
Proof.
  cbv zeta.
  destruct (updateTaskObjective_writes 1800 "unavailable"
              (objective_request (Obj [("state", Str "completed")]))
              one_user_db "u1")
    as (doc & doc' & data & Hdoc & _ & (Hstored & _) & _ & _ & Hc & _ & _ & _
        & Hn);
    [vm_compute; reflexivity .. |].
  exists doc'. split; [exact Hstored |].
  destruct (Hc eq_refl) as [Hc1 Hc2].
  split; [exact Hc1 |]. split; [exact Hc2 |]. split.
  - transitivity (field doc "taskObjectives.obj1.count");
      [exact (Hn eq_refl) |].
    revert Hdoc. vm_compute. by intros [= <-].
  - revert Hstored. vm_compute. by intros [= <-].
Defined.

Section Denied.

Context {TaskData HideoutData FormattedProgress : Type}.
Variable now : Z.
Variable getTaskData : string + option TaskData.
Variable getHideoutData : string + option HideoutData.
Variable updateTaskState :
  string → string → string → option TaskData → Db → Db * option string.
Variable formatProgress :
  Fields → string → HideoutData → TaskData → FormattedProgress.
Variable formatPlayer :
  option Fields → string → HideoutData → TaskData → FormattedProgress.
Variable storeError : string.

Local Abbreviation single :=
  (updateSingleTask now getTaskData updateTaskState storeError).
Local Abbreviation batch :=
  (updateMultipleTasks now getTaskData updateTaskState storeError).
Local Abbreviation objective := (updateTaskObjective now storeError).
Local Abbreviation ofTeam :=
  (getTeamProgress getTaskData getHideoutData formatProgress).
Local Abbreviation ofPlayer :=
  (Player.getPlayerProgress getTaskData getHideoutData formatPlayer).

(** X1. Each handler answers 401 exactly when the request carries no
    token, or the token names no owner, or it lacks the handler's
    permission: [WP] for the four writes, [TP] for the team's progress and
    [GP] for the player's.  The 401 answer leaves the store as it was and
    logs nothing. *)
Theorem answered_401_exactly (req : Request) (db : Db) :
  let denied (perm : string) :=
    apiToken req = None
    ∨ ∃ t, apiToken req = Some t
           ∧ (owner t = EmptyString ∨ perm ∉ permissions t) in
  ((status (single req db) = 401%Z ↔ denied "WP")
   ∧ (denied "WP" → single req db = unauthorized db))
  ∧ ((status (batch req db) = 401%Z ↔ denied "WP")
     ∧ (denied "WP" → batch req db = unauthorized db))
  ∧ ((status (objective req db) = 401%Z ↔ denied "WP")
     ∧ (denied "WP" → objective req db = unauthorized db))
  ∧ ((status (setPlayerLevel req db) = 401%Z ↔ denied "WP")
     ∧ (denied "WP" → setPlayerLevel req db = unauthorized db))
  ∧ ((status (ofTeam req db) = 401%Z ↔ denied "TP")
     ∧ (denied "TP" → ofTeam req db = unauthorized db))
  ∧ ((status (ofPlayer req db) = 401%Z ↔ denied "GP")
     ∧ (denied "GP" → ofPlayer req db = unauthorized db)).
Proof.
  cbv zeta. rewrite <- !authorized_none.
  assert (∀ {A} (r : Result A) perm,
            (authorized req perm = None → r = unauthorized db) →
            (∀ o, authorized req perm = Some o → status r ≠ 401%Z) →
            (status r = 401%Z ↔ authorized req perm = None)
            ∧ (authorized req perm = None → r = unauthorized db)) as Hcase.
  { intros A r perm Hnone Hsome. split; [| done]. split.
    - destruct (authorized req perm) as [o|] eqn:E; [| done].
      intros H. by destruct (Hsome o eq_refl).
    - intros H. by rewrite (Hnone H). }
  split; [apply Hcase | split; [apply Hcase | split; [apply Hcase |
    split; [apply Hcase | split; apply Hcase]]]].
  - unfold updateSingleTask. by intros ->.
  - intros o Ho. pose proof (single_status now getTaskData updateTaskState storeError
                  req db) as H.
    cbv zeta in H. rewrite Ho in H.
    destruct (String.eqb _ _); [destruct H as [-> _]; done |].
    destruct (negb _); [destruct H as [-> _]; done |].
    destruct (progressDocs db !! o); [by rewrite H |].
    destruct H as [-> _]; done.
  - unfold updateMultipleTasks. by intros ->.
  - intros o Ho. unfold updateMultipleTasks. rewrite Ho.
    destruct (body req) as [| | | | |[|e l]]; try done.
    destruct (invalidStatusFound _).
    { by destruct (settle _ _ _ _ _). }
    destruct (Firestore.update _ _); by destruct (settle _ _ _ _ _).
  - unfold updateTaskObjective. by intros ->.
  - intros o Ho.
    pose proof (objective_status now storeError req db o Ho) as H.
    cbv zeta in H.
    match type of H with (if ?b then _ else _) => destruct b end.
    + destruct H as [-> _]; done.
    + destruct (progressDocs db !! o); [by rewrite H |].
      destruct H as [-> _]; done.
  - unfold setPlayerLevel. by intros ->.
  - intros o Ho. unfold setPlayerLevel. rewrite Ho.
    destruct (parseInt _) as [n|]; [| done]. by destruct (n <? 1)%Z.
  - unfold getTeamProgress. by intros ->.
  - intros o Ho. unfold getTeamProgress. rewrite Ho.
    destruct getHideoutData as [|[|]], getTaskData as [|[|]]; try done.
    by destruct (teamMemberIds _ _).
  - unfold Player.getPlayerProgress. by intros ->.
  - intros o Ho. unfold Player.getPlayerProgress. rewrite Ho.
    by destruct getHideoutData as [|[|]], getTaskData as [|[|]].
Qed.

End Denied.
End OutcomeFacts.

(** ** Levels in decimal *)

Module ParseFacts.

Import Js Firestore Handler Notions Samples StoreFacts.

Lemma digit_char (d : N) :
  (d < 10)%N → digit (pretty_N_char d) = Some (Z.of_N d).
Proof.
  intros H.
  assert (d = 0 ∨ d = 1 ∨ d = 2 ∨ d = 3 ∨ d = 4 ∨ d = 5 ∨ d = 6 ∨ d = 7
          ∨ d = 8 ∨ d = 9)%N as Hd by lia.
  repeat destruct Hd as [-> | Hd]; try subst d; reflexivity.
Qed.

Lemma char_plain (d : N) :
  (d < 10)%N →
  let c := pretty_N_char d in
  is_space c = false ∧ c ≠ "-"%char ∧ c ≠ "+"%char.
Proof.
  intros H.
  assert (d = 0 ∨ d = 1 ∨ d = 2 ∨ d = 3 ∨ d = 4 ∨ d = 5 ∨ d = 6 ∨ d = 7
          ∨ d = 8 ∨ d = 9)%N as Hd by lia.
  repeat destruct Hd as [-> | Hd]; try subst d; done.
Qed.

Lemma pretty_N_go_app (x : N) (s rest : string) :
  pretty_N_go x s +:+ rest = pretty_N_go x (s +:+ rest).
Proof.
  revert s. induction (N.lt_wf_0 x) as [x _ IH]; intros s.
  assert (x = 0 ∨ 0 < x)%N as [-> | Hx] by lia.
  - by rewrite !pretty_N_go_0.
  - rewrite (pretty_N_go_step x s), (pretty_N_go_step x (s +:+ rest))
      by done.
    rewrite IH by by apply N.div_lt. reflexivity.
Qed.

(** The digits of a number are read back most significant first. *)
Lemma digits_pretty_N_go (x : N) (acc : option Z) (s : string) :
  (0 < x)%N →
  ∃ k : Z,
    (0 ≤ k)%Z
    ∧ digits acc (pretty_N_go x s)
      = digits (Some (default 0 acc * 10 ^ k + Z.of_N x)%Z) s.
Proof.
  revert acc s. induction (N.lt_wf_0 x) as [x _ IH]; intros acc s Hx.
  rewrite pretty_N_go_step by done.
  assert (Hmod : (x `mod` 10 < 10)%N) by (apply N.mod_lt; lia).
  assert (Hdiv : x = (10 * (x `div` 10) + x `mod` 10)%N)
    by (apply N.div_mod; lia).
  destruct (N.eq_0_gt_0_cases (x `div` 10)) as [H0 | Hpos].
  - rewrite H0, pretty_N_go_0. cbn [digits]. rewrite digit_char by done.
    exists 1%Z. split; [lia |]. do 2 f_equal. lia.
  - destruct (IH (x `div` 10)%N (N.div_lt x 10 Hx eq_refl) acc
                (String (pretty_N_char (x `mod` 10)) s) Hpos)
      as (k & Hk & ->).
    cbn [digits]. rewrite digit_char by done.
    exists (k + 1)%Z. split; [lia |]. do 2 f_equal.
    cbn [default from_option Datatypes.id]. rewrite Z.pow_add_r by lia.
    lia.
Qed.

Lemma pretty_N_go_head (x : N) (s : string) :
  (0 < x)%N →
  ∃ d s', (d < 10)%N ∧ pretty_N_go x s = String (pretty_N_char d) s'.
Proof.
  revert s. induction (N.lt_wf_0 x) as [x _ IH]; intros s Hx.
  rewrite pretty_N_go_step by done.
  assert (Hmod : (x `mod` 10 < 10)%N) by (apply N.mod_lt; lia).
  destruct (N.eq_0_gt_0_cases (x `div` 10)) as [H0 | Hpos].
  - rewrite H0, pretty_N_go_0. by eexists _, _.
  - by apply IH; [apply N.div_lt |].
Qed.

(** Text that [parseInt] stops at: nothing, or a character that is no
    digit. *)
Lemma digits_stop (z : Z) (rest : string) :
  match rest with String c _ => digit c = None | EmptyString => True end →
  digits (Some z) rest = Some z.
Proof. destruct rest as [|c rest]; [done |]. cbn. by intros ->. Qed.

Lemma parseInt_unsigned (c : ascii) (s : string) :
  is_space c = false → c ≠ "-"%char → c ≠ "+"%char →
  parseInt (String c s) = digits None (String c s).
Proof.
  intros Hsp Hm Hpl. unfold parseInt. cbn [skip_space]. rewrite Hsp.
  destruct c as [[] [] [] [] [] [] [] []]; done.
Qed.

Lemma parseInt_positive (p : positive) (rest : string) :
  match rest with String c _ => digit c = None | EmptyString => True end →
  parseInt (pretty (Zpos p) +:+ rest) = Some (Zpos p)
  ∧ parseInt ("-" +:+ pretty (Zpos p) +:+ rest) = Some (Zneg p).
Proof.
  intros Hrest.
  change (pretty (Zpos p)) with (pretty_N_go (Npos p) EmptyString).
  rewrite pretty_N_go_app. change (EmptyString +:+ rest) with rest.
  destruct (pretty_N_go_head (Npos p) rest) as (d & s' & Hd & Hs); [lia |].
  destruct (char_plain d Hd) as (Hsp & Hm & Hpl).
  destruct (digits_pretty_N_go (Npos p) None rest) as (k & _ & Hk); [lia |].
  cbn [default from_option Datatypes.id] in Hk.
  rewrite Z.mul_0_l, Z.add_0_l in Hk. rewrite digits_stop in Hk by done.
  split.
  - rewrite Hs, parseInt_unsigned by done. by rewrite <- Hs.
  - change (parseInt ("-" +:+ pretty_N_go (N.pos p) rest))
      with (Z.opp <$> digits None (pretty_N_go (N.pos p) rest)).
    by rewrite Hk.
Qed.

(** The decimal spelling of an integer, whatever text that is no digit
    follows it, is read back as that integer. *)
Lemma parseInt_pretty (z : Z) (rest : string) :
  match rest with String c _ => digit c = None | EmptyString => True end →
  parseInt (pretty z +:+ rest) = Some z.
Proof.
  intros Hrest. destruct z as [|p|p].
  - change (parseInt (pretty 0%Z +:+ rest)) with (digits (Some 0%Z) rest).
    by apply digits_stop.
  - by apply parseInt_positive.
  - by apply (parseInt_positive p rest).
Qed.

Lemma parseInt_skips_space (c : ascii) (s : string) :
  is_space c = true → parseInt (String c s) = parseInt s.
Proof. intros H. unfold parseInt. cbn [skip_space]. by rewrite H. Qed.

(** X11. A level sent as the decimal spelling of an integer up to 2^53,
    the integers a JavaScript number holds exactly, with or without text
    after it that starts with no digit, is read as that integer: from 1 up
    it is accepted and stored as the requester's level, below 1 it is
    refused with 400 and nothing is written. *)
Theorem setPlayerLevel_decimal (req : Request) (db : Db) (ownerId : string)
    (n : Z) (rest : string) :
  authorized req "WP" = Some ownerId →
  (n ≤ 2 ^ 53)%Z →
  param req "levelValue" = pretty n +:+ rest →
  match rest with String c _ => digit c = None | EmptyString => True end →
  let r := setPlayerLevel req db in
  if (1 <=? n)%Z then
    status r = 200%Z
    ∧ progressDocs (db_after r) !! ownerId
      = Some (assign "level" (VNum n) (default [] (progressDocs db !! ownerId)))
  else status r = 400%Z ∧ db_after r = db.
Proof.
  intros Hauth _ Hparam Hrest. cbv zeta. unfold setPlayerLevel.
  rewrite Hauth, Hparam, parseInt_pretty by done.
  destruct (1 <=? n)%Z eqn:E.
  - apply Z.leb_le in E.
    destruct (n <? 1)%Z eqn:E'; [apply Z.ltb_lt in E'; lia |].
    split; [done |]. cbn. by rewrite lookup_insert_eq.
  - apply Z.leb_gt in E.
    destruct (n <? 1)%Z eqn:E'; [done | apply Z.ltb_ge in E'; lia].
Qed.

Lemma setPlayerLevel_decimal_witness :
  let r := setPlayerLevel (level_request "12px") one_user_db in
  status r = 200%Z
  ∧ progressDocs (db_after r) !! "u1"
    = Some (assign "level" (VNum 12)
              (default [] (progressDocs one_user_db !! "u1"))).
Proof.
  apply (setPlayerLevel_decimal (level_request "12px") one_user_db "u1" 12
           "px"); first [lia | vm_compute; reflexivity].
Defined.

End ParseFacts.

(** ** The read handlers *)

Module ReadFacts.

Import Js Firestore Handler Notions Samples MoreSamples TeamFacts.

Section Reads.

Context {TaskData HideoutData FormattedProgress : Type}.
Variable getTaskData : string + option TaskData.
Variable getHideoutData : string + option HideoutData.

(** The one [formatProgress] of both handlers: the team's is handed the
    data of documents that exist, the player's whatever [data()] gives. *)
Variable formatProgress :
  option Fields → string → HideoutData → TaskData → FormattedProgress.

Local Abbreviation ofTeam :=
  (getTeamProgress getTaskData getHideoutData
     (fun doc => formatProgress (Some doc))).
Local Abbreviation ofPlayer :=
  (Player.getPlayerProgress getTaskData getHideoutData formatProgress).

(** X12. The two read handlers never write.  Each answers 200 exactly when
    the requester holds its permission and both catalogs have loaded,
    whether or not any progress document exists; otherwise 401 without the
    permission and 500 when a catalog is missing or failed to load. *)
Theorem reads_never_write (req : Request) (db : Db) :
  let loaded :=
    ∃ hideoutData taskData,
      getHideoutData = inr (Some hideoutData)
      ∧ getTaskData = inr (Some taskData) in
  (db_after (ofTeam req db) = db
   ∧ (status (ofTeam req db) = 200%Z ↔ is_Some (authorized req "TP") ∧ loaded)
   ∧ (status (ofTeam req db) = 500%Z
      ↔ is_Some (authorized req "TP") ∧ ¬ loaded)
   ∧ (status (ofTeam req db) = 401%Z ↔ authorized req "TP" = None))
  ∧ (db_after (ofPlayer req db) = db
     ∧ (status (ofPlayer req db) = 200%Z
        ↔ is_Some (authorized req "GP") ∧ loaded)
     ∧ (status (ofPlayer req db) = 500%Z
        ↔ is_Some (authorized req "GP") ∧ ¬ loaded)
     ∧ (status (ofPlayer req db) = 401%Z ↔ authorized req "GP" = None)).
Proof.
  cbv zeta. unfold getTeamProgress, Player.getPlayerProgress.
  split.
  - destruct (authorized req "TP") as [o|].
    + destruct getHideoutData as [e|[h|]], getTaskData as [e'|[t|]];
        try destruct (teamMemberIds o db); cbn;
        (split; [done |]); (split; [| split]);
        try (split; [done | by intros [_ (? & ? & ? & ?)]]);
        try (split; [done |]; intros [_ []]; by eexists _, _);
        try (split; [| done]; intros _; split; [done |];
             by intros (? & ? & ? & ?));
        try (split; [done | done]);
        try (split; [| done]; intros _; split; [done |]; by eexists _, _).
    + cbn. split; [done |]. split; [| split]; try done.
      * split; [done |]. by intros [[] _].
      * split; [done |]. by intros [[] _].
  - destruct (authorized req "GP") as [o|].
    + destruct getHideoutData as [e|[h|]], getTaskData as [e'|[t|]]; cbn;
        (split; [done |]); (split; [| split]);
        try (split; [done | by intros [_ (? & ? & ? & ?)]]);
        try (split; [done |]; intros [_ []]; by eexists _, _);
        try (split; [| done]; intros _; split; [done |];
             by intros (? & ? & ? & ?));
        try (split; [done | done]);
        try (split; [| done]; intros _; split; [done |]; by eexists _, _).
    + cbn. split; [done |]. split; [| split]; try done.
      * split; [done |]. by intros [[] _].
      * split; [done |]. by intros [[] _].
Qed.

Lemma omap_docs {A : Type} (f : string → Fields → A) (docs : gmap string Fields)
    (ids : list string) :
  omap (fun d : string * option Fields => f d.1 <$> d.2)
    (List.map (fun id => (id, docs !! id)) ids)
  = omap (fun id => f id <$> docs !! id) ids.
Proof. induction ids as [|id ids IH]; cbn; [done |]. by rewrite IH. Qed.

(** X13. With both catalogs loaded, the team's data has one entry for each
    member that has a progress document, in the order of the members, and
    the log has one warning for each member that has none: the two lists
    together account for every member. *)
Theorem getTeamProgress_data_or_warning (req : Request) (db : Db)
    (ownerId : string) (hideoutData : HideoutData) (taskData : TaskData) :
  authorized req "TP" = Some ownerId →
  getHideoutData = inr (Some hideoutData) →
  getTaskData = inr (Some taskData) →
  let r := ofTeam req db in
  let memberIds := (teamMemberIds ownerId db).1 in
  let missing id :=
    {| level := Warn;
       message := "Progress document not found for member " +:+ id;
       context := [] |} in
  ∃ tp : TeamProgress,
    payload r = Json tp
    ∧ data tp
      = omap (fun id =>
                (fun doc => formatProgress (Some doc) id hideoutData taskData)
                  <$> progressDocs db !! id)
          memberIds
    ∧ logs r
      = (teamMemberIds ownerId db).2
        ++ List.map missing
             (List.filter
                (fun id => bool_decide (progressDocs db !! id = None))
                memberIds)
    ∧ length (data tp)
      + length (List.filter
                  (fun id => bool_decide (progressDocs db !! id = None))
                  memberIds)
      = length memberIds.
Proof.
  intros Hauth Hh Ht. cbv zeta. unfold getTeamProgress.
  rewrite Hauth, Hh, Ht. destruct (teamMemberIds ownerId db) as [ids l].
  cbn [fst snd]. eexists. split; [reflexivity |].
  cbn [data payload logs respond].
  split; [| split].
  - apply (omap_docs
             (fun id doc => formatProgress (Some doc) id hideoutData taskData)).
  - f_equal. induction ids as [|id ids IH]; [done |].
    cbn. destruct (progressDocs db !! id); cbn; [done |]. by rewrite IH.
  - induction ids as [|id ids IH]; [done |].
    cbn. destruct (progressDocs db !! id); cbn; lia.
Qed.

(** X14. A requester who belongs to no team, or whose team document is
    missing, gets from the team handler the progress of the requester
    alone and no hidden teammates.  With a progress document the team's
    single entry is what the player handler answers; without one the
    team's data is empty, while the player handler still answers 200 with
    the progress formatted from no data. *)
Theorem solo_progress (req : Request) (db : Db) (ownerId : string)
    (hideoutData : HideoutData) (taskData : TaskData) :
  authorized req "TP" = Some ownerId →
  authorized req "GP" = Some ownerId →
  getHideoutData = inr (Some hideoutData) →
  getTaskData = inr (Some taskData) →
  (truthy_str (systemDocs db !! ownerId ≫= team) = false
   ∨ ∃ teamId, systemDocs db !! ownerId ≫= team = Some teamId
               ∧ teamDocs db !! teamId = None) →
  ∃ (tp : TeamProgress) (pp : Player.PlayerProgress FormattedProgress),
    payload (ofTeam req db) = Json tp
    ∧ status (ofPlayer req db) = 200%Z
    ∧ payload (ofPlayer req db) = Json pp
    ∧ self tp = ownerId ∧ Player.self pp = ownerId
    ∧ hiddenTeammates tp = []
    ∧ match progressDocs db !! ownerId with
      | Some doc => data tp = [Player.data pp]
      | None =>
          data tp = []
          ∧ Player.data pp = formatProgress None ownerId hideoutData taskData
      end.
Proof.
  intros Htp Hgp Hh Ht Hsolo.
  assert (Hids : (teamMemberIds ownerId db).1 = [ownerId]).
  { unfold teamMemberIds. destruct Hsolo as [-> | (teamId & -> & Hnone)];
      [done |].
    cbn [default from_option Datatypes.id]. rewrite Hnone.
    by destruct (truthy_str (Some teamId)). }
  unfold getTeamProgress, Player.getPlayerProgress.
  rewrite Htp, Hgp, Hh, Ht.
  destruct (teamMemberIds ownerId db) as [ids l]. cbn [fst] in Hids.
  subst ids. eexists _, _. split; [reflexivity |].
  split; [reflexivity |]. split; [reflexivity |].
  cbn [self Player.self data Player.data hiddenTeammates].
  split; [done |]. split; [done |]. split.
  - unfold hiddenOf. cbn. by rewrite String.eqb_refl.
  - cbn. by destruct (progressDocs db !! ownerId).
Qed.

End Reads.

Lemma getTeamProgress_data_or_warning_witness :
  let r := getTeamProgress (TaskData := unit) (HideoutData := unit)
             (inr (Some tt)) (inr (Some tt)) (fun doc id _ _ => (id, Some doc))
             team_request team_db in
  ∃ tp : TeamProgress,
    payload r = Json tp
    ∧ data tp = [("alice", Some [("level", VNum 10)]);
                 ("bob", Some [("level", VNum 20)])]
    ∧ logs r
      = [{| level := Warn;
            message := "Progress document not found for member carol";
            context := [] |}].
Proof.
  destruct (getTeamProgress_data_or_warning (TaskData := unit)
              (HideoutData := unit) (inr (Some tt)) (inr (Some tt))
              (fun doc id _ _ => (id, doc)) team_request team_db "alice" tt tt)
    as (tp & Hp & Hd & Hl & _); [vm_compute; reflexivity .. |].
  exists tp. split; [exact Hp |]. split.
  - rewrite Hd. vm_compute. reflexivity.
  - etrans; [exact Hl |]. vm_compute. reflexivity.
Defined.

Lemma solo_progress_witness :
  ∃ (tp : TeamProgress) (pp : Player.PlayerProgress (option Fields)),
    payload
      (getTeamProgress (TaskData := unit) (HideoutData := unit)
         (inr (Some tt)) (inr (Some tt)) (fun doc _ _ _ => Some doc)
         solo_request empty_db) = Json tp
    ∧ payload
        (Player.getPlayerProgress (TaskData := unit) (HideoutData := unit)
           (inr (Some tt)) (inr (Some tt)) (fun doc _ _ _ => doc)
           solo_request empty_db) = Json pp
    ∧ data tp = []
    ∧ Player.data pp = None.
Proof.
  destruct (solo_progress (TaskData := unit) (HideoutData := unit)
              (inr (Some tt)) (inr (Some tt)) (fun doc _ _ _ => doc)
              solo_request empty_db "u1" tt tt)
    as (tp & pp & Ht & _ & Hp & _ & _ & _ & Hdata);
    [vm_compute; reflexivity .. | by left |].
  exists tp, pp. split; [exact Ht |]. split; [exact Hp |]. exact Hdata.
Defined.

End ReadFacts.

(** ** Queries on the hideout *)

Module QueryFacts.

Import Hideout HideoutQueries HideoutNotions HideoutSamples HideoutFacts.

(** *** Modules *)

Lemma createHideoutModules_levels stations graph :
  List.map of_level (createHideoutModules stations graph)
  = flat_map levels stations.
Proof.
  unfold createHideoutModules.
  induction stations as [|s stations IH]; [done |].
  cbn [flat_map]. rewrite map_app, IH. f_equal.
  rewrite map_map. cbn. apply map_id.
Qed.

Lemma find_map {A B : Type} (f : A → B) (p : B → bool) (l : list A) :
  List.find p (List.map f l) = f <$> List.find (fun a => p (f a)) l.
Proof.
  induction l as [|a l IH]; [done |]. cbn. by destruct (p (f a)).
Qed.

(** X15. The modules are the levels of the catalog, one module for each
    level and in the catalog's order, whatever the graph.  Asking for a
    module by id gives the module of the first level that carries the id,
    and nothing exactly when no level does. *)
Theorem modules_are_levels (stations : list HideoutStation) (graph : Graph)
    (moduleId : string) :
  let modules := createHideoutModules stations graph in
  List.map of_level modules = flat_map levels stations
  ∧ of_level <$> getModuleById modules moduleId
    = List.find (fun lvl => String.eqb (id lvl) moduleId)
        (flat_map levels stations)
  ∧ (getModuleById modules moduleId = None
     ↔ ∀ s lvl, s ∈ stations → lvl ∈ levels s → id lvl ≠ moduleId)
  ∧ (∀ m, m ∈ modules →
       ∃ s, s ∈ stations ∧ of_level m ∈ levels s ∧ stationId m = station_id s).
Proof.
  cbv zeta. split; [apply createHideoutModules_levels |].
  assert (Hfind : of_level <$> getModuleById
                                 (createHideoutModules stations graph) moduleId
                  = List.find (fun lvl => String.eqb (id lvl) moduleId)
                      (flat_map levels stations)).
  { rewrite <- (createHideoutModules_levels stations graph).
    by rewrite find_map. }
  split; [exact Hfind |]. split.
  - split.
    + intros Hnone s lvl Hs Hl Hid. rewrite Hnone in Hfind. symmetry in Hfind.
      cbn in Hfind.
      assert (String.eqb (id lvl) moduleId = false) as Hf.
      { apply (find_none _ _ Hfind lvl).
        apply in_flat_map. exists s. by rewrite <- !list_elem_of_In. }
      by apply String.eqb_neq in Hf.
    + intros Hall.
      destruct (getModuleById _ moduleId) as [m|] eqn:E; [| done].
      apply getModuleById_some in E as [Hm Hid].
      apply createHideoutModules_elem in Hm as (s & lvl & Hs & Hl & ->).
      by destruct (Hall s lvl).
  - intros m (s & lvl & Hs & Hl & ->)%createHideoutModules_elem.
    by exists s.
Qed.

(** *** Grouping by station *)

Lemma modulesByStation_fold (l : list HideoutModule)
    (acc : gmap string (list HideoutModule)) (k : string) :
  default []
    (fold_left
       (fun moduleMap m =>
          <[stationId m := default [] (moduleMap !! stationId m) ++ [m]]>
            moduleMap)
       l acc !! k)
  = default [] (acc !! k)
    ++ List.filter (fun m => String.eqb (stationId m) k) l.
Proof.
  revert acc. induction l as [|m l IH]; intros acc; cbn [fold_left List.filter].
  - by rewrite app_nil_r.
  - rewrite IH. destruct (String.eqb (stationId m) k) eqn:E.
    + apply String.eqb_eq in E as <-. rewrite lookup_insert_eq. cbn.
      by rewrite <- app_assoc.
    + apply String.eqb_neq in E. by rewrite lookup_insert_ne.
Qed.

(** X16. The modules of a station are the modules that carry its id, in
    the order they are held; a station id no module carries gives the
    empty list. *)
Theorem getModulesByStation_filter (hideoutModules : list HideoutModule)
    (stationId' : string) :
  getModulesByStation hideoutModules stationId'
  = List.filter (fun m => String.eqb (stationId m) stationId') hideoutModules.
Proof.
  unfold getModulesByStation, modulesByStation.
  by rewrite modulesByStation_fold, lookup_empty.
Qed.

(** *** Tables keyed by id or name *)

Lemma find_snoc {A : Type} (p : A → bool) (l : list A) (a : A) :
  List.find p (l ++ [a])
  = match List.find p l with
    | Some x => Some x
    | None => if p a then Some a else None
    end.
Proof.
  induction l as [|x l IH]; cbn; [done |]. by destruct (p x).
Qed.

(** A table filled in a loop holds, under a key, what the last round that
    wrote the key put there. *)
Lemma last_write_wins {A V : Type} (f : gmap string V → A → gmap string V)
    (p : A → bool) (v : A → V) (k : string) :
  (∀ acc a, f acc a !! k = if p a then Some (v a) else acc !! k) →
  ∀ l acc,
    fold_left f l acc !! k
    = match List.find p (rev l) with
      | Some a => Some (v a)
      | None => acc !! k
      end.
Proof.
  intros Hf l. induction l as [|a l IH]; intros acc; [done |].
  cbn [fold_left rev]. rewrite IH, find_snoc, Hf.
  by destruct (List.find p (rev l)), (p a).
Qed.

Lemma mathMax_fold (l : list Z) (a : Z) :
  fold_left
    (fun acc z =>
       match acc with
       | NegInfinity => Finite z
       | Finite a => Finite (Z.max a z)
       end)
    l (Finite a)
  = Finite (fold_left Z.max l a).
Proof. revert a. induction l as [|z l IH]; intros a; [done |]. apply IH. Qed.

Lemma fold_max_spec (l : list Z) (a : Z) :
  let m := fold_left Z.max l a in
  (m = a ∨ m ∈ l) ∧ (a ≤ m)%Z ∧ ∀ z, z ∈ l → (z ≤ m)%Z.
Proof.
  revert a. induction l as [|x l IH]; intros a; cbn.
  - split; [by left |]. split; [lia |]. by intros z ?%elem_of_nil.
  - destruct (IH (Z.max a x)) as (Hin & Hle & Hall). split; [| split].
    + destruct Hin as [-> | Hin]; [| right; by right].
      destruct (Z.max_spec a x) as [[_ ->] | [_ ->]]; [right; by left | by left].
    + lia.
    + intros z [-> | Hz]%elem_of_cons; [lia | by apply Hall].
Qed.

Lemma mathMax_spec (l : list Z) :
  match l with
  | [] => mathMax l = NegInfinity
  | _ :: _ =>
      ∃ m, mathMax l = Finite m ∧ m ∈ l ∧ ∀ z, z ∈ l → (z ≤ m)%Z
  end.
Proof.
  destruct l as [|a l]; [done |]. unfold mathMax. cbn [fold_left].
  rewrite mathMax_fold. eexists. split; [done |].
  destruct (fold_max_spec l a) as (Hin & Hle & Hall). split.
  - destruct Hin as [-> | Hin]; [by left | by right].
  - intros z [-> | Hz]%elem_of_cons; [done | by apply Hall].
Qed.

(** X17. The highest level of a station is the largest level number among
    its levels, which one of them carries.  For an id no station has it is
    0, and for a station without levels it is minus infinity, which the
    fallback to 0 lets through.  Should several stations share the id, the
    last one counts. *)
Theorem getMaxStationLevel_spec (hideoutStations : list HideoutStation)
    (stationId' : string) :
  match List.find (fun s => String.eqb (station_id s) stationId')
          (rev hideoutStations) with
  | None => getMaxStationLevel hideoutStations stationId' = Finite 0
  | Some s =>
      match levels s with
      | [] => getMaxStationLevel hideoutStations stationId' = NegInfinity
      | _ :: _ =>
          ∃ m, getMaxStationLevel hideoutStations stationId' = Finite m
               ∧ (∃ lvl, lvl ∈ levels s ∧ level lvl = m)
               ∧ ∀ lvl, lvl ∈ levels s → (level lvl ≤ m)%Z
      end
  end.
Proof.
  unfold getMaxStationLevel, maxStationLevels.
  rewrite (last_write_wins _
             (fun s => String.eqb (station_id s) stationId')
             (fun s => mathMax (List.map level (levels s))) stationId').
  2: { intros acc s. destruct (String.eqb (station_id s) stationId') eqn:E.
       - apply String.eqb_eq in E as <-. apply lookup_insert_eq.
       - apply String.eqb_neq in E. by apply lookup_insert_ne. }
  destruct (List.find _ (rev hideoutStations)) as [s|]; [| done].
  pose proof (mathMax_spec (List.map level (levels s))) as Hmax.
  destruct (levels s) as [|l0 ls] eqn:El; cbn [List.map] in Hmax |- *.
  - by rewrite Hmax.
  - destruct Hmax as (m & -> & Hin & Hall).
    exists m. split; [by destruct (m =? 0)%Z eqn:E; [apply Z.eqb_eq in E as -> |] |].
    split.
    + change (level l0 :: List.map level ls) with (List.map level (l0 :: ls))
        in Hin.
      apply list_elem_of_In, in_map_iff in Hin as (lvl & <- & Hl).
      exists lvl. by rewrite list_elem_of_In.
    + intros lvl Hl. apply Hall.
      change (level l0 :: List.map level ls) with (List.map level (l0 :: ls)).
      apply list_elem_of_In, in_map. by apply list_elem_of_In.
Qed.

Section Names.

Variable name : HideoutStation → string.
Variable normalizedName : HideoutStation → option string.

(** X18. A station is found under its name and, when it has one that is
    not empty, under its normalized name; a word that is neither finds
    nothing.  Should several stations answer to the word, the last one in
    the catalog is found. *)
Theorem getStationByName_spec (hideoutStations : list HideoutStation)
    (n : string) :
  getStationByName name normalizedName hideoutStations n
  = List.find
      (fun s =>
         String.eqb (name s) n
         || match normalizedName s with
            | Some nn => negb (String.eqb nn EmptyString) && String.eqb nn n
            | None => false
            end)
      (rev hideoutStations).
Proof.
  unfold getStationByName, stationsByName.
  rewrite (last_write_wins _
             (fun s =>
                String.eqb (name s) n
                || match normalizedName s with
                   | Some nn =>
                       negb (String.eqb nn EmptyString) && String.eqb nn n
                   | None => false
                   end)
             (fun s => s) n).
  { rewrite lookup_empty. by destruct (List.find _ _). }
  intros acc s. cbv zeta.
  destruct (normalizedName s) as [nn|];
    cbn [Js.truthy_str default from_option Datatypes.id].
  - destruct (String.eqb nn EmptyString); cbn [negb andb].
    + rewrite orb_false_r. destruct (String.eqb (name s) n) eqn:E.
      * apply String.eqb_eq in E as <-. apply lookup_insert_eq.
      * apply String.eqb_neq in E. by apply lookup_insert_ne.
    + destruct (String.eqb nn n) eqn:E'.
      * apply String.eqb_eq in E' as <-. rewrite orb_true_r.
        apply lookup_insert_eq.
      * apply String.eqb_neq in E'. rewrite orb_false_r.
        rewrite lookup_insert_ne by done.
        destruct (String.eqb (name s) n) eqn:E.
        -- apply String.eqb_eq in E as <-. apply lookup_insert_eq.
        -- apply String.eqb_neq in E. by apply lookup_insert_ne.
  - rewrite orb_false_r. destruct (String.eqb (name s) n) eqn:E.
    + apply String.eqb_eq in E as <-. apply lookup_insert_eq.
    + apply String.eqb_neq in E. by apply lookup_insert_ne.
Qed.

End Names.

(** *** Item requirements *)

Section Items.

Variable itemRequirements : HideoutLevel → list ItemRequirement.

Lemma neededItem_some m req it :
  neededItem m req = Some it
  ↔ ∃ i, item req = Some i ∧ item_id i ≠ EmptyString
         ∧ it = {| needed_id := requirement_id req;
                   needType := "hideoutModule";
                   hideoutModule := m;
                   needed_item := i;
                   needed_count := count req;
                   needed_foundInRaid := foundInRaid req |}.
Proof.
  unfold neededItem. destruct (item req) as [i|].
  - destruct (String.eqb (item_id i) EmptyString) eqn:E; cbn [negb].
    + apply String.eqb_eq in E. split; [done |].
      by intros (i' & [= <-] & ? & _).
    + apply String.eqb_neq in E. split.
      * intros [= <-]. by exists i.
      * by intros (i' & [= <-] & _ & ->).
  - split; [done |]. by intros (i' & ? & _).
Qed.

Lemma filter_all {A : Type} (p : A → bool) (l : list A) :
  (∀ a, a ∈ l → p a = true) → List.filter p l = l.
Proof.
  induction l as [|a l IH]; intros H; [done |]. cbn.
  rewrite (H a) by by left. rewrite IH; [done |].
  intros a' ?. apply H. by right.
Qed.

Lemma filter_none {A : Type} (p : A → bool) (l : list A) :
  (∀ a, a ∈ l → p a = false) → List.filter p l = [].
Proof.
  induction l as [|a l IH]; intros H; [done |]. cbn.
  rewrite (H a) by by left. apply IH. intros a' ?. apply H. by right.
Qed.

Lemma filter_flat_map {A B : Type} (p : B → bool) (f : A → list B)
    (l : list A) :
  List.filter p (flat_map f l) = flat_map (fun a => List.filter p (f a)) l.
Proof.
  induction l as [|a l IH]; [done |]. cbn.
  by rewrite List.filter_app, IH.
Qed.

(** X19. The needed items are the item requirements of the modules that
    name an item with an id, each with the module it belongs to; a
    requirement without an item, or with an item without an id, is left
    out.  The items asked for a module are those of the modules carrying
    that id, in order, and no module requires the item with the empty
    id. *)
Theorem needed_items_spec (modules : list HideoutModule) :
  let needed := extractItemRequirements itemRequirements modules in
  (∀ it,
     it ∈ needed
     ↔ ∃ m req i,
         m ∈ modules ∧ req ∈ itemRequirements (of_level m)
         ∧ item req = Some i ∧ item_id i ≠ EmptyString
         ∧ it = {| needed_id := requirement_id req;
                   needType := "hideoutModule";
                   hideoutModule := m;
                   needed_item := i;
                   needed_count := count req;
                   needed_foundInRaid := foundInRaid req |})
  ∧ (∀ moduleId,
       getItemsForModule needed moduleId
       = extractItemRequirements itemRequirements
           (List.filter (fun m => String.eqb (id (of_level m)) moduleId)
              modules))
  ∧ getModulesRequiringItem needed EmptyString = [].
Proof.
  cbv zeta. unfold extractItemRequirements. split; [| split].
  - intros it. rewrite list_elem_of_In, in_flat_map. split.
    + intros (m & Hm & Hit). apply list_elem_of_In, list_elem_of_omap in Hit
        as (req & Hreq & Hsome).
      apply neededItem_some in Hsome as (i & Hi & Hid & ->).
      exists m, req, i. by rewrite list_elem_of_In.
    + intros (m & req & i & Hm & Hreq & Hi & Hid & ->).
      exists m. split; [by apply list_elem_of_In |].
      apply list_elem_of_In, list_elem_of_omap. exists req.
      split; [done |]. apply neededItem_some. by exists i.
  - intros moduleId. unfold getItemsForModule. rewrite filter_flat_map.
    induction modules as [|m ms IH]; [done |]. cbn [flat_map List.filter].
    rewrite IH. destruct (String.eqb (id (of_level m)) moduleId) eqn:E.
    + cbn [flat_map]. f_equal. apply filter_all.
      intros it (req & _ & Hsome)%list_elem_of_omap.
      by apply neededItem_some in Hsome as (i & _ & _ & ->).
    + rewrite filter_none; [done |].
      intros it (req & _ & Hsome)%list_elem_of_omap.
      by apply neededItem_some in Hsome as (i & _ & _ & ->).
  - unfold getModulesRequiringItem. apply filter_none.
    intros it (m & Hm & Hit)%list_elem_of_In%in_flat_map.
    apply list_elem_of_In, list_elem_of_omap in Hit as (req & _ & Hsome).
    apply neededItem_some in Hsome as (i & _ & Hid & ->). cbn.
    by apply String.eqb_neq.
Qed.

End Items.

End QueryFacts.

(** ** Privacy consent *)

Module ConsentFacts.

Import Consent ConsentSamples.

Lemma status_string_choice (s : ConsentStatus) :
  s ≠ unknown → stored_choice (Some (status_string s)) = Some s.
Proof. by destruct s. Qed.

Lemma stored_choice_known item s : stored_choice item = Some s → s ≠ unknown.
Proof.
  destruct item as [i|]; [| done]. cbn.
  destruct (String.eqb i "accepted"); [by intros [= <-] |].
  destruct (String.eqb i "rejected"); [by intros [= <-] | done].
Qed.

Lemma sync_keeps env status st :
  let st' := (syncAnalyticsWithConsent env status st).1 in
  consentStatus st' = consentStatus st
  ∧ bannerVisible st' = bannerVisible st
  ∧ hasInitialized st' = hasInitialized st
  ∧ stored st' = stored st.
Proof.
  destruct status, st as [cs bv hi cb cf item]; cbn;
    unfold enableClarity, disableClarity, bootstrapClarity; cbn;
    repeat (case_match; simplify_eq/=); done.
Qed.

Lemma setConsent_state env s st :
  let st1 := (setConsent env s st).1 in
  consentStatus st1 = s ∧ bannerVisible st1 = false
  ∧ stored st1
    = if hasWindow env && negb (localStorageThrows env)
         && negb (setItemThrows env)
      then Some (status_string s) else stored st.
Proof.
  cbv zeta. unfold setConsent, getStorage, persistConsent.
  destruct (hasWindow env), (localStorageThrows env), (setItemThrows env);
    cbn [negb andb];
    match goal with
    | |- context [syncAnalyticsWithConsent env s ?x] =>
        pose proof (sync_keeps env s x) as H; cbv zeta in H;
        destruct (syncAnalyticsWithConsent env s x) as [st2 e3]
    end;
    cbn in *; destruct H as (-> & -> & _ & ->); done.
Qed.

Lemma initializeConsent_loaded env item s :
  hasWindow env = true → localStorageThrows env = false →
  getItemThrows env = false →
  stored_choice item = Some s →
  let st2 := (initializeConsent env (loaded item)).1 in
  consentStatus st2 = s ∧ bannerVisible st2 = false
  ∧ hasInitialized st2 = true.
Proof.
  intros Hw Hl Hg Hc. cbv zeta.
  unfold initializeConsent, getStorage, readStoredConsent.
  cbn [loaded hasInitialized stored]. rewrite Hw, Hl. cbn [negb]. rewrite Hg, Hc.
  by destruct (syncAnalyticsWithConsent env s _).
Qed.

(** X20. A choice made where the storage works survives a reload: the next
    page load finds it, takes it as the status and keeps the banner
    hidden.  Where the storage cannot be reached or written the choice
    holds for the page only and the stored item is as it was. *)
Theorem consent_survives_reload (env env' : Env) (st : State)
    (s : ConsentStatus) :
  s ≠ unknown →
  let st1 := (setConsent env s st).1 in
  consentStatus st1 = s ∧ bannerVisible st1 = false
  ∧ (storage_works env = true →
     stored st1 = Some (status_string s)
     ∧ (storage_works env' = true →
        let st2 := (initializeConsent env' (loaded (stored st1))).1 in
        consentStatus st2 = s ∧ bannerVisible st2 = false
        ∧ hasInitialized st2 = true))
  ∧ (hasWindow env = false ∨ localStorageThrows env = true
     ∨ setItemThrows env = true →
     stored st1 = stored st).
Proof.
  intros Hs. cbv zeta.
  destruct (setConsent_state env s st) as (H1 & H2 & H3).
  split; [exact H1 |]. split; [exact H2 |]. split.
  - unfold storage_works. rewrite !andb_true_iff, !negb_true_iff.
    intros ((((Hw & Hl) & Hg) & Hset) & Hr).
    rewrite Hw, Hl, Hset in H3. cbn in H3. split; [exact H3 |].
    rewrite ?andb_true_iff, ?negb_true_iff.
    intros ((((Hw' & Hl') & Hg') & _) & _). rewrite H3.
    apply initializeConsent_loaded; try done.
    by apply status_string_choice.
  - intros [Hw | [Hl | Hset]]; rewrite H3.
    + by rewrite Hw.
    + rewrite Hl. by destruct (hasWindow env).
    + rewrite Hset. by destruct (hasWindow env), (localStorageThrows env).
Qed.

Lemma consent_survives_reload_witness :
  let st1 := (setConsent working_page rejected (loaded None)).1 in
  let st2 := (initializeConsent working_page (loaded (stored st1))).1 in
  stored st1 = Some "rejected"
  ∧ consentStatus st2 = rejected ∧ bannerVisible st2 = false.
Proof.
  cbv zeta.
  destruct (consent_survives_reload working_page working_page (loaded None)
              rejected) as (_ & _ & H & _); [discriminate |].
  destruct (H eq_refl) as [Hstored Hreload].
  destruct (Hreload eq_refl) as (Hs & Hb & _).
  split; [exact Hstored |]. split; [exact Hs | exact Hb].
Defined.

(** *** What every call keeps *)

Lemma call_banner env c st :
  (hasInitialized st = true →
   consentStatus st = unknown → bannerVisible st = true) →
  let st' := (call env c st).1 in
  consentStatus st' = unknown → bannerVisible st' = true.
Proof.
  intros Hinv. cbv zeta. destruct c; cbn [call].
  - unfold initializeConsent.
    destruct (hasInitialized st) eqn:Hi; [by apply Hinv |].
    destruct (getStorage env) as [storage e1].
    destruct (readStoredConsent env storage st) as [item e2].
    destruct (stored_choice item) as [s|] eqn:Hc; [| done].
    apply stored_choice_known in Hc.
    by destruct (syncAnalyticsWithConsent env s _).
  - unfold setConsent. destruct (getStorage env) as [storage e1].
    destruct (persistConsent env storage accepted _) as [st1 e2].
    destruct (syncAnalyticsWithConsent env accepted _) as [st2 e3] eqn:E.
    pose proof (sync_keeps env accepted
                  (with_choice st1 accepted false (hasInitialized st1))) as H.
    cbv zeta in H. rewrite E in H. cbn in *. destruct H as (-> & _). done.
  - unfold setConsent. destruct (getStorage env) as [storage e1].
    destruct (persistConsent env storage rejected _) as [st1 e2].
    destruct (syncAnalyticsWithConsent env rejected _) as [st2 e3] eqn:E.
    pose proof (sync_keeps env rejected
                  (with_choice st1 rejected false (hasInitialized st1))) as H.
    cbv zeta in H. rewrite E in H. cbn in *. destruct H as (-> & _). done.
  - done.
  - unfold resetConsent, disableClarity. destruct (getStorage env) as [storage e1].
    destruct (clearStoredConsent env storage _) as [st1 e2].
    by destruct (negb (hasWindow env)).
Qed.

(** X21. Once any call has been made, the banner shows whenever no choice
    is recorded: after a run of one call or more from a page load, a
    status of [unknown] comes with a visible banner. *)
Theorem unknown_shows_banner (calls : list (Env * Call)) (st : State) :
  calls ≠ [] →
  (hasInitialized st = true →
   consentStatus st = unknown → bannerVisible st = true) →
  let st' := (run calls st).1 in
  consentStatus st' = unknown → bannerVisible st' = true.
Proof.
  revert st. induction calls as [|[env c] rest IH]; intros st Hne Hinv; [done |].
  cbv zeta. cbn [run].
  pose proof (call_banner env c st Hinv) as Hcall. cbv zeta in Hcall.
  destruct (call env c st) as [st1 e1]. cbn [fst] in Hcall.
  destruct rest as [|x rest'].
  - done.
  - specialize (IH st1). cbv zeta in IH.
    destruct (run (x :: rest') st1) as [st2 e2]. cbn [fst] in *.
    apply IH; [done |]. intros _. exact Hcall.
Qed.

Lemma unknown_shows_banner_witness :
  let st' :=
    (run [(working_page, Accept); (working_page, ResetConsent);
          (working_page, InitializeConsent)] (loaded (Some "rejected"))).1 in
  consentStatus st' = unknown ∧ bannerVisible st' = true.
Proof.
  cbv zeta. split; [reflexivity |].
  apply (unknown_shows_banner
           [(working_page, Accept); (working_page, ResetConsent);
            (working_page, InitializeConsent)] (loaded (Some "rejected")));
    [discriminate | discriminate | reflexivity].
Defined.

(** *** The Clarity script and the collection of analytics *)

Lemma call_script env c st :
  let '(st', e) := call env c st in
  (clarityBootstrapped st = true → clarityBootstrapped st' = true)
  ∧ (List.length (List.filter inserts_script e)
     ≤ (if clarityBootstrapped st then 0 else 1))%nat
  ∧ (List.length (List.filter inserts_script e) = 1 →
     clarityBootstrapped st' = true).
Proof.
  destruct env as [w d lt gt sti rt ar pid], st as [cs bv hi cb cf item].
  destruct c; cbn;
    unfold initializeConsent, setConsent, resetConsent, getStorage,
      persistConsent, clearStoredConsent, readStoredConsent,
      syncAnalyticsWithConsent, enableClarity, disableClarity,
      bootstrapClarity, stored_choice; cbn;
    repeat (case_match; simplify_eq/=); repeat split; try done; lia.
Qed.

(** X22. Over any run of calls the Clarity script is inserted at most
    once, and not at all when it had been inserted before the run. *)
Theorem script_inserted_once (calls : list (Env * Call)) (st : State) :
  (List.length (List.filter inserts_script (run calls st).2)
   ≤ (if clarityBootstrapped st then 0 else 1))%nat.
Proof.
  revert st. induction calls as [|[env c] rest IH]; intros st.
  - cbn. by destruct (clarityBootstrapped st); lia.
  - cbn [run]. pose proof (call_script env c st) as Hcall.
    destruct (call env c st) as [st1 e1].
    destruct Hcall as (Hkeep & Hle & Hone).
    specialize (IH st1). destruct (run rest st1) as [st2 e2]. cbn [snd] in *.
    rewrite List.filter_app, List.length_app.
    destruct (clarityBootstrapped st) eqn:Hb.
    + rewrite Hkeep in IH by done. lia.
    + destruct (clarityBootstrapped st1) eqn:Hb1; [lia |].
      assert (List.length (List.filter inserts_script e1) ≠ 1)
        by (intros H1; by apply Hone in H1).
      lia.
Qed.

Lemma call_collects env c st :
  c ≠ Accept →
  stored st ≠ Some "accepted" →
  let '(st', e) := call env c st in
  stored st' ≠ Some "accepted" ∧ List.filter collects e = [].
Proof.
  intros Hc Hstored.
  destruct env as [w d lt gt sti rt ar pid], st as [cs bv hi cb cf item].
  cbn in Hstored.
  destruct c; [| done | | |]; cbn;
    unfold initializeConsent, setConsent, resetConsent, getStorage,
      persistConsent, clearStoredConsent, readStoredConsent,
      syncAnalyticsWithConsent, enableClarity, disableClarity,
      bootstrapClarity, stored_choice; cbn;
    repeat (case_match; simplify_eq/=); try done;
    try (split; [done | done]);
    match goal with
    | H : String.eqb _ _ = true |- _ => apply String.eqb_eq in H; by subst
    end.
Qed.

(** X23. Nothing that starts or feeds the collection of analytics happens
    without an acceptance: in a run that holds no accept, begun where the
    storage does not hold an acceptance, analytics are never enabled, the
    Clarity script is never inserted, Clarity is never told of a consent,
    and the storage still holds no acceptance at the end. *)
Theorem no_collection_without_accept (calls : list (Env * Call))
    (st : State) :
  (∀ env, (env, Accept) ∉ calls) →
  stored st ≠ Some "accepted" →
  List.filter collects (run calls st).2 = []
  ∧ stored (run calls st).1 ≠ Some "accepted".
Proof.
  revert st. induction calls as [|[env c] rest IH]; intros st Hno Hstored.
  - done.
  - cbn [run]. pose proof (call_collects env c st) as Hcall.
    destruct (call env c st) as [st1 e1].
    destruct Hcall as [Hs1 He1]; [| done |].
    { intros ->. apply (Hno env). by left. }
    destruct (IH st1) as [He2 Hs2]; [| done |].
    { intros env' Hin. apply (Hno env'). by right. }
    destruct (run rest st1) as [st2 e2]. cbn [fst snd] in *.
    by rewrite List.filter_app, He1, He2.
Qed.

Lemma visit_inserts_one_script :
  List.filter inserts_script (run visit (loaded None)).2
  = [InsertScript "https://www.clarity.ms/tag/qw2qze9js7"].
Proof. reflexivity. Qed.

Lemma no_collection_without_accept_witness :
  List.filter collects
    (run [(working_page, InitializeConsent); (working_page, Reject);
          (working_page, OpenPreferences); (working_page, ResetConsent)]
       (loaded (Some "rejected"))).2 = []
  ∧ stored
      (run [(working_page, InitializeConsent); (working_page, Reject);
            (working_page, OpenPreferences); (working_page, ResetConsent)]
         (loaded (Some "rejected"))).1 ≠ Some "accepted".
Proof.
  apply (no_collection_without_accept
           [(working_page, InitializeConsent); (working_page, Reject);
            (working_page, OpenPreferences); (working_page, ResetConsent)]
           (loaded (Some "rejected"))).
  - intros env Hin.
    repeat (apply elem_of_cons in Hin as [Hin | Hin]; [discriminate |]).
    by apply elem_of_nil in Hin.
  - discriminate.
Defined.

End ConsentFacts.
